(** * dota2-hub: a shallow embedding of [server.js] and of the series
    grouping of [app.js], with the properties of its specification.

    Conventions of the embedding.

    - JavaScript strings are sequences of 16-bit code units; the embedding
      uses Rocq's [string], whose characters are the code units below 256
      (Latin-1).  Case mapping and the white-space class are written out
      for that range.
    - JavaScript numbers that the code handles are identifiers, counters and
      epoch times: they are integers far below 2^53 and are embedded as [Z]
      (or [nat] for lengths and counters), where double arithmetic is exact.
    - Documents of the stats API are embedded as typed records with the
      shape the API documents; a field the code guards with [||], [?.] or
      [!] is an [option] ([None] stands for [null]/[undefined]).
    - The network, the clock and the built-ins [JSON.parse] and
      [decodeURIComponent] are the environment: they are oracles the
      theorems quantify over.  Every request settles, with an answer or
      with an error; the redirects of the image proxy are followed one by
      one, up to a number of hops that is a parameter.
    - Objects used as maps are finite maps; keys that name a property of
      [Object.prototype] are outside the embedding.
    - [console.log] output is not part of the embedding. *)

From Stdlib Require Import ZArith List String Ascii Bool Lia DecimalString Sorted.
From stdpp Require Import gmap strings list.
Import ListNotations.

Local Open Scope string_scope.
Local Open Scope Z_scope.
Local Open Scope list_scope.

(** ** JavaScript strings *)

Module JS.

(** The double quote, by its code. *)
Definition dq : string := String (ascii_of_nat 34) EmptyString.

Definition code (c : ascii) : nat := nat_of_ascii c.

(** [s.length] *)
Definition len (s : string) : nat := String.length s.

(** [s.startsWith(p)] *)
Fixpoint startsWith (s p : string) : bool :=
  match p, s with
  | EmptyString, _ => true
  | String _ _, EmptyString => false
  | String b p', String a s' => Ascii.eqb a b && startsWith s' p'
  end.

(** The rest of [s] after the prefix [p], when [s] starts with [p]. *)
Fixpoint stripPrefix (p s : string) : option string :=
  match p, s with
  | EmptyString, _ => Some s
  | String _ _, EmptyString => None
  | String b p', String a s' => if Ascii.eqb a b then stripPrefix p' s' else None
  end.

(** [s.includes(p)] *)
Fixpoint includes (s p : string) : bool :=
  startsWith s p ||
  match s with
  | EmptyString => false
  | String _ s' => includes s' p
  end.

(** [s.substring(0, n)] *)
Fixpoint substring0 (n : nat) (s : string) : string :=
  match n, s with
  | S n', String a s' => String a (substring0 n' s')
  | _, _ => EmptyString
  end.

(** The first occurrence of [sep] in [s]: the text before it and the text
    after it. *)
Fixpoint breakOn (sep s : string) : option (string * string) :=
  match stripPrefix sep s with
  | Some rest => Some (EmptyString, rest)
  | None =>
      match s with
      | EmptyString => None
      | String a s' =>
          match breakOn sep s' with
          | Some (b, r) => Some (String a b, r)
          | None => None
          end
      end
  end.

(** [s.split(sep)] for a non-empty literal separator (also the regular
    expressions of the code that are one literal): the pieces between the
    occurrences of [sep], left to right.  Every piece consumes a character,
    so [String.length s] rounds are enough. *)
Fixpoint split_rounds (n : nat) (sep s : string) : list string :=
  match n with
  | O => [s]
  | S n' =>
      match breakOn sep s with
      | Some (b, r) => b :: split_rounds n' sep r
      | None => [s]
      end
  end.

Definition split (s sep : string) : list string :=
  split_rounds (String.length s) sep s.

(** [\s] of a regular expression and the characters [trim] removes, among
    the code units below 256: TAB, LF, VT, FF, CR, space and NBSP. *)
Definition isSpace (c : ascii) : bool :=
  let n := code c in
  ((9 <=? n) && (n <=? 13) || (n =? 32) || (n =? 160))%nat.

(** [\d] *)
Definition isDigit (c : ascii) : bool :=
  let n := code c in ((48 <=? n) && (n <=? 57))%nat.

(** [toLowerCase] on one code unit below 256: A-Z, and the Latin-1 capitals
    U+00C0..U+00DE without the multiplication sign U+00D7. *)
Definition lowerChar (c : ascii) : ascii :=
  let n := code c in
  if ((65 <=? n) && (n <=? 90) ||
      (192 <=? n) && (n <=? 222) && negb (n =? 215))%nat
  then ascii_of_nat (n + 32) else c.

Fixpoint toLowerCase (s : string) : string :=
  match s with
  | EmptyString => EmptyString
  | String a s' => String (lowerChar a) (toLowerCase s')
  end.

Fixpoint trimStart (s : string) : string :=
  match s with
  | String a s' => if isSpace a then trimStart s' else s
  | EmptyString => EmptyString
  end.

Fixpoint trimEnd (s : string) : string :=
  match s with
  | EmptyString => EmptyString
  | String a s' =>
      match trimEnd s' with
      | EmptyString => if isSpace a then EmptyString else String a EmptyString
      | t => String a t
      end
  end.

(** [s.trim()] *)
Definition trim (s : string) : string := trimEnd (trimStart s).

(** [s.replace(/_/g, ' ')] *)
Fixpoint underscoresToSpaces (s : string) : string :=
  match s with
  | EmptyString => EmptyString
  | String a s' =>
      String (if Ascii.eqb a "_"%char then " "%char else a) (underscoresToSpaces s')
  end.

(** The value of a run of decimal digits read left to right ([parseInt] of
    a string matched by [\d+]); [acc] is the value of the digits read. *)
Fixpoint digitsValue (acc : Z) (s : string) : Z :=
  match s with
  | EmptyString => acc
  | String a s' => digitsValue (10 * acc + Z.of_nat (code a - 48)) s'
  end.

Definition parseInt (digits : string) : Z := digitsValue 0 digits.

(** [String(n)] and [`${n}`] for an integer [n]. *)
Definition ofNat (n : nat) : string := NilEmpty.string_of_uint (Nat.to_uint n).

Definition ofZ (n : Z) : string :=
  match n with
  | Z0 => "0"
  | Zpos p => NilEmpty.string_of_uint (Pos.to_uint p)
  | Zneg p => ("-" ++ NilEmpty.string_of_uint (Pos.to_uint p))%string
  end.

(** [a || b] on strings: the empty string is falsy. *)
Definition orStr (a b : string) : string :=
  match a with EmptyString => b | _ => a end.

End JS.

(** [Array.prototype.sort] with a comparator: the sort is stable, and for
    the comparators of the code (a difference of integer keys) the result is
    the one stable ordering, which insertion from the right computes. *)
Section Sort.
Context {A : Type} (cmp : A -> A -> Z).

Fixpoint insertSorted (x : A) (l : list A) : list A :=
  match l with
  | [] => [x]
  | y :: l' => if cmp x y <=? 0 then x :: l else y :: insertSorted x l'
  end.

Fixpoint sortWith (l : list A) : list A :=
  match l with
  | [] => []
  | x :: l' => insertSorted x (sortWith l')
  end.

End Sort.

(** ** Documents of the stats API *)

(** A value used as an identifier and compared with [===]: absent,
    [null], or a number. *)
Inductive JsId : Type :=
| IdUndefined
| IdNull
| IdNum (n : Z).

(** [a === b] on identifiers. *)
Definition strictEq (a b : JsId) : bool :=
  match a, b with
  | IdUndefined, IdUndefined => true
  | IdNull, IdNull => true
  | IdNum x, IdNum y => x =? y
  | _, _ => false
  end.

#[local] Unset Elimination Schemes.
(** Opaque JSON, for the documents the server passes on unread. *)
Inductive JSON : Type :=
| JNull
| JBool (b : bool)
| JNum (n : Z)
| JStr (s : string)
| JArr (l : list JSON)
| JObj (fields : list (string * JSON)).
#[local] Set Elimination Schemes.

(** JavaScript truthiness of a JSON value. *)
Definition truthy (v : JSON) : bool :=
  match v with
  | JNull => false
  | JBool b => b
  | JNum n => negb (n =? 0)
  | JStr s => negb (String.eqb s "")
  | JArr _ | JObj _ => true
  end.

(** [v?.[k]]: the member [k] of an object, [None] ([undefined]) otherwise. *)
Fixpoint assoc (k : string) (fields : list (string * JSON)) : option JSON :=
  match fields with
  | [] => None
  | (k', v) :: rest => if String.eqb k k' then Some v else assoc k rest
  end.

Definition member (k : string) (v : option JSON) : option JSON :=
  match v with
  | Some (JObj fields) => assoc k fields
  | _ => None
  end.

(** An entry of [/teams/{id}/matches]. *)
Record TeamMatch : Type := {
  match_id : Z;
  radiant : option bool;
  radiant_win : option bool;
  start_time : option Z;
  opposing_team_id : JsId;
  opposing_team_name : option string;
  league_name : option string;
  leagueid : option Z
}.

(** An entry of [/teams/{id}/players]. *)
Module TeamPlayer.
Record t : Type := {
  account_id : Z;
  games_played : option Z;
  wins : option Z
}.
End TeamPlayer.

(** An entry of [/proPlayers]. *)
Module ProPlayer.
Record t : Type := {
  account_id : option Z;
  name : option string
}.
End ProPlayer.

(** A player of [/matches/{id}]; anonymous players have no account id. *)
Module DetailPlayer.
Record t : Type := {
  account_id : JsId;
  personaname : option string;
  player_slot : Z;
  hero_id : Z
}.
End DetailPlayer.

(** The document of [/matches/{id}], as far as the server reads it. *)
Record MatchDetail : Type := {
  md_players : option (list DetailPlayer.t)
}.

(** An entry of [/heroStats]: the server reads [id] and keeps the rest. *)
Record Hero : Type := {
  id : Z;
  hero_data : JSON
}.

(** An entry of [/live]. *)
Record LiveGame : Type := {
  radiant_team_id : JsId;
  dire_team_id : JsId;
  live_data : JSON
}.

(** An entry of [/players/{id}/heroes]. *)
Module PlayerHero.
Record t : Type := {
  hero_id : Z;
  games : option Z;
  win : option Z
}.
End PlayerHero.

(** ** [app.js]: series grouping *)

Module App.

(** [m.start_time || 0] *)
Definition startOf (m : TeamMatch) : Z := default 0 (start_time m).

(** [m.league_name || ''] *)
Definition leagueOf (m : TeamMatch) : string := default "" (league_name m).

Definition didWin (m : TeamMatch) : bool :=
  match radiant m, radiant_win m with
  | Some true, Some true => true
  | Some false, Some false => true
  | _, _ => false
  end.

(** A series while the first loop builds it. *)
Record Draft : Type := {
  d_league : string;
  d_leagueid : option Z;
  d_opponent : string;
  d_opponentId : JsId;
  d_wins : nat;
  d_losses : nat;
  d_games : list TeamMatch;
  d_latestTime : Z
}.

(** A series as [groupMatchesIntoSeries] returns it. *)
Record Series : Type := {
  league : string;
  s_leagueid : option Z;
  opponent : string;
  opponentId : JsId;
  wins : nat;
  losses : nat;
  games : list TeamMatch;
  latestTime : Z;
  boType : string;
  seriesWon : bool
}.

(** The object literal that opens a series with the game [m]. *)
Definition openSeries (m : TeamMatch) : Draft :=
  let won := didWin m in
  {| d_league := leagueOf m;
     d_leagueid := leagueid m;
     d_opponent := JS.orStr (default "" (opposing_team_name m)) "Unknown";
     d_opponentId := opposing_team_id m;
     d_wins := if won then 1 else 0;
     d_losses := if won then 0 else 1;
     d_games := [m];
     d_latestTime := startOf m |}.

(** [cur.games.push(m); if (didWin(m)) cur.wins++; else cur.losses++] *)
Definition pushGame (cur : Draft) (m : TeamMatch) : Draft :=
  {| d_league := d_league cur;
     d_leagueid := d_leagueid cur;
     d_opponent := d_opponent cur;
     d_opponentId := d_opponentId cur;
     d_wins := if didWin m then S (d_wins cur) else d_wins cur;
     d_losses := if didWin m then d_losses cur else S (d_losses cur);
     d_games := d_games cur ++ [m];
     d_latestTime := d_latestTime cur |}.

(** [cur.games[cur.games.length - 1].start_time || 0] *)
Definition lastTime (cur : Draft) : Z :=
  match List.last (map Some (d_games cur)) None with
  | Some g => startOf g
  | None => 0
  end.

(** The test of the first loop: the game [m] joins the series [cur]. *)
Definition joins (cur : Draft) (m : TeamMatch) : bool :=
  strictEq (d_opponentId cur) (opposing_team_id m)
  && String.eqb (d_league cur) (leagueOf m)
  && (0 <? length (d_games cur))%nat
  && (Z.abs (startOf m - lastTime cur) <? 6 * 3600).

(** One round of the first loop.  [series] is the array under
    construction, newest series first; [cur] of the code is an alias of the
    series pushed last, so it is the head of the list, and a change of
    [cur] is a change of that element. *)
Definition groupStep (series : list Draft) (m : TeamMatch) : list Draft :=
  match series with
  | cur :: rest =>
      if joins cur m then pushGame cur m :: rest
      else openSeries m :: series
  | [] => [openSeries m]
  end.

(** The label of the second loop. *)
Definition boLabel (wins losses total : nat) : string :=
  let max := Nat.max wins losses in
  if (total =? 1)%nat then "BO1"
  else if (max =? 2)%nat && (total <=? 3)%nat then "BO3"
  else if (max =? 3)%nat && (total <=? 5)%nat then "BO5"
  else (JS.ofNat total ++ "G")%string.

(** The second loop on one series. *)
Definition finish (s : Draft) : Series :=
  {| league := d_league s;
     s_leagueid := d_leagueid s;
     opponent := d_opponent s;
     opponentId := d_opponentId s;
     wins := d_wins s;
     losses := d_losses s;
     games := sortWith (fun a b => startOf a - startOf b) (d_games s);
     latestTime := d_latestTime s;
     boType := boLabel (d_wins s) (d_losses s) (length (d_games s));
     seriesWon := (d_losses s <? d_wins s)%nat |}.

(** The drafts of the first loop, in the order of the array. *)
Definition groupDrafts (matches : list TeamMatch) : list Draft :=
  let sorted := sortWith (fun a b => startOf b - startOf a) matches in
  rev (fold_left groupStep sorted []).

Definition groupMatchesIntoSeries (matches : list TeamMatch) : list Series :=
  map finish (groupDrafts matches).

(** *** The grouping in the words of the specification

    Two neighbours of the sorted list belong to one series exactly when
    they have the same opposing team id and the same league name and start
    less than six hours apart. *)
Definition sameSeries (a b : TeamMatch) : bool :=
  strictEq (opposing_team_id a) (opposing_team_id b)
  && String.eqb (leagueOf a) (leagueOf b)
  && (Z.abs (startOf b - startOf a) <? 6 * 3600).

Definition consHead {A} (x : A) (rs : list (list A)) : list (list A) :=
  match rs with
  | r :: rs' => (x :: r) :: rs'
  | [] => [[x]]
  end.

(** The maximal runs of [p :: l] whose neighbours are related by [same]. *)
Fixpoint runsFrom {A} (same : A -> A -> bool) (p : A) (l : list A) : list (list A) :=
  match l with
  | [] => [[p]]
  | m :: l' =>
      if same p m then consHead p (runsFrom same m l')
      else [p] :: runsFrom same m l'
  end.

Definition adjacentRuns {A} (same : A -> A -> bool) (l : list A) : list (list A) :=
  match l with
  | [] => []
  | p :: l' => runsFrom same p l'
  end.

(** Every two neighbours of [r] are related. *)
Fixpoint chain {A} (same : A -> A -> bool) (r : list A) : bool :=
  match r with
  | a :: (b :: _) as r' => same a b && chain same r'
  | _ => true
  end.

(** Between two runs that follow each other the relation fails: the last
    element of the one and the first of the next are unrelated. *)
Fixpoint cuts {A} (same : A -> A -> bool) (rs : list (list A)) : bool :=
  match rs with
  | r1 :: (r2 :: _) as rs' =>
      match List.last (map Some r1) None, r2 with
      | Some a, b :: _ => negb (same a b)
      | _, _ => false
      end && cuts same rs'
  | _ => true
  end.

(** The number of games of a list that were won. *)
Definition wonGames (l : list TeamMatch) : nat := length (List.filter didWin l).
Definition lostGames (l : list TeamMatch) : nat :=
  length (List.filter (fun m => negb (didWin m)) l).

End App.

(** ** [server.js]: configuration and state *)

Record TeamConfig : Type := {
  team_id : Z;
  team_name : string;
  tag : string
}.

Definition TEAMS : list (string * TeamConfig) :=
  [ ("xg", {| team_id := 8261500; team_name := "Xtreme Gaming"; tag := "XG" |});
    ("yb", {| team_id := 9351740; team_name := "Yakult Brothers"; tag := "YB" |});
    ("vg", {| team_id := 726228; team_name := "Vici Gaming"; tag := "VG" |}) ].

Definition API_BASE : string := "https://api.opendota.com/api".
Definition REFRESH_INTERVAL : Z := 5 * 60 * 1000.
Definition LIVE_REFRESH_INTERVAL : Z := 60 * 1000.

(** [TEAMS[key]] *)
Fixpoint teamOf (key : string) (teams : list (string * TeamConfig)) : option TeamConfig :=
  match teams with
  | [] => None
  | (k, cfg) :: rest => if String.eqb key k then Some cfg else teamOf key rest
  end.

(** The names every object inherits from [Object.prototype]: under them an
    object literal holds a value although nothing has been stored. *)
Definition inheritedName (name : string) : bool :=
  existsb (String.eqb name)
    [ "constructor"; "hasOwnProperty"; "isPrototypeOf"; "propertyIsEnumerable";
      "toLocaleString"; "toString"; "valueOf"; "__proto__";
      "__defineGetter__"; "__defineSetter__"; "__lookupGetter__"; "__lookupSetter__" ].

(** [TEAMS[key]] is a value whose properties can be read: [key] is a key
    of [TEAMS] or an inherited name.  For every other key [TEAMS[key]] is
    [undefined], and [TEAMS[key].id] throws. *)
Definition teamDefined (key : string) : bool :=
  match teamOf key TEAMS with
  | Some _ => true
  | None => inheritedName key
  end.

(** A player of a roster, as [buildCurrentRosters] writes it. *)
Module RosterEntry.
Record t : Type := {
  account_id : JsId;
  name : string;
  personaname : string;
  games_played : Z;
  wins : Z;
  hero_id : Z
}.
End RosterEntry.

(** What one element of [teamPromises] resolves to. *)
Record TeamResult : Type := {
  key : string;
  info : JSON;
  matches : list TeamMatch;
  players : list TeamPlayer.t;
  heroes : list JSON
}.

(** [{ ...t, roster }] *)
Record TeamEntry : Type := {
  result : TeamResult;
  roster : list RosterEntry.t
}.

(** An upcoming match, as the scraper writes it.  [dateStr] is the ISO
    rendering of an instant, embedded as the instant in milliseconds. *)
Module Upcoming.
Record t : Type := {
  teamKey : string;
  teamTag : string;
  opponent : string;
  tournament : string;
  bestOf : string;
  ourLogo : option string;
  oppLogo : option string;
  timestamp : option Z;
  dateStr : option Z
}.
End Upcoming.

(** The snapshot held in [cachedData].  [lastUpdated] and [liveUpdated] are
    ISO renderings of an instant, embedded as the instant in milliseconds;
    [liveUpdated] is absent until the live refresher writes it.  [teams] is
    an object keyed by team key, embedded as the list of its entries in
    insertion order. *)
Record Snapshot : Type := {
  teams : list (string * TeamEntry);
  heroMap : gmap Z Hero;
  liveMatches : list LiveGame;
  upcoming : list Upcoming.t;
  teamConfig : list (string * TeamConfig);
  lastUpdated : Z;
  liveUpdated : option Z
}.

(** A player-hero entry as [getPlayerHeroes] returns it. *)
Module HeroStat.
Record t : Type := {
  hero_id : Z;
  games : Z;
  win : Z
}.
End HeroStat.

(** An entry of [playerHeroCache]. *)
Record HeroCacheEntry : Type := {
  hc_data : list HeroStat.t;
  hc_timestamp : Z
}.

(** An entry of [imgCache]. *)
Record Image : Type := {
  img_data : list Byte.byte;
  contentType : string;
  img_timestamp : Z
}.

(** The module-level variables of [server.js]. *)
Record Server : Type := {
  cachedData : option Snapshot;
  isRefreshing : bool;
  playerHeroCache : gmap Z HeroCacheEntry;
  imgCache : gmap string Image
}.

(** The state after the module is loaded. *)
Definition initial : Server :=
  {| cachedData := None; isRefreshing := false;
     playerHeroCache := ∅; imgCache := ∅ |}.

(** ** The environment: network, clock and built-ins *)

(** How a promise settles. *)
Inductive Outcome (A : Type) : Type :=
| Resolved (a : A)
| Rejected (msg : string).
Arguments Resolved {A} a.
Arguments Rejected {A} msg.

(** The endpoints of the stats API the server requests, each with the type
    of the document it answers ([None] is a [null] document). *)
Inductive Endpoint : Type -> Type :=
| EpTeam (id : Z) : Endpoint JSON
| EpTeamMatches (id : Z) : Endpoint (option (list TeamMatch))
| EpTeamPlayers (id : Z) : Endpoint (option (list TeamPlayer.t))
| EpTeamHeroes (id : Z) : Endpoint (option (list JSON))
| EpHeroStats : Endpoint (option (list Hero))
| EpLive : Endpoint (option (list LiveGame))
| EpProPlayers : Endpoint (option (list ProPlayer.t))
| EpMatch (match_id : Z) : Endpoint (option MatchDetail)
| EpPlayerHeroes (account_id : Z) : Endpoint (option (list PlayerHero.t)).

(** The [endpoint] string of each request. *)
Definition path {A} (e : Endpoint A) : string :=
  match e with
  | EpTeam id => "/teams/" +:+ JS.ofZ id
  | EpTeamMatches id => "/teams/" +:+ JS.ofZ id +:+ "/matches"
  | EpTeamPlayers id => "/teams/" +:+ JS.ofZ id +:+ "/players"
  | EpTeamHeroes id => "/teams/" +:+ JS.ofZ id +:+ "/heroes"
  | EpHeroStats => "/heroStats"
  | EpLive => "/live"
  | EpProPlayers => "/proPlayers"
  | EpMatch m => "/matches/" +:+ JS.ofZ m
  | EpPlayerHeroes a => "/players/" +:+ JS.ofZ a +:+ "/heroes?game_mode=2"
  end.

(** The answer to one [https.get] of the image proxy: a network error, or
    a response with its status, its [Location] and [Content-Type] headers,
    and its body as the (unzipped) stream delivers it. *)
Inductive ImageResponse : Type :=
| ImgError (msg : string)
| ImgResponse (statusCode : Z) (location : option string)
    (content_type : option string) (body : Outcome (list Byte.byte)).

(** The environment.  The [n]-th request the process issues is answered by
    the oracle at [n]; [elapsed n] is the time that request takes.
    [fetchJSON_answer] settles as [fetchJSON] does (a rejection stands for a
    network error, status 429 or an unparsable body); [httpsGet_answer]
    settles as [httpsGet] does, redirects followed. *)
Record Env : Type := {
  API_KEY : string;
  fetchJSON_answer : forall A : Type, nat -> Endpoint A -> Outcome A;
  httpsGet_answer : nat -> string -> Outcome string;
  image_answer : nat -> string -> ImageResponse;
  elapsed : nat -> Z;
  JSON_parse : string -> option JSON;
  decodeURIComponent : string -> option string
}.

(** What the process does to the outside, in order. *)
Inductive Event : Type :=
| EvFetchJSON (url : string)
| EvHttpsGet (url : string)
| EvImageGet (url : string)
| EvSleep (ms : Z).

(** The outside as the process has seen it: the number of requests issued,
    the clock ([Date.now()], in milliseconds) and the events so far. *)
Record World : Type := {
  requests : nat;
  clock : Z;
  trace : list Event
}.

(** An asynchronous computation: it runs in a world and settles. *)
Definition Net (A : Type) : Type := World -> Outcome A * World.

#[global] Instance Net_ret : MRet Net := fun A a w => (Resolved a, w).

(** [await] *)
#[global] Instance Net_bind : MBind Net := fun A B f m w =>
  match m w with
  | (Resolved a, w') => f a w'
  | (Rejected msg, w') => (Rejected msg, w')
  end.

Definition throw {A} (msg : string) : Net A := fun w => (Rejected msg, w).

(** [try { m } catch (err) { h err }] and [m.catch(h)] *)
Definition catch {A} (m : Net A) (h : string -> Net A) : Net A := fun w =>
  match m w with
  | (Resolved a, w') => (Resolved a, w')
  | (Rejected msg, w') => h msg w'
  end.

(** A promise that has settled, awaited. *)
Definition ofOutcome {A} (r : Outcome A) : Net A := fun w => (r, w).

(** [Date.now()] *)
Definition dateNow : Net Z := fun w => (Resolved (clock w), w).

(** One request: it is recorded, counted, and takes its time. *)
Definition request (env : Env) (ev : Event) (w : World) : World :=
  {| requests := S (requests w);
     clock := clock w + elapsed env (requests w);
     trace := trace w ++ [ev] |}.

(** [new Promise(r => setTimeout(r, ms))] *)
Definition sleep (ms : Z) : Net unit := fun w =>
  (Resolved tt,
   {| requests := requests w; clock := clock w + ms; trace := trace w ++ [EvSleep ms] |}).

(** ** [server.js]: the fetch layer *)

(** The URL [fetchJSON] requests. *)
Definition fetchURL (env : Env) (endpoint : string) : string :=
  let sep := if JS.includes endpoint "?" then "&" else "?" in
  match API_KEY env with
  | EmptyString => API_BASE +:+ endpoint
  | k => API_BASE +:+ endpoint +:+ sep +:+ "api_key=" +:+ k
  end.

Definition fetchJSON (env : Env) {A} (e : Endpoint A) : Net A := fun w =>
  (fetchJSON_answer env A (requests w) e,
   request env (EvFetchJSON (fetchURL env (path e))) w).

(** The default of [retries]; no caller passes another value. *)
Definition retries : nat := 3.

(** The loop [for (let i = 0; i < retries; i++)] of [fetchWithRetry] from
    round [i] on; [left] is [retries - 1 - i], so [left = 0] is the test
    [i === retries - 1]. *)
Fixpoint retryFrom (env : Env) {A} (e : Endpoint A) (i left : nat) : Net A :=
  catch (fetchJSON env e) (fun err =>
    match left with
    | O => throw err
    | S left' =>
        _ ← sleep (1000 * (Z.of_nat i + 1));
        retryFrom env e (S i) left'
    end).

Definition fetchWithRetry (env : Env) {A} (e : Endpoint A) : Net A :=
  retryFrom env e 0 (retries - 1).

(** [httpsGet]: one call, with the redirects it follows.  The world
    records and counts the call; the requests of the hops of a redirect are
    inside the answer of the environment, and no entry of the trace and no
    unit of [requests] stands for them. *)
Definition httpsGet (env : Env) (url : string) : Net string := fun w =>
  (httpsGet_answer env (requests w) url, request env (EvHttpsGet url) w).

(** ** [server.js]: rosters *)

(** [proNameMap]: names of professional players by account id.  Only
    entries with a truthy id and a truthy name are recorded; a later entry
    overwrites an earlier one. *)
Definition proNameMapOf (proPlayers : option (list ProPlayer.t)) : gmap Z string :=
  fold_left (fun (m : gmap Z string) p =>
    match ProPlayer.account_id p, ProPlayer.name p with
    | Some a, Some n =>
        if negb (a =? 0) && negb (String.eqb n "") then <[a := n]> m else m
    | _, _ => m
    end) (default [] proPlayers) ∅.

(** [statsMap]: the entries of the team's players by account id. *)
Definition statsMapOf (players : list TeamPlayer.t) : gmap Z TeamPlayer.t :=
  fold_left (fun (m : gmap Z TeamPlayer.t) p => <[TeamPlayer.account_id p := p]> m) players ∅.

(** [map[id]] for an id that may be absent: only a number names an entry. *)
Definition lookupId {V} (m : gmap Z V) (i : JsId) : option V :=
  match i with
  | IdNum n => m !! n
  | _ => None
  end.

(** [String(id)] *)
Definition idToString (i : JsId) : string :=
  match i with
  | IdUndefined => "undefined"
  | IdNull => "null"
  | IdNum n => JS.ofZ n
  end.

(** [x || 0] on a number that may be absent. *)
Definition orZero (x : option Z) : Z := default 0 x.

(** The roster entry of one player of the match. *)
Definition rosterEntry (proNameMap : gmap Z string) (statsMap : gmap Z TeamPlayer.t)
    (p : DetailPlayer.t) : RosterEntry.t :=
  let a := DetailPlayer.account_id p in
  let persona := default "" (DetailPlayer.personaname p) in
  let stats := lookupId statsMap a in
  {| RosterEntry.account_id := a;
     RosterEntry.name :=
       JS.orStr (default "" (lookupId proNameMap a)) (JS.orStr persona (idToString a));
     RosterEntry.personaname := persona;
     RosterEntry.games_played := orZero (stats ≫= TeamPlayer.games_played);
     RosterEntry.wins := orZero (stats ≫= TeamPlayer.wins);
     RosterEntry.hero_id := DetailPlayer.hero_id p |}.

(** The body of the loop of [buildCurrentRosters] for one team: its roster.
    The first statement, [const teamId = TEAMS[t.key].id], is outside the
    [try]: for a key under which [TEAMS] holds nothing it throws, and the
    function rejects.  The request is inside the [try]; a failure gives the
    empty roster. *)
Definition rosterOf (env : Env) (proNameMap : gmap Z string) (t : TeamResult)
    : Net (list RosterEntry.t) :=
  if negb (teamDefined (key t))
  then throw "Cannot read properties of undefined (reading 'id')"
  else
  match matches t with
  | [] => mret []
  | recentMatch :: _ =>
      catch
        (matchDetail ← fetchWithRetry env (EpMatch (match_id recentMatch));
         match matchDetail ≫= md_players with
         | None => mret []
         | Some ps =>
             let isRadiant :=
               match radiant recentMatch with Some true => true | _ => false end in
             let teamPlayers :=
               List.filter (fun p =>
                 if isRadiant then DetailPlayer.player_slot p <? 128
                 else 128 <=? DetailPlayer.player_slot p) ps in
             let statsMap := statsMapOf (players t) in
             mret (map (rosterEntry proNameMap statsMap) teamPlayers)
         end)
        (fun _ => mret [])
  end.

(** The loop of [buildCurrentRosters]: the teams one after the other. *)
Fixpoint rostersLoop (env : Env) (proNameMap : gmap Z string) (teamResults : list TeamResult)
    (rosters : gmap string (list RosterEntry.t)) : Net (gmap string (list RosterEntry.t)) :=
  match teamResults with
  | [] => mret rosters
  | t :: rest =>
      r ← rosterOf env proNameMap t;
      rostersLoop env proNameMap rest (<[key t := r]> rosters)
  end.

Definition buildCurrentRosters (env : Env) (teamResults : list TeamResult)
    (proPlayers : option (list ProPlayer.t)) : Net (gmap string (list RosterEntry.t)) :=
  rostersLoop env (proNameMapOf proPlayers) teamResults ∅.

(** ** [server.js]: the scraper of the wiki page *)

Module Scrape.

Definition dqc : ascii := ascii_of_nat 34.

(** The first position of [s], left to right, at which [f] matches: how a
    regular expression without the [g] flag finds its match. *)
Fixpoint firstMatch {R} (f : string -> option R) (s : string) : option R :=
  match f s with
  | Some r => Some r
  | None =>
      match s with
      | EmptyString => None
      | String _ s' => firstMatch f s'
      end
  end.

(** In the comments of this module Q stands for the double quote.

    A run of characters other than Q and the Q that closes it, at the head
    of [s]: the run, and what follows that quote. *)
Fixpoint upToQuote (s : string) : option (string * string) :=
  match s with
  | EmptyString => None
  | String c s' =>
      if Ascii.eqb c dqc then Some (EmptyString, s')
      else match upToQuote s' with
           | Some (run, rest) => Some (String c run, rest)
           | None => None
           end
  end.

(** [([^Q]+)Q]: the run must not be empty. *)
Definition quoted (s : string) : option (string * string) :=
  match upToQuote s with
  | Some (String c run, rest) => Some (String c run, rest)
  | _ => None
  end.

(** [\s+] followed by something that is no white space: the rest after the
    white space, which must not be empty. *)
Definition spaces1 (s : string) : option string :=
  match s with
  | String c s' => if JS.isSpace c then Some (JS.trimStart s') else None
  | EmptyString => None
  end.

(** [[^>]*>]: the rest after the next [>]. *)
Fixpoint afterGt (s : string) : option string :=
  match s with
  | EmptyString => None
  | String c s' => if Ascii.eqb c ">"%char then Some s' else afterGt s'
  end.

(** [src=Q([^Q]+)Q] at the head of [s]. *)
Definition srcHere (s : string) : option (string * string) :=
  match JS.stripPrefix ("src=" +:+ JS.dq) s with
  | Some r => quoted r
  | None => None
  end.

(** The end of [[^>]+src=Q([^Q]+)Q] when the run [[^>]+] has reached [s]:
    the run is greedy, so a longer run is tried before [src=] is tried
    here. *)
Fixpoint greedySrc (s : string) : option (string * string) :=
  match s with
  | EmptyString => None
  | String c s' =>
      if Ascii.eqb c ">"%char then None
      else match greedySrc s' with
           | Some r => Some r
           | None => srcHere s
           end
  end.

(** [[^>]+src=Q([^Q]+)Q] at the head of [s]: the run has a character. *)
Definition imgSrc (s : string) : option (string * string) :=
  match s with
  | String c s' => if Ascii.eqb c ">"%char then None else greedySrc s'
  | EmptyString => None
  end.

(** [teamImgRe] at the head of [s]:
    [href=Q\/dota2\/([^Q]+)Q\s+title=Q([^Q]+)Q[^>]*>\s*<img[^>]+src=Q([^Q]+)Q].
    The result is the groups 2 and 3 and the rest after the match. *)
Definition teamImgAt (s : string) : option (string * string * string) :=
  r ← JS.stripPrefix ("href=" +:+ JS.dq +:+ "/dota2/") s;
  '(_, r) ← quoted r;
  r ← spaces1 r;
  r ← JS.stripPrefix ("title=" +:+ JS.dq) r;
  '(title, r) ← quoted r;
  r ← afterGt r;
  r ← JS.stripPrefix "<img" (JS.trimStart r);
  '(src, r) ← imgSrc r;
  Some (title, src, r).

(** The loop [while ((m = teamImgRe.exec(block)) !== null)]: all matches
    left to right, each search starting where the last match ended.  A
    match consumes a character, so [String.length block] rounds are
    enough. *)
Fixpoint execAll (rounds : nat) (s : string) : list (string * string) :=
  match rounds with
  | O => []
  | S n =>
      match s with
      | EmptyString => []
      | String _ s' =>
          match teamImgAt s with
          | Some (title, src, rest) => (title, src) :: execAll n rest
          | None => execAll n s'
          end
      end
  end.

(** The body of that loop: [names] is [teamNamesSet] in insertion order and
    [logos] holds the properties of [teamLogos] that are its own.  Under a
    name every object inherits, [teamLogos[title]] is truthy before anything
    is stored, and an assignment to [__proto__] stores nothing.  Where the
    code reads [teamLogos[name]] later, [logos !! name] is the text stored;
    a value of the prototype, which is no text, is none. *)
Definition addTeam (acc : list string * gmap string string) (m : string * string)
    : list string * gmap string string :=
  let '(names, logos) := acc in
  let title := JS.trim (fst m) in
  let imgSrc := snd m in
  if JS.includes title "/" || JS.includes title "#" then acc
  else if ((2 <=? JS.len title) && (JS.len title <? 40))%nat then
    (if existsb (String.eqb title) names then names else names ++ [title],
     if negb (bool_decide (is_Some (logos !! title)) || inheritedName title)
        || JS.includes imgSrc "darkmode" || JS.includes imgSrc "allmode"
     then (if String.eqb title "__proto__" then logos
           else <[title := "https://liquipedia.net" +:+ imgSrc]> logos)
     else logos)
  else acc.

Definition teamsOfBlock (block : string) : list string * gmap string string :=
  fold_left addTeam (execAll (String.length block) block) ([], ∅).

(** [obj[k] = v] on an object kept as the list of its entries: the value of
    an existing key is replaced in place, a new key goes to the end. *)
Fixpoint objSet (k v : string) (o : list (string * string)) : list (string * string) :=
  match o with
  | [] => [(k, v)]
  | (k', v') :: rest =>
      if String.eqb k k' then (k, v) :: rest else (k', v') :: objSet k v rest
  end.

(** [teamLookup]: lower-case name, tag and first word of the name of every
    tracked team, each with the team's key. *)
Definition teamLookup : list (string * string) :=
  fold_left (fun o '(key, cfg) =>
    let o := objSet (JS.toLowerCase (team_name cfg)) key o in
    let o := objSet (JS.toLowerCase (tag cfg)) key o in
    objSet (JS.toLowerCase (default "" (head (JS.split (team_name cfg) " ")))) key o)
    TEAMS [].

(** A team name of the page matches a tracked team when it contains one of
    the patterns of [teamLookup] or is contained in one. *)
Definition matchesPattern (lower pattern : string) : bool :=
  JS.includes lower pattern || JS.includes pattern lower.

(** The inner loop: the key of the first pattern the name matches. *)
Definition keyOfName (name : string) : option string :=
  let lower := JS.toLowerCase name in
  snd <$> find (fun e => matchesPattern lower (fst e)) teamLookup.

Definition matchesTracked (name : string) : bool :=
  bool_decide (is_Some (keyOfName name)).

(** The outer loop: [ourKey], the key for the first name that matches. *)
Fixpoint ourKeyOf (teamNames : list string) : option string :=
  match teamNames with
  | [] => None
  | name :: rest =>
      match keyOfName name with
      | Some k => Some k
      | None => ourKeyOf rest
      end
  end.

(** [\d+] at the head of [s]: the digits and the rest. *)
Fixpoint digits (s : string) : string * string :=
  match s with
  | String c s' =>
      if JS.isDigit c then let (d, r) := digits s' in (String c d, r)
      else (EmptyString, s)
  | EmptyString => (EmptyString, EmptyString)
  end.

(** [data-timestamp=Q(\d+)Q] at the head of [s]: group 1. *)
Definition timestampAt (s : string) : option string :=
  r ← JS.stripPrefix ("data-timestamp=" +:+ JS.dq) s;
  match digits r with
  | (String c d, String q _) => if Ascii.eqb q dqc then Some (String c d) else None
  | _ => None
  end.

(** [tsMatch ? parseInt(tsMatch[1]) : null] *)
Definition extractTimestamp (block : string) : option Z :=
  JS.parseInt <$> firstMatch timestampAt block.

(** [title=Q([^Q]+)Q] at the head of [s]: group 1. *)
Definition titleAt (s : string) : option string :=
  r ← JS.stripPrefix ("title=" +:+ JS.dq) s;
  fst <$> quoted r.

(** [tournRe]: [class=Qmatch-info-tournamentQ[^]*?title=Q([^Q]+)Q].  After
    the first occurrence of the class attribute the lazy [[^]*?] stops at
    the first [title] attribute that matches; where that occurrence has
    none, no later one has. *)
Definition tournMatch (block : string) : option string :=
  '(_, r) ← JS.breakOn ("class=" +:+ JS.dq +:+ "match-info-tournament" +:+ JS.dq) block;
  firstMatch titleAt r.

(** [parts[i]] when it is truthy. *)
Definition part (i : nat) (parts : list string) : option string :=
  match nth_error parts i with
  | Some EmptyString => None
  | r => r
  end.

Definition tournamentOf (block : string) : string :=
  match tournMatch block with
  | None => ""
  | Some g =>
      let parts := JS.split (JS.underscoresToSpaces g) "/" in
      let name := JS.trim (default "" (head parts)) in
      let season := match part 1 parts with Some p => JS.trim p | None => "" end in
      let stage :=
        match part 2 parts with
        | Some p => JS.trim (default "" (head (JS.split p "#")))
        | None => ""
        end in
      let tournament :=
        match season with
        | EmptyString => name
        | _ => name +:+ " Season " +:+ season
        end in
      match stage with
      | EmptyString => tournament
      | _ => tournament +:+ " - " +:+ stage
      end
  end.

(** [\(Bo(\d)\)] with the flag [i], at the head of [s]: group 1. *)
Definition boAt (s : string) : option string :=
  match s with
  | String p (String b (String o (String d (String q _)))) =>
      if Ascii.eqb p "("%char
         && (Ascii.eqb b "B"%char || Ascii.eqb b "b"%char)
         && (Ascii.eqb o "O"%char || Ascii.eqb o "o"%char)
         && JS.isDigit d && Ascii.eqb q ")"%char
      then Some (String d EmptyString) else None
  | _ => None
  end.

Definition bestOfOf (block : string) : string :=
  match firstMatch boAt block with
  | Some d => "BO" +:+ d
  | None => ""
  end.

(** [ourNames.some(n => t.toLowerCase().includes(n))] *)
Definition isOurs (cfg : TeamConfig) (t : string) : bool :=
  existsb (JS.includes (JS.toLowerCase t))
    [JS.toLowerCase (team_name cfg); JS.toLowerCase (tag cfg)].

(** The window of the time filter: an entry is dropped when its timestamp
    is truthy and lies before [Date.now() / 1000 - 3600].  The timestamp is
    in seconds and [now] in milliseconds; the comparison is written without
    the division. *)
Definition tooOld (timestamp : option Z) (now : Z) : bool :=
  match timestamp with
  | Some ts => negb (ts =? 0) && (1000 * ts <? now - 3600 * 1000)
  | None => false
  end.

(** The block the loop reads of a fragment: [matchBlocks[i].substring(0, 5000)]. *)
Definition blockOf (fragment : string) : string := JS.substring0 5000 fragment.

(** The team names the loop extracts from a block, [teamNames]. *)
Definition teamNamesOf (block : string) : list string := fst (teamsOfBlock block).

(** The patterns [teamLookup] holds for one tracked team. *)
Definition patternsOf (cfg : TeamConfig) : list string :=
  [ JS.toLowerCase (team_name cfg); JS.toLowerCase (tag cfg);
    JS.toLowerCase (default "" (head (JS.split (team_name cfg) " "))) ].

(** [new Date(timestamp * 1000)] is an invalid date, on which
    [toISOString] throws a [RangeError]: the time value is beyond
    8.64e15 ms.  The conditional evaluates it for a truthy timestamp only. *)
Definition noDate (timestamp : option Z) : bool :=
  match timestamp with
  | Some ts => negb (ts =? 0) && (8640000000000000 <? Z.abs (1000 * ts))
  | None => false
  end.

(** How a round of the loop over the match blocks ends: in [continue], in
    [upcoming.push], or in an exception, which leaves the loop for the
    [catch] of [fetchUpcoming]. *)
Inductive Round : Type :=
| Continue
| Pushed (e : Upcoming.t)
| Thrown.

(** One round of the loop, for the fragment [fragment]. *)
Definition round (fragment : string) (now : Z) : Round :=
  let block := blockOf fragment in
  let '(teamNames, teamLogos) := teamsOfBlock block in
  if (length teamNames <? 2)%nat then Continue else
  match ourKeyOf teamNames with
  | None => Continue
  | Some ourKey =>
      match teamOf ourKey TEAMS with
      | None => Continue
      | Some cfg =>
          let timestamp := extractTimestamp block in
          if tooOld timestamp now then Continue else
          let opponent :=
            match find (fun t => negb (isOurs cfg t)) teamNames with
            | Some t => t
            | None => JS.orStr (default "" (nth_error teamNames 1)) "TBD"
            end in
          let ourTeamName := find (isOurs cfg) teamNames in
          if noDate timestamp then Thrown else
          Pushed {| Upcoming.teamKey := ourKey;
                    Upcoming.teamTag := tag cfg;
                    Upcoming.opponent := opponent;
                    Upcoming.tournament := tournamentOf block;
                    Upcoming.bestOf := bestOfOf block;
                    Upcoming.ourLogo := ourTeamName ≫= (fun n => teamLogos !! n);
                    Upcoming.oppLogo := teamLogos !! opponent;
                    Upcoming.timestamp := timestamp;
                    Upcoming.dateStr :=
                      match timestamp with
                      | Some ts => if ts =? 0 then None else Some (ts * 1000)
                      | None => None
                      end |}
      end
  end.

(** The entry the round of [fragment] pushes; [None] where it pushes
    none. *)
Definition processBlock (fragment : string) (now : Z) : option Upcoming.t :=
  match round fragment now with
  | Pushed e => Some e
  | Continue | Thrown => None
  end.

(** [matchBlocks]: the pieces of the page between the markers; the loop
    starts at the second piece. *)
Definition fragments (html : string) : list string :=
  tail (JS.split html ("<div class=" +:+ JS.dq +:+ "match-info" +:+ JS.dq +:+ ">")).

(** The loop over the fragments [todo] with [upcoming] as it stands: the
    array when the loop is left, and whether it is left by an exception. *)
Fixpoint scrapeLoop (now : Z) (todo : list string) (upcoming : list Upcoming.t)
    : list Upcoming.t * bool :=
  match todo with
  | [] => (upcoming, false)
  | fragment :: rest =>
      match round fragment now with
      | Continue => scrapeLoop now rest upcoming
      | Pushed e => scrapeLoop now rest (upcoming ++ [e])
      | Thrown => (upcoming, true)
      end
  end.

(** [upcoming] as [fetchUpcoming] returns it for the page [html]: sorted
    where the loop reaches its end, and as the [catch] finds it, with the
    entries pushed so far in the order of the page, where a round throws. *)
Definition scrape (html : string) (now : Z) : list Upcoming.t :=
  if (JS.len html <? 1000)%nat then []
  else
    let (upcoming, thrown) := scrapeLoop now (fragments html) [] in
    if thrown then upcoming
    else sortWith (fun a b => orZero (Upcoming.timestamp a) - orZero (Upcoming.timestamp b))
           upcoming.

(** The text of the page, [data?.parse?.text?.[STAR] || EMPTY], where it is
    a string; [None] where it is a truthy value of another type, on which
    the code ends in its [catch]. *)
Definition pageText (data : JSON) : option string :=
  match member "*" (member "text" (member "parse" (Some data))) with
  | Some (JStr s) => Some s
  | Some v => if truthy v then None else Some ""
  | None => Some ""
  end.

End Scrape.

Definition wikiURL : string :=
  "https://liquipedia.net/dota2/api.php?action=parse&page=Liquipedia:Matches&format=json&prop=text".

(** [fetchUpcoming]: one request, never repeated.  A failure before the
    loop (the request, [JSON.parse], a page text that is no string) ends in
    the [catch] with the list still empty; an exception inside the loop ends
    there with the entries pushed so far, which is the list
    [Scrape.scrape] gives. *)
Definition fetchUpcoming (env : Env) : Net (list Upcoming.t) :=
  catch
    (raw ← httpsGet env wikiURL;
     match JSON_parse env raw with
     | None => throw "SyntaxError"
     | Some data =>
         match Scrape.pageText data with
         | None => mret []
         | Some html => now ← dateNow; mret (Scrape.scrape html now)
         end
     end)
    (fun _ => mret []).

(** ** [server.js]: the full refresh *)

(** The four requests of one element of [teamPromises], as they settle. *)
Record TeamFetched : Type := {
  tf_key : string;
  tf_info : Outcome JSON;
  tf_matches : Outcome (option (list TeamMatch));
  tf_players : Outcome (option (list TeamPlayer.t));
  tf_heroes : Outcome (option (list JSON))
}.

(** The requests of the fan-out, as they settle: those of the teams, and
    [/heroStats], [/live] and [/proPlayers]. *)
Record Fetched : Type := {
  f_teams : list TeamFetched;
  f_heroStats : Outcome (option (list Hero));
  f_live : Outcome (option (list LiveGame));
  f_proPlayers : Outcome (option (list ProPlayer.t))
}.

(** A computation that cannot reject: it runs and gives its value. *)
Definition Run (A : Type) : Type := World -> A * World.

Definition runTeam (env : Env) (team : string * TeamConfig) : Run TeamFetched := fun w =>
  let id := team_id (snd team) in
  let (i, w) := fetchWithRetry env (EpTeam id) w in
  let (m, w) := fetchWithRetry env (EpTeamMatches id) w in
  let (p, w) := fetchWithRetry env (EpTeamPlayers id) w in
  let (h, w) := fetchWithRetry env (EpTeamHeroes id) w in
  ({| tf_key := fst team; tf_info := i; tf_matches := m; tf_players := p; tf_heroes := h |}, w).

Fixpoint runTeams (env : Env) (teams : list (string * TeamConfig)) : Run (list TeamFetched) :=
  fun w =>
  match teams with
  | [] => ([], w)
  | t :: rest =>
      let (x, w) := runTeam env t w in
      let (xs, w) := runTeams env rest w in
      (x :: xs, w)
  end.

(** The fan-out: every promise of the two [Promise.all] is started, the
    team promises first, and runs until it settles.  The embedding runs
    them one after the other in the order they are started; the oracle
    answers every request on its own, so every combination of outcomes is
    covered. *)
Definition fanOut (env : Env) : Run Fetched := fun w =>
  let (ts, w) := runTeams env TEAMS w in
  let (hs, w) := fetchWithRetry env EpHeroStats w in
  let (lv, w) := fetchWithRetry env EpLive w in
  let (pp, w) := fetchWithRetry env EpProPlayers w in
  ({| f_teams := ts; f_heroStats := hs; f_live := lv; f_proPlayers := pp |}, w).

(** [p.catch(() => v)] on a settled promise. *)
Definition orElse {A} (r : Outcome A) (v : A) : Outcome A :=
  match r with
  | Resolved a => Resolved a
  | Rejected _ => Resolved v
  end.

(** [info || {}] *)
Definition orEmptyObject (v : JSON) : JSON := if truthy v then v else JObj [].

(** What a team promise settles to: the inner [Promise.all] of its four
    requests and the object built from their values. *)
Definition teamResultOf (tf : TeamFetched) : Outcome TeamResult :=
  match tf_info tf, tf_matches tf, tf_players tf, tf_heroes tf with
  | Resolved i, Resolved m, Resolved p, Resolved h =>
      Resolved {| key := tf_key tf;
                  info := orEmptyObject i;
                  matches := take 50 (default [] m);
                  players := default [] p;
                  heroes := default [] h |}
  | Rejected msg, _, _, _ => Rejected msg
  | _, Rejected msg, _, _ => Rejected msg
  | _, _, Rejected msg, _ => Rejected msg
  | _, _, _, Rejected msg => Rejected msg
  end.

(** [Promise.all] on settled promises of one type. *)
Fixpoint allSettled {A} (l : list (Outcome A)) : Outcome (list A) :=
  match l with
  | [] => Resolved []
  | Resolved a :: rest =>
      match allSettled rest with
      | Resolved xs => Resolved (a :: xs)
      | Rejected msg => Rejected msg
      end
  | Rejected msg :: _ => Rejected msg
  end.

(** The values the outer [Promise.all] gives to
    [[heroStats, live, proPlayers, ...teamResults]]. *)
Record Gathered : Type := {
  g_heroStats : option (list Hero);
  g_live : option (list LiveGame);
  g_proPlayers : option (list ProPlayer.t);
  g_teamResults : list TeamResult
}.

Definition gather (f : Fetched) : Outcome Gathered :=
  match f_heroStats f, orElse (f_live f) (Some []), orElse (f_proPlayers f) (Some []),
        allSettled (map teamResultOf (f_teams f)) with
  | Resolved hs, Resolved lv, Resolved pp, Resolved ts =>
      Resolved {| g_heroStats := hs; g_live := lv; g_proPlayers := pp; g_teamResults := ts |}
  | Rejected msg, _, _, _ => Rejected msg
  | _, Rejected msg, _, _ => Rejected msg
  | _, _, Rejected msg, _ => Rejected msg
  | _, _, _, Rejected msg => Rejected msg
  end.

(** [heroMap]: the heroes by id. *)
Definition heroMapOf (heroStats : option (list Hero)) : gmap Z Hero :=
  fold_left (fun (m : gmap Z Hero) h => <[id h := h]> m) (default [] heroStats) ∅.

(** [ourIds.has(x)] *)
Definition isOurId (x : JsId) : bool :=
  match x with
  | IdNum n => existsb (fun t => team_id (snd t) =? n) TEAMS
  | _ => false
  end.

(** The live games of the tracked teams. *)
Definition liveMatchesOf (live : option (list LiveGame)) : list LiveGame :=
  List.filter (fun m => isOurId (radiant_team_id m) || isOurId (dire_team_id m))
    (default [] live).

(** The [try] block of [refreshAllData] after the fan-out has settled as
    [f]: the snapshot it assigns to [cachedData], or the error it throws. *)
Definition settleCycle (env : Env) (f : Fetched) : Net Snapshot :=
  g ← ofOutcome (gather f);
  let heroMap := heroMapOf (g_heroStats g) in
  rosters ← buildCurrentRosters env (g_teamResults g) (g_proPlayers g);
  let teams :=
    map (fun t => (key t, {| result := t; roster := default [] (rosters !! key t) |}))
      (g_teamResults g) in
  let liveMatches := liveMatchesOf (g_live g) in
  upcoming ← catch (fetchUpcoming env) (fun _ => mret []);
  now ← dateNow;
  mret {| teams := teams; heroMap := heroMap; liveMatches := liveMatches;
          upcoming := upcoming; teamConfig := TEAMS;
          lastUpdated := now; liveUpdated := None |}.

(** The [try] block of [refreshAllData]. *)
Definition refreshTry (env : Env) : Net Snapshot := fun w =>
  let (f, w1) := fanOut env w in settleCycle env f w1.

Definition setRefreshing (b : bool) (s : Server) : Server :=
  {| cachedData := cachedData s; isRefreshing := b;
     playerHeroCache := playerHeroCache s; imgCache := imgCache s |}.

Definition setCachedData (c : option Snapshot) (s : Server) : Server :=
  {| cachedData := c; isRefreshing := isRefreshing s;
     playerHeroCache := playerHeroCache s; imgCache := imgCache s |}.

(** The head of [refreshAllData]: [if (isRefreshing) return;
    isRefreshing = true].  [None] is the early return. *)
Definition refreshBegin (s : Server) : option Server :=
  if isRefreshing s then None else Some (setRefreshing true s).

(** The end of [refreshAllData]: the assignment to [cachedData], which is
    the last statement of the [try] block that has an effect, the empty
    [catch], and [finally { isRefreshing = false }]. *)
Definition refreshEnd (r : Outcome Snapshot) (s : Server) : Server :=
  setRefreshing false
    match r with
    | Resolved snap => setCachedData (Some snap) s
    | Rejected _ => s
    end.

(** [refreshAllData], run from its call to its end. *)
Definition refreshAllData (env : Env) (s : Server) (w : World) : Server * World :=
  match refreshBegin s with
  | None => (s, w)
  | Some s1 => let (r, w') := refreshTry env w in (refreshEnd r s1, w')
  end.

(** *** Which requests of the fan-out a cycle cannot do without *)

Definition resolved {A} (r : Outcome A) : bool :=
  match r with
  | Resolved _ => true
  | Rejected _ => false
  end.

(** The four requests of a team are answered. *)
Definition teamFetchedOK (tf : TeamFetched) : bool :=
  resolved (tf_info tf) && resolved (tf_matches tf)
  && resolved (tf_players tf) && resolved (tf_heroes tf).

(** The requests without a [catch] of their own are answered: those of
    every team, and [/heroStats]. *)
Definition essentialOK (f : Fetched) : bool :=
  resolved (f_heroStats f) && forallb teamFetchedOK (f_teams f).

(** The fan-out [f] with another outcome of [/live], of [/proPlayers]. *)
Definition withLive (r : Outcome (option (list LiveGame))) (f : Fetched) : Fetched :=
  {| f_teams := f_teams f; f_heroStats := f_heroStats f;
     f_live := r; f_proPlayers := f_proPlayers f |}.

Definition withProPlayers (r : Outcome (option (list ProPlayer.t))) (f : Fetched) : Fetched :=
  {| f_teams := f_teams f; f_heroStats := f_heroStats f;
     f_live := f_live f; f_proPlayers := r |}.

(** ** [server.js]: the live-only refresh *)

(** [cachedData.liveMatches = liveMatches; cachedData.liveUpdated = now],
    under [if (cachedData)]. *)
Definition storeLive (liveMatches : list LiveGame) (now : Z) (s : Server) : Server :=
  match cachedData s with
  | Some snap =>
      setCachedData
        (Some {| teams := teams snap; heroMap := heroMap snap;
                 liveMatches := liveMatches; upcoming := upcoming snap;
                 teamConfig := teamConfig snap; lastUpdated := lastUpdated snap;
                 liveUpdated := Some now |}) s
  | None => s
  end.

Definition refreshLiveOnly (env : Env) (s : Server) (w : World) : Server * World :=
  match catch (fetchWithRetry env EpLive) (fun _ => mret (Some [])) w with
  | (Resolved live, w') => (storeLive (liveMatchesOf live) (clock w') s, w')
  | (Rejected _, w') => (s, w')
  end.

(** ** [server.js]: player heroes *)

(** The filter, cut and map of [getPlayerHeroes]. *)
Definition heroesOf (data : option (list PlayerHero.t)) : list HeroStat.t :=
  map (fun h => {| HeroStat.hero_id := PlayerHero.hero_id h;
                   HeroStat.games := orZero (PlayerHero.games h);
                   HeroStat.win := orZero (PlayerHero.win h) |})
    (take 10 (List.filter (fun h =>
       match PlayerHero.games h with Some g => 0 <? g | None => false end)
       (default [] data))).

Definition HERO_TTL : Z := 30 * 60 * 1000.

(** [cached && Date.now() - cached.timestamp < 30 * 60 * 1000] *)
Definition freshHeroes (now : Z) (cached : option HeroCacheEntry) : option (list HeroStat.t) :=
  match cached with
  | Some c => if now - hc_timestamp c <? HERO_TTL then Some (hc_data c) else None
  | None => None
  end.

Definition setPlayerHeroCache (c : gmap Z HeroCacheEntry) (s : Server) : Server :=
  {| cachedData := cachedData s; isRefreshing := isRefreshing s;
     playerHeroCache := c; imgCache := imgCache s |}.

Definition getPlayerHeroes (env : Env) (accountId : Z) (s : Server) (w : World)
    : Outcome (list HeroStat.t) * Server * World :=
  match freshHeroes (clock w) (playerHeroCache s !! accountId) with
  | Some data => (Resolved data, s, w)
  | None =>
      match fetchWithRetry env (EpPlayerHeroes accountId) w with
      | (Resolved data, w') =>
          let heroes := heroesOf data in
          (Resolved heroes,
           setPlayerHeroCache
             (<[accountId := {| hc_data := heroes; hc_timestamp := clock w' |}]>
                (playerHeroCache s)) s,
           w')
      | (Rejected msg, w') => (Rejected msg, s, w')
      end
  end.

(** ** [server.js]: the image proxy *)

Definition IMG_TTL : Z := 24 * 60 * 60 * 1000.

(** [cached && Date.now() - cached.timestamp < 24 * 60 * 60 * 1000] *)
Definition freshImage (now : Z) (cached : option Image) : option Image :=
  match cached with
  | Some c => if now - img_timestamp c <? IMG_TTL then Some c else None
  | None => None
  end.

Definition setImgCache (c : gmap string Image) (s : Server) : Server :=
  {| cachedData := cachedData s; isRefreshing := isRefreshing s;
     playerHeroCache := playerHeroCache s; imgCache := c |}.

(** A header that is present and not empty. *)
Definition truthyHeader (h : option string) : option string :=
  match h with
  | Some EmptyString => None
  | r => r
  end.

(** [proxyImage].  A redirect is followed by a call of [proxyImage] on the
    [Location]; [hops] bounds the redirects followed, and [None] stands for
    a promise that has not settled after that many. *)
Fixpoint proxyImage (env : Env) (hops : nat) (imageUrl : string) (s : Server) (w : World)
    : option (Outcome Image) * Server * World :=
  match freshImage (clock w) (imgCache s !! imageUrl) with
  | Some cached => (Some (Resolved cached), s, w)
  | None =>
      let w1 := request env (EvImageGet imageUrl) w in
      match image_answer env (requests w) imageUrl with
      | ImgError msg => (Some (Rejected msg), s, w1)
      | ImgResponse statusCode location content_type body =>
          match (300 <=? statusCode) && (statusCode <? 400), truthyHeader location with
          | true, Some loc =>
              match hops with
              | O => (None, s, w1)
              | S hops' => proxyImage env hops' loc s w1
              end
          | _, _ =>
              if negb (statusCode =? 200)
              then (Some (Rejected ("HTTP " +:+ JS.ofZ statusCode)), s, w1)
              else
                match body with
                | Resolved data =>
                    let result :=
                      {| img_data := data;
                         contentType := JS.orStr (default "" content_type) "image/png";
                         img_timestamp := clock w1 |} in
                    (Some (Resolved result),
                     setImgCache (<[imageUrl := result]> (imgCache s)) s, w1)
                | Rejected msg => (Some (Rejected msg), s, w1)
                end
          end
      end
  end.

(** ** [server.js]: the HTTP server *)

(** The body of a response.  A JSON body is kept as the value that
    [JSON.stringify] renders. *)
Inductive Body : Type :=
| BodySnapshot (snap : Snapshot)
| BodyError (error : string)
| BodyHeroes (heroes : list HeroStat.t)
| BodyStatus (status : string)
| BodyText (text : string)
| BodyBytes (data : list Byte.byte).

Record Response : Type := {
  statusCode : Z;
  responseType : option string;
  body : Body
}.

(** What the request handler does with a request: it replies, it hands the
    request to the static file branch ([filePath] is the path before it is
    joined to the directory of the server), or it ends or waits without a
    reply (an exception outside a [try], a promise that does not settle).
    Of the headers of a reply only [Content-Type] is kept. *)
Inductive Reply : Type :=
| Replied (r : Response)
| StaticFile (filePath : string)
| Unanswered.

Definition TRUSTED_PREFIX : string := "https://liquipedia.net/".

(** [url.match(/^\/api\/player\/(\d+)\/heroes$/)]: group 1. *)
Definition playerMatch (url : string) : option string :=
  r ← JS.stripPrefix "/api/player/" url;
  match Scrape.digits r with
  | (String c d, rest) => if String.eqb rest "/heroes" then Some (String c d) else None
  | _ => None
  end.

(** [req.url.split('?url=')[1]] *)
Definition imgUrlOf (reqUrl : string) : option string :=
  nth_error (JS.split reqUrl "?url=") 1.

(** The branch of [/api/img]. *)
Definition serveImage (env : Env) (hops : nat) (reqUrl : string) (s : Server) (w : World)
    : Reply * Server * World :=
  let bad := Replied {| statusCode := 400; responseType := None; body := BodyText "Bad request" |} in
  match imgUrlOf reqUrl with
  | None | Some EmptyString => (bad, s, w)
  | Some imgUrl =>
      match decodeURIComponent env imgUrl with
      | None => (Unanswered, s, w)
      | Some decoded =>
          if negb (JS.startsWith decoded TRUSTED_PREFIX) then (bad, s, w)
          else
            match proxyImage env hops decoded s w with
            | (Some (Resolved img), s', w') =>
                (Replied {| statusCode := 200; responseType := Some (contentType img);
                            body := BodyBytes (img_data img) |}, s', w')
            | (Some (Rejected _), s', w') =>
                (Replied {| statusCode := 502; responseType := None;
                            body := BodyText "Image fetch failed" |}, s', w')
            | (None, s', w') => (Unanswered, s', w')
            end
      end
  end.

(** The branch of [/api/data]. *)
Definition serveData (s : Server) : Response :=
  match cachedData s with
  | Some snap =>
      {| statusCode := 200; responseType := Some "application/json";
         body := BodySnapshot snap |}
  | None =>
      {| statusCode := 503; responseType := Some "application/json";
         body := BodyError "Data is loading..." |}
  end.

(** The request handler, for a request with the URL [reqUrl].  The branch
    of [/api/refresh] calls [refreshAllData] and does not wait for it: the
    state it returns is the one the head of [refreshAllData] leaves. *)
Definition server (env : Env) (hops : nat) (reqUrl : string) (s : Server) (w : World)
    : Reply * Server * World :=
  let url := default "" (head (JS.split reqUrl "?")) in
  if String.eqb url "/api/data" then (Replied (serveData s), s, w)
  else
    match playerMatch url with
    | Some d =>
        match getPlayerHeroes env (JS.parseInt d) s w with
        | (Resolved heroes, s', w') =>
            (Replied {| statusCode := 200; responseType := Some "application/json";
                        body := BodyHeroes heroes |}, s', w')
        | (Rejected msg, s', w') =>
            (Replied {| statusCode := 500; responseType := Some "application/json";
                        body := BodyError msg |}, s', w')
        end
    | None =>
        if String.eqb url "/api/img" then serveImage env hops reqUrl s w
        else if String.eqb url "/api/refresh" then
          (Replied {| statusCode := 200; responseType := Some "application/json";
                      body := BodyStatus "refresh started" |},
           default s (refreshBegin s), w)
        else (StaticFile (if String.eqb url "/" then "/index.html" else url), s, w)
    end.

(** ** The process: events between the await points of a refresh *)

(** The process: its variables, the outside, and the calls of
    [refreshAllData] that are past the guard and not at their end, each
    with the outcome its [try] block is going to have.  The requests of a
    cycle are put on record when the cycle starts; what happens between its
    start and its end (ticks of the timers, HTTP requests) is an action of
    its own, and each of those runs from its call to its end. *)
Record Sys : Type := {
  srv : Server;
  world : World;
  cycles : list (Outcome Snapshot)
}.

Inductive Action : Type :=
| CallRefresh            (* the call at start-up, or a tick of its timer *)
| FinishCycle            (* the oldest cycle in flight reaches its end *)
| LiveTick               (* a tick of the timer of [refreshLiveOnly] *)
| Request (reqUrl : string).

(** A call of [refreshAllData]: nothing when the guard returns, a cycle in
    flight otherwise. *)
Definition startCycle (env : Env) (y : Sys) : Sys :=
  match refreshBegin (srv y) with
  | None => y
  | Some s1 =>
      let (r, w') := refreshTry env (world y) in
      {| srv := s1; world := w'; cycles := cycles y ++ [r] |}
  end.

(** The variables and the outside after one action.  An action does not
    tell here whether the process outlives it: that is [stepLive] below. *)
Definition step (env : Env) (hops : nat) (y : Sys) (a : Action) : Sys :=
  match a with
  | CallRefresh => startCycle env y
  | FinishCycle =>
      match cycles y with
      | [] => y
      | r :: rest => {| srv := refreshEnd r (srv y); world := world y; cycles := rest |}
      end
  | LiveTick =>
      let (s', w') := refreshLiveOnly env (srv y) (world y) in
      {| srv := s'; world := w'; cycles := cycles y |}
  | Request reqUrl =>
      let '(_, s', w') := server env hops reqUrl (srv y) (world y) in
      if negb (isRefreshing (srv y)) && isRefreshing s'
      then
        (* the handler has called [refreshAllData], which is past its guard *)
        let (r, w'') := refreshTry env w' in
        {| srv := s'; world := w''; cycles := cycles y ++ [r] |}
      else {| srv := s'; world := w'; cycles := cycles y |}
  end.

Definition world0 : World := {| requests := 0; clock := 0; trace := [] |}.

(** The process after the module is loaded, before [server.listen] calls
    back. *)
Definition boot : Sys := {| srv := initial; world := world0; cycles := [] |}.

Definition run (env : Env) (hops : nat) (actions : list Action) (y : Sys) : Sys :=
  fold_left (step env hops) actions y.

(** The request on which the handler throws outside every [try]: the route
    is [/api/img], the text after [?url=] is not empty, and
    [decodeURIComponent] throws on it.  The handler is an [async] function,
    so the exception is a rejection nothing handles, and the process ends
    with it. *)
Definition handlerThrows (env : Env) (reqUrl : string) : bool :=
  String.eqb (default "" (head (JS.split reqUrl "?"))) "/api/img" &&
  match imgUrlOf reqUrl with
  | Some (String c u) =>
      match decodeURIComponent env (String c u) with
      | Some _ => false
      | None => true
      end
  | Some EmptyString | None => false
  end.

(** The process with its end: [None] is the process that has ended.  [step]
    and [run] give the state that the variables are in after an action,
    also when the action is the last of the process. *)
Definition stepLive (env : Env) (hops : nat) (y : option Sys) (a : Action) : option Sys :=
  match y with
  | None => None
  | Some y =>
      match a with
      | Request reqUrl =>
          if handlerThrows env reqUrl then None else Some (step env hops y a)
      | CallRefresh | FinishCycle | LiveTick => Some (step env hops y a)
      end
  end.

Definition runLive (env : Env) (hops : nat) (actions : list Action) (y : Sys) : option Sys :=
  fold_left (stepLive env hops) actions (Some y).

(** ** Invariants and notions of the proofs *)

(** What the first loop keeps true of the series it is filling: it has a
    game, and all its games are against its opponent in its league. *)
Definition coherent (cur : App.Draft) : Prop :=
  Forall (fun g => opposing_team_id g = App.d_opponentId cur /\
                   App.leagueOf g = App.d_league cur) (App.d_games cur) /\
  App.d_wins cur = App.wonGames (App.d_games cur) /\
  App.d_losses cur = App.lostGames (App.d_games cur).

(** The games of the series under construction, oldest series first. *)
Definition gamesOf (series : list App.Draft) : list (list TeamMatch) :=
  rev (map App.d_games series).

Definition glue {A} (g : list A) (rs : list (list A)) : list (list A) :=
  match rs with
  | r :: rs' => (g ++ r) :: rs'
  | [] => [g]
  end.

(** The requests [rest] that follow the request number [n], which was for
    [url], are those of a chain of redirects: each is for the [Location] of
    an answer with a status from 300 to 399 to the request before it. *)
Fixpoint redirectChain (env : Env) (n : nat) (url : string) (rest : list Event) : Prop :=
  match rest with
  | [] => True
  | ev :: rest' =>
      exists code loc ct b,
        image_answer env n url = ImgResponse code (Some loc) ct b /\
        300 <= code < 400 /\
        ev = EvImageGet loc /\
        redirectChain env (S n) loc rest'
  end.

(** The variables an operation on the hero cache or the image cache does
    not write. *)
Definition sameRefreshState (s s' : Server) : Prop :=
  cachedData s' = cachedData s /\ isRefreshing s' = isRefreshing s.

(** The flag is up exactly while one cycle is in flight. *)
Definition flagTracksCycle (y : Sys) : Prop :=
  isRefreshing (srv y) = true /\ length (cycles y) = 1%nat \/
  isRefreshing (srv y) = false /\ cycles y = [].

(** ** Concrete inputs for the examples *)

Module Sample.

Definition q : string := JS.dq.

(** A team link with its logo, as the wiki page writes it. *)
Definition teamLink (page title logo : string) : string :=
  "<a href=" +:+ q +:+ "/dota2/" +:+ page +:+ q +:+ " title=" +:+ q +:+ title +:+ q
  +:+ "><img alt=" +:+ q +:+ title +:+ q +:+ " src=" +:+ q +:+ logo +:+ q +:+ "></a>".

Definition timer (digits : string) : string :=
  "<span class=" +:+ q +:+ "timer-object" +:+ q +:+ " data-timestamp=" +:+ q +:+ digits +:+ q
  +:+ "></span>".

(** Xtreme Gaming against Team Spirit, with the timestamp [digits]. *)
Definition fragmentAt (digits : string) : string :=
  teamLink "Xtreme_Gaming" "Xtreme Gaming" "/img/xg_darkmode.png"
  +:+ teamLink "Team_Spirit" "Team Spirit" "/img/ts.png"
  +:+ timer digits +:+ " (Bo3) ".

(** The same fragment without a timestamp. *)
Definition fragmentUntimed : string :=
  teamLink "Xtreme_Gaming" "Xtreme Gaming" "/img/xg_darkmode.png"
  +:+ teamLink "Team_Spirit" "Team Spirit" "/img/ts.png".

(** The document an endpoint answers when the stats API has nothing to
    say: [null]. *)
Definition nullDoc {A} (e : Endpoint A) : A :=
  match e in Endpoint T return T with
  | EpTeam _ => JNull
  | EpTeamMatches _ => None
  | EpTeamPlayers _ => None
  | EpTeamHeroes _ => None
  | EpHeroStats => None
  | EpLive => None
  | EpProPlayers => None
  | EpMatch _ => None
  | EpPlayerHeroes _ => None
  end.

(** An environment in which the stats API rejects every request of the
    endpoints [down] selects and answers [null] to the others; the wiki and
    the image host reject every request; [decodeURIComponent] is the
    identity, which it is on text without a percent sign. *)
Definition envWith (down : string -> bool) : Env :=
  {| API_KEY := "";
     fetchJSON_answer := fun A _ e =>
       if down (path e) then Rejected "Rate limited" else Resolved (nullDoc e);
     httpsGet_answer := fun _ _ => Rejected "HTTP 503";
     image_answer := fun _ _ => ImgError "ECONNREFUSED";
     elapsed := fun _ => 100;
     JSON_parse := fun _ => None;
     decodeURIComponent := fun s => Some s |}.

(** A snapshot without data, and a server that serves it. *)
Definition snapshot : Snapshot :=
  {| teams := []; heroMap := ∅; liveMatches := []; upcoming := [];
     teamConfig := TEAMS; lastUpdated := 1699999000000; liveUpdated := None |}.

Definition serving : Server :=
  {| cachedData := Some snapshot; isRefreshing := false;
     playerHeroCache := ∅; imgCache := ∅ |}.

(** An environment in which the stats API rejects the first [failures]
    requests and answers [null] to the later ones. *)
Definition envFlaky (failures : nat) : Env :=
  {| API_KEY := "";
     fetchJSON_answer := fun A n e =>
       if (n <? failures)%nat then Rejected "Rate limited" else Resolved (nullDoc e);
     httpsGet_answer := fun _ _ => Rejected "HTTP 503";
     image_answer := fun _ _ => ImgError "ECONNREFUSED";
     elapsed := fun _ => 100;
     JSON_parse := fun _ => None;
     decodeURIComponent := fun s => Some s |}.

(** A game of a tracked team on the radiant side. *)
Definition game (n start opp : Z) (won : bool) : TeamMatch :=
  {| match_id := n; radiant := Some true; radiant_win := Some won;
     start_time := Some start; opposing_team_id := IdNum opp;
     opposing_team_name := None; league_name := Some "DreamLeague";
     leagueid := Some 16935 |}.

(** Two games against team 7 little more than an hour apart, both won, and
    an earlier game against team 9, lost. *)
Definition history : list TeamMatch :=
  [game 1 100000 7 true; game 3 50000 9 false; game 2 104000 7 true].

(** A server whose hero cache holds an entry for player 111 written at
    time 1000. *)
Definition heroes111 : list HeroStat.t :=
  [{| HeroStat.hero_id := 14; HeroStat.games := 20; HeroStat.win := 12 |}].

Definition servingHeroes : Server :=
  {| cachedData := None; isRefreshing := false;
     playerHeroCache := {[ 111 := {| hc_data := heroes111; hc_timestamp := 1000 |} ]};
     imgCache := ∅ |}.

Fixpoint spaces (n : nat) : string :=
  match n with
  | O => ""
  | S n' => String " " (spaces n')
  end.

Definition marker : string := "<div class=" +:+ q +:+ "match-info" +:+ q +:+ ">".

(** A page of three fragments: a match in the future, one that started two
    hours ago, and one whose timestamp is 0. *)
Definition page : string :=
  spaces 1000
  +:+ marker +:+ fragmentAt "1700007200"
  +:+ marker +:+ fragmentAt "1699992800"
  +:+ marker +:+ fragmentAt "0".

(** An environment whose stats API answers [null] to everything, whose wiki
    answers a JSON document with [page] as its text, and whose image host
    redirects every request of the trusted host to a mirror. *)
Definition envWiki : Env :=
  {| API_KEY := "secret";
     fetchJSON_answer := fun A _ e => Resolved (nullDoc e);
     httpsGet_answer := fun _ _ => Resolved "(the body)";
     image_answer := fun _ url =>
       if JS.startsWith url TRUSTED_PREFIX
       then ImgResponse 302 (Some "https://mirror.example/logo.png") None (Resolved [])
       else ImgResponse 200 None None (Resolved []);
     elapsed := fun _ => 100;
     JSON_parse := fun _ =>
       Some (JObj [("parse", JObj [("text", JObj [("*", JStr page)])])]);
     decodeURIComponent := fun s => Some s |}.

(** 2023-11-14T22:13:20Z, in milliseconds. *)
Definition scrapeTime : Z := 1700000000000.

End Sample.

(** * More of [server.js] and [app.js] *)

From Stdlib Require Import DecimalPos.

(** ** Notions of the statements *)

(** A text without the character [c]. *)
Fixpoint lacks (c : ascii) (s : string) : bool :=
  match s with
  | EmptyString => true
  | String a s' => negb (Ascii.eqb a c) && lacks c s'
  end.

(** [s] is a run of decimal digits. *)
Fixpoint allDigits (s : string) : bool :=
  match s with
  | EmptyString => true
  | String c s' => JS.isDigit c && allDigits s'
  end.

(** What the first loop of [groupMatchesIntoSeries] keeps true of the times
    of a series: [latestTime] is the start of the game that opened the
    series, and no game of the series starts later. *)
Definition dated (d : App.Draft) : Prop :=
  (exists g rest, App.d_games d = g :: rest /\ App.d_latestTime d = App.startOf g) /\
  Forall (fun g => App.startOf g <= App.d_latestTime d) (App.d_games d).

(** The requests to the stats API among the events of a world: those of
    [fetchJSON].  The request of [httpsGet] to the wiki and the requests of
    its redirects are not among them. *)
Definition isStatsRequest (ev : Event) : bool :=
  match ev with
  | EvFetchJSON _ => true
  | EvHttpsGet _ | EvImageGet _ | EvSleep _ => false
  end.

Definition statsRequests (w : World) : nat :=
  length (List.filter isStatsRequest (trace w)).

(** The shape of a snapshot: the tracked teams in the order of [TEAMS],
    each under its own key and with at most 50 matches, and [TEAMS] as the
    team configuration. *)
Definition shaped (snap : Snapshot) : Prop :=
  map fst (teams snap) = map fst TEAMS /\
  Forall (fun e => key (result (snd e)) = fst e /\
                   (length (matches (result (snd e))) <= 50)%nat) (teams snap) /\
  teamConfig snap = TEAMS.

(** The snapshot in place and those of the cycles in flight have that
    shape. *)
Definition shapedSys (y : Sys) : Prop :=
  (forall snap, cachedData (srv y) = Some snap -> shaped snap) /\
  Forall (fun r => forall snap, r = Resolved snap -> shaped snap) (cycles y).

(** ** [server.js]: the [.env] file *)

Module DotEnv.

Definition newline : string := String (ascii_of_nat 10) EmptyString.

(** [parts.join(sep)] *)
Fixpoint join (sep : string) (parts : list string) : string :=
  match parts with
  | [] => ""
  | [p] => p
  | p :: rest => p +:+ sep +:+ join sep rest
  end.

(** The body of the [forEach]: a line [key=value] sets the variable named
    by the trimmed key to the trimmed value, which is everything after the
    first equals sign; a line without an equals sign, or with nothing
    before it, sets nothing.  [processEnv] is [process.env], on a system
    with case-sensitive names; the assignment to a name that is empty, as
    the trimmed key of a blank key is, sets no variable. *)
Definition loadLine (processEnv : gmap string string) (line : string) : gmap string string :=
  match JS.split line "=" with
  | key :: val =>
      if negb (String.eqb key "") && (0 <? length val)%nat
      then
        if String.eqb (JS.trim key) "" then processEnv
        else <[JS.trim key := JS.trim (join "=" val)]> processEnv
      else processEnv
  | [] => processEnv
  end.

(** The [try] block at the head of the module: [envFile] is the text of
    the file, [None] when it cannot be read (the [catch] is empty). *)
Definition loadEnv (envFile : option string) (processEnv : gmap string string)
    : gmap string string :=
  match envFile with
  | Some text => fold_left loadLine (JS.split text newline) processEnv
  | None => processEnv
  end.

(** [process.env.OPENDOTA_API_KEY || ''] *)
Definition apiKeyOf (processEnv : gmap string string) : string :=
  default "" (processEnv !! "OPENDOTA_API_KEY").

End DotEnv.

(** ** A match with its players *)

Module RosterSample.

(** Two players on the radiant side, one of them anonymous, and one on the
    dire side. *)
Definition matchPlayers : list DetailPlayer.t :=
  [ {| DetailPlayer.account_id := IdNum 111; DetailPlayer.personaname := Some "pub";
       DetailPlayer.player_slot := 0; DetailPlayer.hero_id := 14 |};
    {| DetailPlayer.account_id := IdNull; DetailPlayer.personaname := None;
       DetailPlayer.player_slot := 1; DetailPlayer.hero_id := 2 |};
    {| DetailPlayer.account_id := IdNum 222; DetailPlayer.personaname := Some "other";
       DetailPlayer.player_slot := 128; DetailPlayer.hero_id := 3 |} ].

Definition matchDoc {A} (e : Endpoint A) : A :=
  match e in Endpoint T return T with
  | EpMatch _ => Some {| md_players := Some matchPlayers |}
  | EpTeam _ => JNull
  | EpTeamMatches _ => None
  | EpTeamPlayers _ => None
  | EpTeamHeroes _ => None
  | EpHeroStats => None
  | EpLive => None
  | EpProPlayers => None
  | EpPlayerHeroes _ => None
  end.

(** An environment whose stats API answers every match with those
    players. *)
Definition env : Env :=
  {| API_KEY := "";
     fetchJSON_answer := fun A _ e => Resolved (matchDoc e);
     httpsGet_answer := fun _ _ => Rejected "HTTP 503";
     image_answer := fun _ _ => ImgError "ECONNREFUSED";
     elapsed := fun _ => 100;
     JSON_parse := fun _ => None;
     decodeURIComponent := fun s => Some s |}.

Definition team : TeamResult :=
  {| key := "xg"; info := JNull; matches := [Sample.game 1 100000 7 true];
     players := []; heroes := [] |}.

End RosterSample.

(** A page of three fragments: a match a day ahead, one whose time stamp
    is beyond the range of [Date], and a match two hours ahead. *)
Module ScrapeSample.

Definition page : string :=
  Sample.spaces 1000
  +:+ Sample.marker +:+ Sample.fragmentAt "1700086400"
  +:+ Sample.marker +:+ Sample.fragmentAt "99999999999999"
  +:+ Sample.marker +:+ Sample.fragmentAt "1700007200".

End ScrapeSample.

(** ** [app.js]: the rest of the page *)

Module Page.

(** [String(n).padStart(2, '0')] *)
Definition padStart2 (s : string) : string :=
  match s with
  | EmptyString => "00"
  | String _ EmptyString => "0" +:+ s
  | _ => s
  end.

(** [formatDuration].  [None] is a duration that is absent; [Math.floor]
    of the quotient is the floor division and [%] the remainder with the
    sign of the dividend, on the integers a number holds exactly. *)
Definition formatDuration (sec : option Z) : string :=
  match sec with
  | None => "--"
  | Some n => JS.ofZ (n / 60) +:+ ":" +:+ padStart2 (JS.ofZ (Z.rem n 60))
  end.

(** [relativeTime] at the time [now], in milliseconds, of an instant
    [epoch] in seconds; [None] is an instant that is absent.  The
    difference is kept in milliseconds, so [Math.floor] of a quotient is
    the floor division by 1000 times the divisor; [formatDate] is the
    function of that name, which rests on [toLocaleDateString]. *)
Definition relativeTime (formatDate : Z -> string) (now : Z) (epoch : option Z) : string :=
  match epoch with
  | None => ""
  | Some e =>
      if e =? 0 then ""
      else
        let diff := now - 1000 * e in
        if diff <? 0 then
          let a := - diff in
          if a <? 3600 * 1000 then "in " +:+ JS.ofZ (a / (60 * 1000)) +:+ "m"
          else if a <? 86400 * 1000 then "in " +:+ JS.ofZ (a / (3600 * 1000)) +:+ "h"
          else "in " +:+ JS.ofZ (a / (86400 * 1000)) +:+ "d"
        else if diff <? 60 * 1000 then "just now"
        else if diff <? 3600 * 1000 then JS.ofZ (diff / (60 * 1000)) +:+ "m ago"
        else if diff <? 86400 * 1000 then JS.ofZ (diff / (3600 * 1000)) +:+ "h ago"
        else if diff <? 604800 * 1000 then JS.ofZ (diff / (86400 * 1000)) +:+ "d ago"
        else formatDate e
  end.

(** *** [groupSeriesByLeague] *)

Record League : Type := {
  lg_name : string;
  lg_series : list App.Series;
  lg_latestTime : Z;
  lg_totalW : nat;
  lg_totalL : nat;
  lg_seriesW : nat;
  lg_seriesL : nat
}.

(** The names every object inherits from [Object.prototype]: on the object
    literal [map] the test [!map[key]] fails for them although nothing has
    been stored. *)
Definition inherited (key : string) : bool :=
  existsb (String.eqb key)
    [ "constructor"; "hasOwnProperty"; "isPrototypeOf"; "propertyIsEnumerable";
      "toLocaleString"; "toString"; "valueOf"; "__proto__";
      "__defineGetter__"; "__defineSetter__"; "__lookupGetter__"; "__lookupSetter__" ].

(** [s.league || 'Unknown League'] *)
Definition leagueKey (s : App.Series) : string := JS.orStr (App.league s) "Unknown League".

Definition newLeague (key : string) : League :=
  {| lg_name := key; lg_series := []; lg_latestTime := 0;
     lg_totalW := 0; lg_totalL := 0; lg_seriesW := 0; lg_seriesL := 0 |}.

(** The statements of the loop after [const lg = map[key]]. *)
Definition addSeries (lg : League) (s : App.Series) : League :=
  {| lg_name := lg_name lg;
     lg_series := lg_series lg ++ [s];
     lg_latestTime :=
       if lg_latestTime lg <? App.latestTime s then App.latestTime s else lg_latestTime lg;
     lg_totalW := lg_totalW lg + App.wins s;
     lg_totalL := lg_totalL lg + App.losses s;
     lg_seriesW := if App.seriesWon s then S (lg_seriesW lg) else lg_seriesW lg;
     lg_seriesL := if App.seriesWon s then lg_seriesL lg else S (lg_seriesL lg) |}.

(** The objects of [map] are the elements of [leagues], each under its
    name: the update of [map[key]] is an update of that element, and a key
    that [map] does not hold adds an element at the end. *)
Fixpoint updateLeague (key : string) (s : App.Series) (leagues : list League) : list League :=
  match leagues with
  | [] => [addSeries (newLeague key) s]
  | lg :: rest =>
      if String.eqb (lg_name lg) key then addSeries lg s :: rest
      else lg :: updateLeague key s rest
  end.

(** One round of the loop.  For an inherited name [map[key]] is a value of
    the prototype, which has no [series]: [lg.series.push] throws. *)
Definition leagueStep (leagues : option (list League)) (s : App.Series)
    : option (list League) :=
  match leagues with
  | None => None
  | Some l =>
      if inherited (leagueKey s) then None else Some (updateLeague (leagueKey s) s l)
  end.

(** [groupSeriesByLeague] of the list [series]; [None] is the
    [TypeError]. *)
Definition groupSeriesByLeague (series : list App.Series) : option (list League) :=
  sortWith (fun a b => lg_latestTime b - lg_latestTime a)
    <$> fold_left leagueStep series (Some []).

(** The league of the series [ss] under the name [key], in the words of a
    summary: the totals are sums, [latestTime] is the largest [latestTime]
    of a series and at least 0. *)
Definition summary (key : string) (ss : list App.Series) : League :=
  {| lg_name := key;
     lg_series := ss;
     lg_latestTime := fold_left Z.max (map App.latestTime ss) 0;
     lg_totalW := list_sum (map App.wins ss);
     lg_totalL := list_sum (map App.losses ss);
     lg_seriesW := length (List.filter App.seriesWon ss);
     lg_seriesL := length (List.filter (fun s => negb (App.seriesWon s)) ss) |}.

(** *** [getOngoingTournaments] *)

(** [tournaments[lg].teams[key]] *)
Record TeamRun : Type := {
  tr_series : list App.Series;
  tr_wins : nat;
  tr_losses : nat
}.

Record Tournament : Type := {
  t_name : string;
  t_teams : list (string * TeamRun);
  t_latestTime : Z
}.

(** [s.latestTime > cutoff], where [cutoff] is
    [Date.now() / 1000 - 5 * 86400]: [latestTime] is in seconds and [now] in
    milliseconds, and the comparison is written without the division. *)
Definition recent (now : Z) (s : App.Series) : bool :=
  now - 5 * 86400 * 1000 <? 1000 * App.latestTime s.

(** [s.league || 'Unknown'] *)
Definition tournamentKey (s : App.Series) : string := JS.orStr (App.league s) "Unknown".

Definition newRun : TeamRun := {| tr_series := []; tr_wins := 0; tr_losses := 0 |}.

(** [series.push(s); if (s.seriesWon) wins++; else losses++] *)
Definition pushRun (run : TeamRun) (s : App.Series) : TeamRun :=
  {| tr_series := tr_series run ++ [s];
     tr_wins := if App.seriesWon s then S (tr_wins run) else tr_wins run;
     tr_losses := if App.seriesWon s then tr_losses run else S (tr_losses run) |}.

(** The object [teams] of a tournament as the list of its entries, in the
    order in which the keys were added. *)
Fixpoint updateRun (key : string) (s : App.Series) (teams : list (string * TeamRun))
    : list (string * TeamRun) :=
  match teams with
  | [] => [(key, pushRun newRun s)]
  | (k, run) :: rest =>
      if String.eqb k key then (k, pushRun run s) :: rest
      else (k, run) :: updateRun key s rest
  end.

Definition newTournament (lg : string) : Tournament :=
  {| t_name := lg; t_teams := []; t_latestTime := 0 |}.

(** The statements of the inner loop on the tournament of the series. *)
Definition addToTournament (key : string) (s : App.Series) (t : Tournament) : Tournament :=
  {| t_name := t_name t;
     t_teams := updateRun key s (t_teams t);
     t_latestTime :=
       if t_latestTime t <? App.latestTime s then App.latestTime s else t_latestTime t |}.

(** The object [tournaments] as the list of its values, in the order in
    which the names were added. *)
Fixpoint updateTournament (lg key : string) (s : App.Series) (ts : list Tournament)
    : list Tournament :=
  match ts with
  | [] => [addToTournament key s (newTournament lg)]
  | t :: rest =>
      if String.eqb (t_name t) lg then addToTournament key s t :: rest
      else t :: updateTournament lg key s rest
  end.

(** One round of the inner loop, for the series [s] of the team [key].
    For an inherited league name [tournaments[lg]] is a value of the
    prototype, without [teams], and for an inherited team key
    [teams[key]] is one without [series]: the round throws. *)
Definition tournamentStep (ts : option (list Tournament)) (ks : string * App.Series)
    : option (list Tournament) :=
  match ts with
  | None => None
  | Some l =>
      if inherited (tournamentKey (snd ks)) || inherited (fst ks) then None
      else Some (updateTournament (tournamentKey (snd ks)) (fst ks) (snd ks) l)
  end.

(** The rounds of the two loops, in order: for every team of [teamsData],
    in the order of [Object.entries], the recent series of its matches. *)
Definition recentSeries (now : Z) (teamsData : list (string * TeamEntry))
    : list (string * App.Series) :=
  flat_map (fun e =>
    map (pair (fst e))
      (List.filter (recent now) (App.groupMatchesIntoSeries (matches (result (snd e))))))
    teamsData.

(** A property name that is an array index: the decimal form of an
    integer from 0 to 4294967294. *)
Definition isArrayIndex (k : string) : bool :=
  allDigits k && negb (String.eqb k "")
  && (String.eqb k "0" || negb (JS.startsWith k "0"))
  && (JS.parseInt k <=? 4294967294).

(** [Object.values] of an object whose values were added in the order of
    [l], each under its [name]: the values under array indices come first,
    in ascending order of the index, the others follow in the order in which
    they were added. *)
Definition ownValues {A} (name : A -> string) (l : list A) : list A :=
  sortWith (fun a b => JS.parseInt (name a) - JS.parseInt (name b))
    (List.filter (fun a => isArrayIndex (name a)) l)
  ++ List.filter (fun a => negb (isArrayIndex (name a))) l.

(** [getOngoingTournaments] at the time [now]; [None] is the
    [TypeError]. *)
Definition getOngoingTournaments (now : Z) (teamsData : list (string * TeamEntry))
    : option (list Tournament) :=
  (fun l => sortWith (fun a b => t_latestTime b - t_latestTime a) (ownValues t_name l))
    <$> fold_left tournamentStep (recentSeries now teamsData) (Some []).

(** *** The logos of the upcoming matches *)

(** [proxyUrl] of [renderUpcomingSection]; [encodeURIComponent] is the
    built-in. *)
Definition proxyUrl (encodeURIComponent : string -> string) (url : option string)
    : option string :=
  match url with
  | Some u =>
      if negb (String.eqb u "") && JS.startsWith u "https://liquipedia.net/"
      then Some ("/api/img?url=" +:+ encodeURIComponent u)
      else url
  | None => None
  end.

(** *** Loading and polling *)

(** The values of [lastUpdated] and [lastRenderedHash]: [null], the empty
    string, [undefined], or the time of a snapshot. *)
Inductive Stamp : Type :=
| StampNull
| StampEmpty
| StampUndefined
| StampAt (t : Z).

Definition stampEq (a b : Stamp) : bool :=
  match a, b with
  | StampNull, StampNull | StampEmpty, StampEmpty | StampUndefined, StampUndefined => true
  | StampAt x, StampAt y => x =? y
  | _, _ => false
  end.

(** The variables of the page that the loading code writes. *)
Record Client : Type := {
  teamsData : list (string * TeamEntry);
  c_heroMap : gmap Z Hero;
  c_liveMatches : list LiveGame;
  upcomingMatches : list Upcoming.t;
  c_lastUpdated : Stamp;
  lastRenderedHash : Stamp
}.

Definition client0 : Client :=
  {| teamsData := []; c_heroMap := ∅; c_liveMatches := []; upcomingMatches := [];
     c_lastUpdated := StampNull; lastRenderedHash := StampEmpty |}.

(** The assignments of [fetchData] for a document without the fields of a
    snapshot. *)
Definition cleared (c : Client) : Client :=
  {| teamsData := []; c_heroMap := ∅; c_liveMatches := []; upcomingMatches := [];
     c_lastUpdated := StampUndefined; lastRenderedHash := lastRenderedHash c |}.

(** [fetchData] after [fetch]: [res.json()], the test of [data.error] and
    the assignments.  A body that is no JSON document rejects. *)
Definition readData (b : Body) (c : Client) : Outcome Client :=
  match b with
  | BodySnapshot snap =>
      Resolved {| teamsData := teams snap; c_heroMap := heroMap snap;
                  c_liveMatches := liveMatches snap; upcomingMatches := upcoming snap;
                  c_lastUpdated := StampAt (lastUpdated snap);
                  lastRenderedHash := lastRenderedHash c |}
  | BodyError msg => if String.eqb msg "" then Resolved (cleared c) else Rejected msg
  | BodyHeroes _ | BodyStatus _ => Resolved (cleared c)
  | BodyText _ | BodyBytes _ => Rejected "SyntaxError"
  end.

(** [fetchData] against the server in the state [s]: the request of
    [/api/data] is handled by [server]. *)
Definition fetchData (env : Env) (hops : nat) (s : Server) (w : World) (c : Client)
    : Outcome Client :=
  match fst (fst (server env hops "/api/data" s w)) with
  | Replied r => readData (body r) c
  | StaticFile _ | Unanswered => Rejected "TypeError"
  end.

(** What the page does, in order: the calls of [fetch], of the rendering
    functions and of [setTimeout], and the branch that shows the error; a
    rendering function is on the list when it is called, whether or not it
    runs to its end. *)
Inductive PageEvent : Type :=
| Fetch
| RenderLive
| RenderCurrentView
| RenderTimestamp
| Waiting (ms : Z)
| ShowError.

(** *** Rendering *)

(** The rendering functions with statements that this embedding leaves
    out: the calls of the DOM and the texts handed to them. *)
Inductive Paint : Type :=
| PaintOverview
| PaintDashboard (key : string)
| PaintLive
| PaintTimestamp.

(** What a call finds in the browser: [window.location.hash],
    [Date.now()], whether the document has an element of the class
    [loading-text], and for each rendering function whether the statements
    of it that are left out here run to their end, given the variables of
    the page.  For the two views these include the calls of [setActiveTab]
    that [renderCurrentView] makes around them. *)
Record Browser : Type := {
  location_hash : string;
  b_now : Z;
  hasLoadingText : bool;
  completes : Paint -> Client -> bool
}.

(** [s.replace('#', '')]: the first [#] is removed. *)
Fixpoint dropHash (s : string) : string :=
  match s with
  | EmptyString => EmptyString
  | String c s' => if Ascii.eqb c "#" then s' else String c (dropHash s')
  end.

Definition getCurrentView (b : Browser) : string :=
  JS.orStr (dropHash (location_hash b)) "overview".

(** [teamsData[key]] for a key the object holds. *)
Definition teamEntry (key : string) (teamsData : list (string * TeamEntry))
    : option TeamEntry :=
  snd <$> List.find (fun e => String.eqb (fst e) key) teamsData.

(** The rendering functions, as far as the code that calls them can tell:
    [true] when the function returns, [false] when it throws. *)

Definition renderLive (b : Browser) (c : Client) : bool := completes b PaintLive c.

Definition renderTimestamp (b : Browser) (c : Client) : bool := completes b PaintTimestamp c.

(** [renderOverview] calls [getOngoingTournaments] through
    [renderUpcomingSection], which then reads [TEAMS[key].tag] for every
    team of every tournament: a key that [TEAMS] has no value for
    throws. *)
Definition renderOverview (b : Browser) (c : Client) : bool :=
  match getOngoingTournaments (b_now b) (teamsData c) with
  | Some ongoing =>
      forallb (fun t => forallb (fun e => teamDefined (fst e)) (t_teams t)) ongoing
      && completes b PaintOverview c
  | None => false
  end.

(** [renderTeamDashboard(key)], called with a key for which [TEAMS[key]]
    is truthy.  With an entry of the team it groups the series of its
    matches by league; without one it shows that there is no data or, when
    [teamsData[key]] is a value of the prototype, a dashboard without
    data. *)
Definition renderTeamDashboard (b : Browser) (key : string) (c : Client) : bool :=
  match teamEntry key (teamsData c) with
  | Some t =>
      match groupSeriesByLeague (App.groupMatchesIntoSeries (matches (result t))) with
      | Some _ => completes b (PaintDashboard key) c
      | None => false
      end
  | None => completes b (PaintDashboard key) c
  end.

(** [renderCurrentView]: the variables of the page after it, or [None]
    when it throws, which is before its last statement,
    [lastRenderedHash = lastUpdated].  [TEAMS[hash]] is truthy for the keys
    of [TEAMS] and for the names an object inherits. *)
Definition renderCurrentView (b : Browser) (c : Client) : option Client :=
  let hash := getCurrentView b in
  let shown :=
    if String.eqb hash "overview" then renderOverview b c
    else if teamDefined hash then renderTeamDashboard b hash c
    else renderOverview b c in
  if shown && renderLive b c
  then Some {| teamsData := teamsData c; c_heroMap := c_heroMap c;
               c_liveMatches := c_liveMatches c; upcomingMatches := upcomingMatches c;
               c_lastUpdated := c_lastUpdated c; lastRenderedHash := c_lastUpdated c |}
  else None.

(** One tick of the timer of [startPolling]: the [try] block, whose
    [catch] is empty.  What [fetchData] has assigned stays assigned when a
    rendering function throws after it. *)
Definition pollTick (env : Env) (hops : nat) (s : Server) (w : World) (b : Browser)
    (c : Client) : Client * list PageEvent :=
  let prev := c_lastUpdated c in
  match fetchData env hops s w c with
  | Resolved c' =>
      if negb (renderLive b c') then (c', [Fetch; RenderLive])
      else if negb (stampEq (c_lastUpdated c') prev)
              && negb (stampEq (c_lastUpdated c') (lastRenderedHash c'))
      then (default c' (renderCurrentView b c'), [Fetch; RenderLive; RenderCurrentView])
      else (c', [Fetch; RenderLive; RenderTimestamp])
  | Rejected _ => (c, [Fetch])
  end.

(** The [try] block of [tryLoad]: the variables after it, whether it ran
    to its end (and polling has started), and what it did. *)
Definition loadOnce (env : Env) (hops : nat) (s : Server) (w : World) (b : Browser)
    (c : Client) : Client * bool * list PageEvent :=
  match fetchData env hops s w c with
  | Resolved c' =>
      match renderCurrentView b c' with
      | Some c'' => (c'', true, [Fetch; RenderCurrentView])
      | None => (c', false, [Fetch; RenderCurrentView])
      end
  | Rejected _ => (c, false, [Fetch])
  end.

(** [tryLoad(n)] and the calls it schedules.  [serverAt k] is the server,
    with the outside, and [browserAt k] the browser, as the attempt [k]
    finds them; [left] is [10 - n], so [left = 0] is the failure of the test
    [n < 10].  The [catch] takes an exception of [fetchData] and one of
    [renderCurrentView] alike.  Its first branch writes to the element of
    the class [loading-text] before it calls [setTimeout]: without that
    element the write throws, and nothing is scheduled.  [ShowError] is its
    second branch.  The result tells whether polling has started. *)
Fixpoint tryLoadFrom (env : Env) (hops : nat) (serverAt : nat -> Server * World)
    (browserAt : nat -> Browser) (n left : nat) (c : Client)
    : Client * bool * list PageEvent :=
  match loadOnce env hops (fst (serverAt n)) (snd (serverAt n)) (browserAt n) c with
  | (c', true, events) => (c', true, events)
  | (c', false, events) =>
      match left with
      | O => (c', false, events ++ [ShowError])
      | S left' =>
          if hasLoadingText (browserAt n)
          then
            let '(c'', started, later) :=
              tryLoadFrom env hops serverAt browserAt (S n) left' c' in
            (c'', started, events ++ Waiting 2000 :: later)
          else (c', false, events)
      end
  end.

Definition tryLoad (env : Env) (hops : nat) (serverAt : nat -> Server * World)
    (browserAt : nat -> Browser) (n : nat) : Client -> Client * bool * list PageEvent :=
  tryLoadFrom env hops serverAt browserAt n (10 - n).

(** The variables of the page after [fetchData] has read the snapshot
    [snap]. *)
Definition taken (snap : Snapshot) (c : Client) : Client :=
  {| teamsData := teams snap; c_heroMap := heroMap snap;
     c_liveMatches := liveMatches snap; upcomingMatches := upcoming snap;
     c_lastUpdated := StampAt (lastUpdated snap);
     lastRenderedHash := lastRenderedHash c |}.

(** What the attempt [k] of [tryLoad] does before the [catch]. *)
Definition attemptEvents (serverAt : nat -> Server * World) (k : nat) : list PageEvent :=
  match cachedData (fst (serverAt k)) with
  | Some _ => [Fetch; RenderCurrentView]
  | None => [Fetch]
  end.

(** The attempt [j] of a [tryLoad] that starts with the variables [c]
    does not get to the end of its [try] block. *)
Definition failsAt (serverAt : nat -> Server * World) (browserAt : nat -> Browser)
    (c : Client) (j : nat) : Prop :=
  match cachedData (fst (serverAt j)) with
  | Some snapj => renderCurrentView (browserAt j) (taken snapj c) = None
  | None => True
  end.

(** What [k] failing attempts from the attempt [n] on do, with the wait
    after each. *)
Definition waits (serverAt : nat -> Server * World) (n k : nat) : list PageEvent :=
  flat_map (fun j => attemptEvents serverAt j ++ [Waiting 2000]) (seq n k).

(** A browser on the overview, with a document that has every element the
    page looks for. *)
Definition plainBrowser (now : Z) : Browser :=
  {| location_hash := ""; b_now := now; hasLoadingText := true;
     completes := fun _ _ => true |}.

(** A logo of the trusted host, the text [encodeURIComponent] makes of it,
    and an environment whose [decodeURIComponent] reads that text back. *)
Definition sampleLogo : string := "https://liquipedia.net/img/xg.png".

Definition sampleEncode (u : string) : string :=
  if String.eqb u sampleLogo then "https%3A%2F%2Fliquipedia.net%2Fimg%2Fxg.png" else u.

Definition sampleEnv : Env :=
  {| API_KEY := "";
     fetchJSON_answer := fun A _ e => Resolved (Sample.nullDoc e);
     httpsGet_answer := fun _ _ => Rejected "HTTP 503";
     image_answer := fun _ _ => ImgError "ECONNREFUSED";
     elapsed := fun _ => 100;
     JSON_parse := fun _ => None;
     decodeURIComponent := fun t =>
       Some (if String.eqb t (sampleEncode sampleLogo) then sampleLogo else t) |}.

(** A snapshot in which the one match of Xtreme Gaming, played some
    hours before 2023-11-14T22:13:20Z, is of a league with the name
    [toString], and a server that serves it. *)
Definition oddSnapshot : Snapshot :=
  {| teams :=
       [("xg",
         {| result :=
              {| key := "xg"; info := JNull;
                 matches :=
                   [{| match_id := 1; radiant := Some true; radiant_win := Some true;
                       start_time := Some 1699990000; opposing_team_id := IdNum 7;
                       opposing_team_name := None; league_name := Some "toString";
                       leagueid := Some 1 |}];
                 players := []; heroes := [] |};
            roster := [] |})];
     heroMap := ∅; liveMatches := []; upcoming := [];
     teamConfig := TEAMS; lastUpdated := 1699999500000; liveUpdated := None |}.

Definition oddServing : Server :=
  {| cachedData := Some oddSnapshot; isRefreshing := false;
     playerHeroCache := ∅; imgCache := ∅ |}.

End Page.

(** * Properties *)

(** ** Sorting *)

Section SortFacts.
Context {A : Type} (cmp : A -> A -> Z) (key : A -> Z).
Hypothesis cmp_key : forall a b, cmp a b <= 0 <-> key a <= key b.

Lemma insertSorted_perm (x : A) (l : list A) :
  Permutation (insertSorted cmp x l) (x :: l).
Proof.
  induction l as [|y l IH]; simpl; [reflexivity|].
  destruct (cmp x y <=? 0); [reflexivity|].
  rewrite IH. apply perm_swap.
Qed.

Lemma sortWith_perm (l : list A) : Permutation (sortWith cmp l) l.
Proof.
  induction l as [|x l IH]; simpl; [reflexivity|].
  rewrite insertSorted_perm. now constructor.
Qed.

Lemma insertSorted_sorted (x : A) (l : list A) :
  StronglySorted (fun a b => key a <= key b) l ->
  StronglySorted (fun a b => key a <= key b) (insertSorted cmp x l).
Proof.
  induction 1 as [|y l Hs IH Hall]; simpl.
  - repeat constructor.
  - destruct (Z.leb_spec (cmp x y) 0) as [Hle|Hgt].
    + apply cmp_key in Hle.
      constructor; [now constructor|].
      constructor; [lia|].
      eapply Forall_impl; [exact Hall|]. simpl. intros; lia.
    + assert (key y <= key x) by (destruct (Z.le_gt_cases (key x) (key y)) as [H|H];
        [apply cmp_key in H; lia | lia]).
      constructor; [exact IH|].
      rewrite insertSorted_perm. constructor; [lia|exact Hall].
Qed.

Lemma sortWith_sorted (l : list A) :
  StronglySorted (fun a b => key a <= key b) (sortWith cmp l).
Proof.
  induction l as [|x l IH]; simpl; [constructor|].
  now apply insertSorted_sorted.
Qed.

End SortFacts.


(** ** The rounds of the string loops are enough *)

Lemma stripPrefix_length (p s r : string) :
  JS.stripPrefix p s = Some r ->
  String.length s = (String.length p + String.length r)%nat.
Proof.
  revert s. induction p as [|b p IH]; intros s; simpl.
  - now intros [= ->].
  - destruct s as [|a s]; [discriminate|].
    destruct (Ascii.eqb a b); [|discriminate].
    intros H. simpl. now rewrite (IH _ H).
Qed.

Lemma breakOn_length (sep s b r : string) :
  JS.breakOn sep s = Some (b, r) ->
  String.length s = (String.length b + String.length sep + String.length r)%nat.
Proof.
  revert b. induction s as [|a s IH]; intros b; simpl.
  - destruct (JS.stripPrefix sep "") as [rest|] eqn:E; [|discriminate].
    intros [= <- <-]. apply stripPrefix_length in E. simpl in *. lia.
  - destruct (JS.stripPrefix sep (String a s)) as [rest|] eqn:E.
    + intros [= <- <-]. apply stripPrefix_length in E. simpl in *. lia.
    + destruct (JS.breakOn sep s) as [[b' r']|]; [|discriminate].
      intros [= <- <-]. simpl. rewrite (IH b' eq_refl). lia.
Qed.

(** [split] does not run out of rounds: more rounds give the same pieces. *)
Lemma split_rounds_enough (sep : string) :
  (0 < String.length sep)%nat ->
  forall n m s, (String.length s <= n)%nat -> (String.length s <= m)%nat ->
  JS.split_rounds n sep s = JS.split_rounds m sep s.
Proof.
  intros Hsep.
  assert (Hempty : forall k, JS.split_rounds k sep "" = [""]).
  { intros [|k]; cbn [JS.split_rounds]; [reflexivity|].
    destruct (JS.breakOn sep "") as [[b r]|] eqn:E; [|reflexivity].
    apply breakOn_length in E. simpl in E. lia. }
  induction n as [|n IH]; intros m s Hn Hm.
  - destruct s; [|simpl in Hn; lia]. now rewrite !Hempty.
  - destruct m as [|m].
    + destruct s; [|simpl in Hm; lia]. now rewrite !Hempty.
    + cbn [JS.split_rounds].
      destruct (JS.breakOn sep s) as [[b r]|] eqn:E; [|reflexivity].
      apply breakOn_length in E. f_equal. apply IH; lia.
Qed.

Lemma upToQuote_length (s run rest : string) :
  Scrape.upToQuote s = Some (run, rest) ->
  String.length s = (String.length run + 1 + String.length rest)%nat.
Proof.
  revert run. induction s as [|c s IH]; intros run; simpl; [discriminate|].
  destruct (Ascii.eqb c Scrape.dqc).
  - intros [= <- <-]. simpl. lia.
  - destruct (Scrape.upToQuote s) as [[run' rest']|]; [|discriminate].
    intros [= <- <-]. simpl. rewrite (IH run' eq_refl). lia.
Qed.

Lemma quoted_length (s run rest : string) :
  Scrape.quoted s = Some (run, rest) ->
  (String.length rest < String.length s)%nat.
Proof.
  unfold Scrape.quoted.
  destruct (Scrape.upToQuote s) as [[[|c r] rest']|] eqn:E; try discriminate.
  intros [= <- <-]. apply upToQuote_length in E. lia.
Qed.

Lemma trimStart_length (s : string) :
  (String.length (JS.trimStart s) <= String.length s)%nat.
Proof.
  induction s as [|c s IH]; simpl; [lia|].
  destruct (JS.isSpace c); simpl; lia.
Qed.

Lemma afterGt_length (s r : string) :
  Scrape.afterGt s = Some r -> (String.length r < String.length s)%nat.
Proof.
  revert r. induction s as [|c s IH]; intros r; simpl; [discriminate|].
  destruct (Ascii.eqb c ">").
  - intros [= <-]. lia.
  - intros H. apply IH in H. lia.
Qed.

Lemma srcHere_length (s g r : string) :
  Scrape.srcHere s = Some (g, r) -> (String.length r < String.length s)%nat.
Proof.
  unfold Scrape.srcHere.
  destruct (JS.stripPrefix _ s) as [t|] eqn:E; [|discriminate].
  intros H. apply quoted_length in H. apply stripPrefix_length in E. lia.
Qed.

Lemma greedySrc_length (s g r : string) :
  Scrape.greedySrc s = Some (g, r) -> (String.length r < String.length s)%nat.
Proof.
  revert g r. induction s as [|c s IH]; intros g r; [discriminate|].
  cbn [Scrape.greedySrc]. destruct (Ascii.eqb c ">"); [discriminate|].
  destruct (Scrape.greedySrc s) as [[g' r']|].
  - intros [= <- <-]. specialize (IH g' r' eq_refl). simpl. lia.
  - apply srcHere_length.
Qed.

(** A match of [teamImgRe] consumes a character. *)
Lemma teamImgAt_length (s title src rest : string) :
  Scrape.teamImgAt s = Some (title, src, rest) ->
  (String.length rest < String.length s)%nat.
Proof.
  unfold Scrape.teamImgAt, mbind, option_bind. intros H.
  destruct (JS.stripPrefix _ s) as [r1|] eqn:E1; [|discriminate].
  destruct (Scrape.quoted r1) as [[g1 r2]|] eqn:E2; [|discriminate].
  destruct (Scrape.spaces1 r2) as [r3|] eqn:E3; [|discriminate].
  destruct (JS.stripPrefix _ r3) as [r4|] eqn:E4; [|discriminate].
  destruct (Scrape.quoted r4) as [[g2 r5]|] eqn:E5; [|discriminate].
  destruct (Scrape.afterGt r5) as [r6|] eqn:E6; [|discriminate].
  destruct (JS.stripPrefix "<img" (JS.trimStart r6)) as [r7|] eqn:E7; [|discriminate].
  destruct (Scrape.imgSrc r7) as [[g3 r8]|] eqn:E8; [|discriminate].
  injection H as <- <- <-.
  apply stripPrefix_length in E1, E4, E7. apply quoted_length in E2, E5.
  apply afterGt_length in E6. pose proof (trimStart_length r6).
  assert (String.length r3 <= String.length r2)%nat.
  { unfold Scrape.spaces1 in E3. destruct r2 as [|c r2]; [discriminate|].
    destruct (JS.isSpace c); [|discriminate]. injection E3 as <-.
    pose proof (trimStart_length r2). simpl. lia. }
  assert (String.length r8 < String.length r7)%nat.
  { unfold Scrape.imgSrc in E8. destruct r7 as [|c r7]; [discriminate|].
    destruct (Ascii.eqb c ">"); [discriminate|].
    apply greedySrc_length in E8. simpl. lia. }
  lia.
Qed.

(** The loop over the matches of [teamImgRe] does not run out of rounds. *)
Lemma execAll_enough :
  forall n m s, (String.length s <= n)%nat -> (String.length s <= m)%nat ->
  Scrape.execAll n s = Scrape.execAll m s.
Proof.
  induction n as [|n IH]; intros m s Hn Hm.
  - destruct s; [|simpl in Hn; lia]. now destruct m.
  - destruct m as [|m]; [destruct s; [reflexivity | simpl in Hm; lia]|].
    destruct s as [|c s]; [reflexivity|]. cbn [Scrape.execAll].
    destruct (Scrape.teamImgAt (String c s)) as [[[title src] rest]|] eqn:E.
    + apply teamImgAt_length in E. f_equal. apply IH; simpl in *; lia.
    + apply IH; simpl in *; lia.
Qed.

(** ** C8: series grouping *)

Lemma strictEq_eq (a b : JsId) : strictEq a b = true <-> a = b.
Proof.
  destruct a, b; simpl; split; intros H; try congruence; try discriminate.
  - f_equal. now apply Z.eqb_eq.
  - injection H as ->. apply Z.eqb_refl.
Qed.

Lemma last_some_app {A} (g : list A) (p : A) :
  List.last (map Some (g ++ [p])) None = Some p.
Proof.
  rewrite map_app. simpl. apply last_last.
Qed.

Lemma coherent_open (m : TeamMatch) : coherent (App.openSeries m).
Proof.
  unfold coherent, App.wonGames, App.lostGames. simpl.
  split; [repeat constructor|].
  destruct (App.didWin m) eqn:E; simpl; rewrite ?E; simpl; auto.
Qed.

Lemma filter_length_snoc (P : TeamMatch -> bool) (l : list TeamMatch) (m : TeamMatch) :
  length (List.filter P (l ++ [m])) =
  (length (List.filter P l) + if P m then 1 else 0)%nat.
Proof.
  rewrite List.filter_app, length_app. f_equal.
  simpl. now destruct (P m).
Qed.

Lemma coherent_push (cur : App.Draft) (m : TeamMatch) :
  coherent cur ->
  opposing_team_id m = App.d_opponentId cur ->
  App.leagueOf m = App.d_league cur ->
  coherent (App.pushGame cur m).
Proof.
  intros (Hall & Hw & Hl) Ho Hg. unfold coherent, App.wonGames, App.lostGames in *.
  simpl. split; [|split].
  - apply Forall_app. split; [exact Hall|]. repeat constructor; assumption.
  - rewrite filter_length_snoc, <- Hw. destruct (App.didWin m); simpl; lia.
  - rewrite filter_length_snoc, <- Hl. destruct (App.didWin m); simpl; lia.
Qed.

Lemma joins_sameSeries (cur : App.Draft) (g : list TeamMatch) (p m : TeamMatch) :
  coherent cur -> App.d_games cur = g ++ [p] ->
  App.joins cur m = App.sameSeries p m.
Proof.
  intros (Hall & _) Hg. unfold App.joins, App.sameSeries, App.lastTime.
  rewrite Hg in Hall |- *. rewrite last_some_app.
  apply Forall_app in Hall as [_ Hp]. inversion Hp as [|? ? [Ho Hl] _]; subst.
  rewrite Ho, Hl, length_app. simpl.
  replace (0 <? length g + 1)%nat with true by (symmetry; apply Nat.ltb_lt; lia).
  now rewrite andb_true_r.
Qed.

Lemma glue_consHead {A} (g : list A) (p : A) (rs : list (list A)) :
  rs <> [] -> glue g (App.consHead p rs) = glue (g ++ [p]) rs.
Proof.
  destruct rs as [|r rs]; [congruence|]. intros _. simpl.
  now rewrite <- app_assoc.
Qed.

Lemma runsFrom_nonempty {A} (same : A -> A -> bool) (p : A) (l : list A) :
  App.runsFrom same p l <> [].
Proof.
  destruct l as [|m l]; simpl; [congruence|].
  destruct (same p m); [|congruence].
  destruct (App.runsFrom same m l); simpl; congruence.
Qed.

Lemma groupLoop_runs (l : list TeamMatch) :
  forall (cur : App.Draft) (rest : list App.Draft) (g : list TeamMatch) (p : TeamMatch),
  coherent cur -> App.d_games cur = g ++ [p] ->
  gamesOf (fold_left App.groupStep l (cur :: rest)) =
  gamesOf rest ++ glue g (App.runsFrom App.sameSeries p l).
Proof.
  induction l as [|m l IH]; intros cur rest g p Hc Hg.
  - simpl. unfold gamesOf. simpl. now rewrite Hg.
  - cbn [fold_left App.groupStep].
    rewrite (joins_sameSeries cur g p m Hc Hg). cbn [App.runsFrom].
    destruct (App.sameSeries p m) eqn:Hs.
    + rewrite (IH (App.pushGame cur m) rest (g ++ [p]) m).
      * rewrite glue_consHead; [reflexivity | apply runsFrom_nonempty].
      * unfold App.sameSeries in Hs.
        apply andb_prop in Hs as [Hs _]. apply andb_prop in Hs as [Ho Hl].
        apply strictEq_eq in Ho. apply String.eqb_eq in Hl.
        pose proof Hc as (Hall & _ & _). rewrite Hg in Hall.
        apply Forall_app in Hall as [_ Hp]. inversion Hp as [|? ? [Ho' Hl'] _]; subst.
        apply coherent_push; [exact Hc | congruence | congruence].
      * simpl. now rewrite Hg.
    + rewrite (IH (App.openSeries m) (cur :: rest) [] m (coherent_open m) eq_refl).
      unfold gamesOf. simpl. rewrite Hg, <- app_assoc.
      pose proof (runsFrom_nonempty App.sameSeries m l) as Hne.
      destruct (App.runsFrom App.sameSeries m l); [congruence | reflexivity].
Qed.

Lemma groupDrafts_runs (matches : list TeamMatch) :
  map App.d_games (App.groupDrafts matches) =
  App.adjacentRuns App.sameSeries
    (sortWith (fun a b => App.startOf b - App.startOf a) matches).
Proof.
  unfold App.groupDrafts.
  destruct (sortWith _ matches) as [|p l]; [reflexivity|].
  simpl fold_left. rewrite map_rev.
  change (rev (map App.d_games ?x)) with (gamesOf x).
  rewrite (groupLoop_runs l (App.openSeries p) [] [] p (coherent_open p) eq_refl).
  simpl. destruct (App.runsFrom App.sameSeries p l) eqn:E; [|reflexivity].
  now apply runsFrom_nonempty in E.
Qed.

Lemma consHead_concat {A} (p : A) (rs : list (list A)) :
  rs <> [] -> concat (App.consHead p rs) = p :: concat rs.
Proof. destruct rs; [congruence | reflexivity]. Qed.

Lemma runsFrom_concat {A} (same : A -> A -> bool) (l : list A) :
  forall p, concat (App.runsFrom same p l) = p :: l.
Proof.
  induction l as [|m l IH]; intros p; simpl; [reflexivity|].
  destruct (same p m).
  - rewrite consHead_concat by apply runsFrom_nonempty. now rewrite IH.
  - simpl. now rewrite IH.
Qed.

(** The first run of [runsFrom same p l] starts with [p]. *)
Lemma runsFrom_head {A} (same : A -> A -> bool) (l : list A) (p : A) :
  exists r rs, App.runsFrom same p l = (p :: r) :: rs.
Proof.
  destruct l as [|m l]; simpl; [now exists [], []|].
  destruct (same p m); [|eauto].
  destruct (App.runsFrom same m l) as [|r rs]; simpl; eauto.
Qed.

Lemma runsFrom_chain {A} (same : A -> A -> bool) (l : list A) :
  forall p, Forall (fun r => r <> [] /\ App.chain same r = true) (App.runsFrom same p l).
Proof.
  induction l as [|m l IH]; intros p; simpl.
  - repeat constructor. congruence.
  - specialize (IH m). destruct (runsFrom_head same l m) as (r & rs & E).
    rewrite E in IH |- *. inversion IH as [|? ? [_ Hc] Hrs]; subst.
    destruct (same p m) eqn:Hs; simpl.
    + constructor; [|exact Hrs]. split; [congruence|].
      cbn [App.chain] in *. now rewrite Hs.
    + constructor; [split; [congruence | reflexivity]|]. exact IH.
Qed.

Lemma runsFrom_cuts {A} (same : A -> A -> bool) (l : list A) :
  forall p, App.cuts same (App.runsFrom same p l) = true.
Proof.
  induction l as [|m l IH]; intros p; [reflexivity|].
  cbn [App.runsFrom]. specialize (IH m).
  destruct (runsFrom_head same l m) as (r & rs & E). rewrite E in IH |- *.
  destruct (same p m) eqn:Hs.
  - cbn [App.consHead]. destruct rs as [|r2 rs]; [reflexivity|].
    cbn [App.cuts] in IH |- *.
    change (map Some (p :: m :: r)) with (Some p :: map Some (m :: r)).
    remember (map Some (m :: r)) as mr eqn:Emr.
    assert (Hl : List.last (Some p :: mr) None = List.last mr None)
      by (subst mr; reflexivity).
    rewrite Hl. exact IH.
  - change (App.cuts same ([p] :: (m :: r) :: rs))
      with (negb (same p m) && App.cuts same ((m :: r) :: rs)).
    now rewrite IH, Hs.
Qed.

Lemma filter_length_perm {A} (P : A -> bool) (l l' : list A) :
  Permutation l l' -> length (List.filter P l) = length (List.filter P l').
Proof.
  induction 1 as [| x l l' _ IH | x y l | l l' l'' _ IH1 _ IH2]; simpl.
  - reflexivity.
  - destruct (P x); simpl; congruence.
  - destruct (P x), (P y); reflexivity.
  - congruence.
Qed.

Lemma won_lost_total (l : list TeamMatch) :
  (App.wonGames l + App.lostGames l = length l)%nat.
Proof.
  unfold App.wonGames, App.lostGames.
  induction l as [|m l IH]; simpl; [reflexivity|].
  destruct (App.didWin m); simpl; lia.
Qed.

Lemma groupStep_coherent (series : list App.Draft) (m : TeamMatch) :
  Forall coherent series -> Forall coherent (App.groupStep series m).
Proof.
  intros H. unfold App.groupStep. destruct series as [|cur rest].
  - constructor; [apply coherent_open | constructor].
  - destruct (App.joins cur m) eqn:Hj.
    + inversion H as [|? ? Hc Hr]; subst. constructor; [|exact Hr].
      unfold App.joins in Hj.
      apply andb_prop in Hj as [Hj _]. apply andb_prop in Hj as [Hj _].
      apply andb_prop in Hj as [Ho Hl].
      apply strictEq_eq in Ho. apply String.eqb_eq in Hl.
      apply coherent_push; [exact Hc | congruence | congruence].
    + constructor; [apply coherent_open | exact H].
Qed.

Lemma groupLoop_coherent (l : list TeamMatch) :
  forall series, Forall coherent series ->
  Forall coherent (fold_left App.groupStep l series).
Proof.
  induction l as [|m l IH]; intros series H; simpl; [exact H|].
  apply IH. now apply groupStep_coherent.
Qed.

Lemma groupDrafts_coherent (matches : list TeamMatch) :
  Forall coherent (App.groupDrafts matches).
Proof.
  unfold App.groupDrafts. apply Forall_rev.
  apply groupLoop_coherent. constructor.
Qed.

Lemma StronglySorted_weaken {A} (R R' : A -> A -> Prop) (l : list A) :
  (forall a b, R a b -> R' a b) -> StronglySorted R l -> StronglySorted R' l.
Proof.
  intros HR. induction 1 as [|x l _ IH Hall]; constructor; [exact IH|].
  eapply Forall_impl; [exact Hall|]. auto.
Qed.

(** C8: [groupMatchesIntoSeries] sorts the matches by start time, newest
    first (a stable sort, so a permutation in descending order), and cuts the
    sorted list into maximal runs of neighbours that have the same opposing
    team id, the same league name and start less than six hours (21600 s)
    apart: the runs, each put back in ascending order, are the [games] of the
    series, in order.  For every series returned, [wins] and [losses] count
    its won and lost games, and [boType] is "BO1" for one game, "BO3" when
    the larger of wins and losses is 2 in at most 3 games, "BO5" when it is
    3 in at most 5 games, and the number of games followed by "G"
    otherwise. *)
Theorem C8_series_grouping (matches : list TeamMatch) :
  let sorted := sortWith (fun a b => App.startOf b - App.startOf a) matches in
  let series := App.groupMatchesIntoSeries matches in
  Permutation sorted matches /\
  StronglySorted (fun a b => App.startOf b <= App.startOf a) sorted /\
  (exists runs : list (list TeamMatch),
      concat runs = sorted /\
      Forall (fun r => r <> [] /\ App.chain App.sameSeries r = true) runs /\
      App.cuts App.sameSeries runs = true /\
      map App.games series =
      map (sortWith (fun a b => App.startOf a - App.startOf b)) runs) /\
  Forall (fun s =>
    let total := length (App.games s) in
    let larger := Nat.max (App.wins s) (App.losses s) in
    App.wins s = App.wonGames (App.games s) /\
    App.losses s = App.lostGames (App.games s) /\
    (total = 1%nat -> App.boType s = "BO1") /\
    (larger = 2%nat /\ (total <= 3)%nat -> App.boType s = "BO3") /\
    (larger = 3%nat /\ (total <= 5)%nat -> App.boType s = "BO5") /\
    (total <> 1%nat -> ~ (larger = 2%nat /\ (total <= 3)%nat) ->
     ~ (larger = 3%nat /\ (total <= 5)%nat) ->
     App.boType s = (JS.ofNat total ++ "G")%string)) series.
Proof.
  intros sorted series. split; [|split; [|split]].
  - apply sortWith_perm.
  - eapply StronglySorted_weaken;
      [| apply (sortWith_sorted _ (fun a => - App.startOf a)); intros; lia].
    simpl. intros; lia.
  - exists (App.adjacentRuns App.sameSeries sorted).
    pose proof (groupDrafts_runs matches) as Hruns. fold sorted in Hruns.
    destruct sorted as [|p l] eqn:Es.
    + repeat split; try constructor.
      unfold series, App.groupMatchesIntoSeries.
      rewrite map_map. simpl in Hruns |- *.
      apply map_eq_nil in Hruns. now rewrite Hruns.
    + cbn [App.adjacentRuns] in *. split; [apply runsFrom_concat|].
      split; [apply runsFrom_chain|]. split; [apply runsFrom_cuts|].
      unfold series, App.groupMatchesIntoSeries.
      rewrite map_map. rewrite <- Hruns, map_map. reflexivity.
  - unfold series, App.groupMatchesIntoSeries.
    apply Forall_map. eapply Forall_impl; [apply groupDrafts_coherent|].
    intros d (_ & Hw & Hl). cbn zeta.
    set (asc := sortWith (fun a b => App.startOf a - App.startOf b) (App.d_games d)).
    assert (Hp : Permutation asc (App.d_games d)) by apply sortWith_perm.
    assert (Hlen : length asc = length (App.d_games d)) by now apply Permutation_length.
    pose proof (won_lost_total (App.d_games d)) as Htot.
    cbn [App.finish App.games App.wins App.losses App.boType]. fold asc.
    rewrite Hlen.
    split; [rewrite Hw; unfold App.wonGames; symmetry; now apply filter_length_perm|].
    split; [rewrite Hl; unfold App.lostGames; symmetry; now apply filter_length_perm|].
    unfold App.boLabel.
    repeat split.
    + intros H1. now rewrite H1.
    + intros [H2 H3].
      destruct (Nat.eqb_spec (length (App.d_games d)) 1) as [E|_]; [lia|].
      rewrite H2. apply Nat.leb_le in H3. now rewrite H3.
    + intros [H2 H3].
      destruct (Nat.eqb_spec (length (App.d_games d)) 1) as [E|_]; [lia|].
      rewrite H2. apply Nat.leb_le in H3. now rewrite H3.
    + intros H1 H2 H3.
      destruct (Nat.eqb_spec (length (App.d_games d)) 1) as [E|_]; [contradiction|].
      destruct (Nat.eqb_spec (Nat.max (App.d_wins d) (App.d_losses d)) 2) as [E2|_].
      * destruct (Nat.leb_spec (length (App.d_games d)) 3) as [E3|_]; [tauto|].
        simpl. rewrite E2. reflexivity.
      * simpl.
        destruct (Nat.eqb_spec (Nat.max (App.d_wins d) (App.d_losses d)) 3) as [E3|_];
          [|reflexivity].
        destruct (Nat.leb_spec (length (App.d_games d)) 5) as [E5|_]; [tauto|reflexivity].
Qed.

Example groupMatchesIntoSeries_sample :
  map (fun s => (App.opponentId s, map match_id (App.games s), App.wins s, App.losses s,
                 App.boType s, App.seriesWon s))
      (App.groupMatchesIntoSeries Sample.history) =
  [ (IdNum 7, [1; 2], 2%nat, 0%nat, "BO3", true);
    (IdNum 9, [3], 0%nat, 1%nat, "BO1", false) ].
Proof. reflexivity. Qed.

(** The claim at work: the first series of the sample history is the two
    games against team 7, and its label is the one of the claim. *)
Lemma C8_witness_sample_history :
  exists s rest,
    App.groupMatchesIntoSeries Sample.history = s :: rest /\
    map match_id (App.games s) = [1; 2] /\
    App.boType s = "BO3".
Proof.
  destruct (C8_series_grouping Sample.history) as (_ & _ & _ & H).
  destruct (App.groupMatchesIntoSeries Sample.history) as [|s rest] eqn:E;
    [discriminate E|].
  exists s, rest. split; [reflexivity|].
  apply Forall_inv in H. cbn zeta in H. destruct H as (_ & _ & _ & H3 & _).
  injection E as <- _.
  split; [reflexivity|]. apply H3. vm_compute. split; [reflexivity | lia].
Defined.

(** ** C4: retries of the stats API, none for the wiki *)

Lemma request_trace (env : Env) (ev : Event) (w : World) :
  trace (request env ev w) = trace w ++ [ev] /\
  requests (request env ev w) = S (requests w).
Proof. split; reflexivity. Qed.

(** What one round of the retry loop does when its request is answered. *)
Lemma retryFrom_resolved (env : Env) {A} (e : Endpoint A) (i left : nat) (w : World) (x : A) :
  fetchJSON_answer env A (requests w) e = Resolved x ->
  retryFrom env e i left w =
  (Resolved x, request env (EvFetchJSON (fetchURL env (path e))) w).
Proof.
  intros H. destruct left; simpl; unfold catch, fetchJSON; now rewrite H.
Qed.

Lemma retryFrom_last (env : Env) {A} (e : Endpoint A) (i : nat) (w : World) :
  retryFrom env e i 0 w =
  (fetchJSON_answer env A (requests w) e,
   request env (EvFetchJSON (fetchURL env (path e))) w).
Proof.
  simpl. unfold catch, fetchJSON.
  now destruct (fetchJSON_answer env A (requests w) e).
Qed.

Lemma retryFrom_rejected (env : Env) {A} (e : Endpoint A) (i left : nat) (w : World) (msg : string) :
  fetchJSON_answer env A (requests w) e = Rejected msg ->
  retryFrom env e i (S left) w =
  retryFrom env e (S i) left
    (snd (sleep (1000 * (Z.of_nat i + 1))
            (request env (EvFetchJSON (fetchURL env (path e))) w))).
Proof.
  intros H. cbn [retryFrom]. unfold catch at 1. unfold fetchJSON at 1. rewrite H.
  reflexivity.
Qed.

Lemma fetchUpcoming_once (env : Env) (w : World) :
  exists l, fetchUpcoming env w = (Resolved l, request env (EvHttpsGet wikiURL) w).
Proof.
  unfold fetchUpcoming, catch, httpsGet, mbind, Net_bind.
  destruct (httpsGet_answer env (requests w) wikiURL) as [raw|msg]; [|eexists; reflexivity].
  destruct (JSON_parse env raw) as [data|]; [|eexists; reflexivity].
  destruct (Scrape.pageText data); eexists; reflexivity.
Qed.

(** C4: for every endpoint of the stats API, [fetchWithRetry] requests the
    endpoint; when the request is answered it returns the answer; when it
    fails it waits 1000 ms and requests again; when that fails it waits
    2000 ms and requests a third time, and whatever the third request gives,
    its value or its error, is the result: there is no fourth request.
    [fetchUpcoming] requests the wiki page once, whatever the answer, and
    always returns a list. *)
Theorem C4_retry_and_backoff (env : Env) (A : Type) (e : Endpoint A) (w : World) :
  let get := EvFetchJSON (fetchURL env (path e)) in
  let n := requests w in
  let r := fetchWithRetry env e w in
  (forall x, fetchJSON_answer env A n e = Resolved x ->
     fst r = Resolved x /\ trace (snd r) = trace w ++ [get]) /\
  (forall m0 x, fetchJSON_answer env A n e = Rejected m0 ->
     fetchJSON_answer env A (n + 1) e = Resolved x ->
     fst r = Resolved x /\ trace (snd r) = trace w ++ [get; EvSleep 1000; get]) /\
  (forall m0 m1, fetchJSON_answer env A n e = Rejected m0 ->
     fetchJSON_answer env A (n + 1) e = Rejected m1 ->
     fst r = fetchJSON_answer env A (n + 2) e /\
     trace (snd r) = trace w ++ [get; EvSleep 1000; get; EvSleep 2000; get]) /\
  (exists l, fst (fetchUpcoming env w) = Resolved l) /\
  trace (snd (fetchUpcoming env w)) = trace w ++ [EvHttpsGet wikiURL].
Proof.
  intros get n r. unfold r, fetchWithRetry, retries. cbn [Nat.sub].
  split; [|split; [|split; [|split]]].
  - intros x H0. rewrite (retryFrom_resolved _ _ _ _ _ _ H0). split; reflexivity.
  - intros m0 x H0 H1. rewrite (retryFrom_rejected _ _ _ _ _ _ H0).
    rewrite (retryFrom_resolved _ _ _ _ _ x).
    + split; [reflexivity|]. cbn. now rewrite <- !app_assoc.
    + cbn. fold n. now replace (S n) with (n + 1)%nat by lia.
  - intros m0 m1 H0 H1. rewrite (retryFrom_rejected _ _ _ _ _ _ H0).
    rewrite (retryFrom_rejected _ _ _ _ _ m1).
    + rewrite retryFrom_last. cbn. fold n.
      replace (S (S n)) with (n + 2)%nat by lia.
      split; [reflexivity|]. now rewrite <- !app_assoc.
    + cbn. fold n. now replace (S n) with (n + 1)%nat by lia.
  - destruct (fetchUpcoming_once env w) as [l ->]. now exists l.
  - destruct (fetchUpcoming_once env w) as [l ->]. reflexivity.
Qed.

(** The claim at work: the first request is rejected and the second is
    answered. *)
Lemma C4_witness_second_attempt :
  let r := fetchWithRetry (Sample.envFlaky 1) EpLive world0 in
  fst r = Resolved None /\
  trace (snd r) =
    [EvFetchJSON "https://api.opendota.com/api/live"; EvSleep 1000;
     EvFetchJSON "https://api.opendota.com/api/live"].
Proof.
  exact (proj1 (proj2 (C4_retry_and_backoff (Sample.envFlaky 1) _ EpLive world0))
           "Rate limited" None eq_refl eq_refl).
Defined.

Example fetchWithRetry_gives_up :
  fetchWithRetry (Sample.envFlaky 3) EpHeroStats world0 =
  (Rejected "Rate limited",
   {| requests := 3; clock := 3300;
      trace := [EvFetchJSON "https://api.opendota.com/api/heroStats"; EvSleep 1000;
                EvFetchJSON "https://api.opendota.com/api/heroStats"; EvSleep 2000;
                EvFetchJSON "https://api.opendota.com/api/heroStats"] |}).
Proof. reflexivity. Qed.

(** ** C2: the filters of the scraper *)

Lemma ourKeyOf_some (teamNames : list string) (k : string) :
  Scrape.ourKeyOf teamNames = Some k ->
  exists name, In name teamNames /\ Scrape.keyOfName name = Some k.
Proof.
  induction teamNames as [|n rest IH]; simpl; [discriminate|].
  destruct (Scrape.keyOfName n) as [k'|] eqn:E.
  - intros [= ->]. exists n. auto.
  - intros H. destruct (IH H) as (name & Hin & Hk). exists name. auto.
Qed.

Lemma teamLookup_entries (p k : string) :
  In (p, k) Scrape.teamLookup ->
  exists cfg, In (k, cfg) TEAMS /\ In p (Scrape.patternsOf cfg).
Proof.
  intros H. vm_compute in H.
  repeat (destruct H as [H|H];
    [injection H as <- <-; eexists; split;
       [vm_compute; (left; reflexivity) || (right; left; reflexivity)
                    || (right; right; left; reflexivity)
       | vm_compute; tauto]|]).
  destruct H.
Qed.

Lemma keyOfName_pattern (name k : string) :
  Scrape.keyOfName name = Some k ->
  exists cfg pattern,
    In (k, cfg) TEAMS /\ In pattern (Scrape.patternsOf cfg) /\
    Scrape.matchesPattern (JS.toLowerCase name) pattern = true.
Proof.
  unfold Scrape.keyOfName. intros H.
  destruct (find _ Scrape.teamLookup) as [[p k']|] eqn:E; [|discriminate].
  simpl in H. injection H as ->.
  apply find_some in E as [Hin Hm]. simpl in Hm.
  destruct (teamLookup_entries p k Hin) as (cfg & Hc & Hp).
  exists cfg, p. auto.
Qed.

(** What a round pushes, read off its definition. *)
Lemma round_pushed (fragment : string) (now : Z) (e : Upcoming.t) :
  Scrape.round fragment now = Scrape.Pushed e ->
  (2 <= length (Scrape.teamNamesOf (Scrape.blockOf fragment)))%nat /\
  Scrape.ourKeyOf (Scrape.teamNamesOf (Scrape.blockOf fragment)) = Some (Upcoming.teamKey e) /\
  Scrape.tooOld (Scrape.extractTimestamp (Scrape.blockOf fragment)) now = false /\
  Scrape.noDate (Scrape.extractTimestamp (Scrape.blockOf fragment)) = false /\
  Upcoming.timestamp e = Scrape.extractTimestamp (Scrape.blockOf fragment).
Proof.
  unfold Scrape.round, Scrape.teamNamesOf. intros H.
  set (block := Scrape.blockOf fragment) in *.
  destruct (Scrape.teamsOfBlock block) as [names logos]. simpl fst.
  destruct (Nat.ltb_spec (length names) 2) as [|Hlen]; [discriminate|].
  destruct (Scrape.ourKeyOf names) as [k|]; [|discriminate].
  destruct (teamOf k TEAMS) as [cfg|]; [|discriminate].
  destruct (Scrape.tooOld _ now) eqn:Ho; [discriminate|].
  destruct (Scrape.noDate _) eqn:Hd; [discriminate|].
  injection H as <-. simpl. auto.
Qed.

Lemma processBlock_round (fragment : string) (now : Z) (e : Upcoming.t) :
  Scrape.processBlock fragment now = Some e <-> Scrape.round fragment now = Scrape.Pushed e.
Proof.
  unfold Scrape.processBlock. destruct (Scrape.round fragment now) as [|e'|].
  - split; discriminate.
  - split; [now intros [= ->] | now intros [= ->]].
  - split; discriminate.
Qed.

(** What [processBlock] returns. *)
Lemma processBlock_some (fragment : string) (now : Z) (e : Upcoming.t) :
  Scrape.processBlock fragment now = Some e ->
  (2 <= length (Scrape.teamNamesOf (Scrape.blockOf fragment)))%nat /\
  Scrape.ourKeyOf (Scrape.teamNamesOf (Scrape.blockOf fragment)) = Some (Upcoming.teamKey e) /\
  Scrape.tooOld (Scrape.extractTimestamp (Scrape.blockOf fragment)) now = false /\
  Upcoming.timestamp e = Scrape.extractTimestamp (Scrape.blockOf fragment).
Proof.
  intros H. apply processBlock_round, round_pushed in H as (H1 & H2 & H3 & _ & H5). auto.
Qed.

Lemma ourKey_is_team (names : list string) (k : string) :
  Scrape.ourKeyOf names = Some k -> exists cfg, teamOf k TEAMS = Some cfg.
Proof.
  intros H. apply ourKeyOf_some in H as (name & _ & Hk).
  apply keyOfName_pattern in Hk as (cfg & _ & Hin & _).
  vm_compute in Hin.
  repeat (destruct Hin as [Hin|Hin]; [injection Hin as <- <-; eexists; reflexivity|]).
  destruct Hin.
Qed.

Lemma processBlock_kept (fragment : string) (now : Z) (k : string) :
  (2 <= length (Scrape.teamNamesOf (Scrape.blockOf fragment)))%nat ->
  Scrape.ourKeyOf (Scrape.teamNamesOf (Scrape.blockOf fragment)) = Some k ->
  Scrape.tooOld (Scrape.extractTimestamp (Scrape.blockOf fragment)) now = false ->
  Scrape.noDate (Scrape.extractTimestamp (Scrape.blockOf fragment)) = false ->
  exists e, Scrape.processBlock fragment now = Some e.
Proof.
  unfold Scrape.processBlock, Scrape.round, Scrape.teamNamesOf.
  set (block := Scrape.blockOf fragment) in *.
  destruct (Scrape.teamsOfBlock block) as [names logos]. simpl fst.
  intros Hlen Hk Ho Hd.
  destruct (Nat.ltb_spec (length names) 2) as [|_]; [lia|].
  rewrite Hk. destruct (ourKey_is_team names k Hk) as [cfg ->].
  rewrite Ho, Hd. eexists. reflexivity.
Qed.

(** The array of the loop holds what it held and entries of the rounds. *)
Lemma scrapeLoop_in (now : Z) (todo : list string) :
  forall (upcoming : list Upcoming.t) (e : Upcoming.t),
  In e (fst (Scrape.scrapeLoop now todo upcoming)) ->
  In e upcoming \/
  exists fragment, In fragment todo /\ Scrape.processBlock fragment now = Some e.
Proof.
  induction todo as [|fr todo IH]; intros upcoming e; cbn [Scrape.scrapeLoop fst]; [now left|].
  destruct (Scrape.round fr now) as [|e'|] eqn:E; cbn [fst].
  - intros H. destruct (IH _ _ H) as [H'|(x & Hin & Hp)]; [now left|].
    right. exists x. split; [now right | exact Hp].
  - intros H. destruct (IH _ _ H) as [H'|(x & Hin & Hp)].
    + apply in_app_or in H' as [H'|[<-|[]]]; [now left|].
      right. exists fr. split; [now left | now apply processBlock_round].
    + right. exists x. split; [now right | exact Hp].
  - now left.
Qed.

Lemma scrape_from_fragment (html : string) (now : Z) (e : Upcoming.t) :
  In e (Scrape.scrape html now) ->
  exists fragment, In fragment (Scrape.fragments html) /\
                   Scrape.processBlock fragment now = Some e.
Proof.
  unfold Scrape.scrape. destruct (JS.len html <? 1000)%nat; [intros []|].
  pose proof (scrapeLoop_in now (Scrape.fragments html) [] e) as H.
  destruct (Scrape.scrapeLoop now (Scrape.fragments html) []) as [upcoming thrown].
  cbn [fst] in H. intros Hin.
  assert (Hu : In e upcoming).
  { destruct thrown; [exact Hin|].
    eapply Permutation_in; [apply sortWith_perm | exact Hin]. }
  destruct (H Hu) as [[]|Hf]. exact Hf.
Qed.

(** C2, as stated, fails: a fragment of Xtreme Gaming against Team Spirit
    whose timestamp attribute holds 0 has the extracted timestamp 0, which is
    more than 3600 seconds before the scrape time 1700000000 s, and the
    scraper keeps it. *)
Lemma C2_counterexample_timestamp_zero :
  let fragment := Sample.fragmentAt "0" in
  Scrape.extractTimestamp (Scrape.blockOf fragment) = Some 0 /\
  1000 * 0 < Sample.scrapeTime - 3600 * 1000 /\
  exists e, Scrape.processBlock fragment Sample.scrapeTime = Some e /\
            Upcoming.teamKey e = "xg" /\ Upcoming.timestamp e = Some 0.
Proof.
  split; [vm_compute; reflexivity|]. split; [vm_compute; reflexivity|].
  eexists. split; [vm_compute; reflexivity|]. split; reflexivity.
Qed.

(** C2, amended: the scraper's output holds only entries of fragments, and
    it holds the entry of a fragment only if one of the fragment's team
    names matches a tracked team (its lower-case form contains a pattern of
    that team, or is contained in one; the entry carries that team's key);
    it drops every fragment whose extracted timestamp is not 0 and is more
    than 3600 seconds before the scrape time; and a fragment with no
    extractable timestamp, or with the timestamp 0, that has two team names,
    one of them matching, is kept whatever the time. *)
Theorem C2_scraper_filters (fragment : string) (now : Z) :
  let block := Scrape.blockOf fragment in
  (forall html e, In e (Scrape.scrape html now) ->
     exists fr, In fr (Scrape.fragments html) /\ Scrape.processBlock fr now = Some e) /\
  (forall e, Scrape.processBlock fragment now = Some e ->
     exists name cfg pattern,
       In name (Scrape.teamNamesOf block) /\
       In (Upcoming.teamKey e, cfg) TEAMS /\
       In pattern (Scrape.patternsOf cfg) /\
       Scrape.matchesPattern (JS.toLowerCase name) pattern = true) /\
  (forall ts, Scrape.extractTimestamp block = Some ts ->
     ts <> 0 -> 1000 * ts < now - 3600 * 1000 ->
     Scrape.processBlock fragment now = None) /\
  (forall k,
     Scrape.extractTimestamp block = None \/ Scrape.extractTimestamp block = Some 0 ->
     (2 <= length (Scrape.teamNamesOf block))%nat ->
     Scrape.ourKeyOf (Scrape.teamNamesOf block) = Some k ->
     exists e, Scrape.processBlock fragment now = Some e /\
               Upcoming.timestamp e = Scrape.extractTimestamp block).
Proof.
  intros block. split; [|split; [|split]].
  - intros html e. apply scrape_from_fragment.
  - intros e H. apply processBlock_some in H as (_ & Hk & _).
    apply ourKeyOf_some in Hk as (name & Hin & Hk).
    apply keyOfName_pattern in Hk as (cfg & pattern & Hc & Hp & Hm).
    exists name, cfg, pattern. auto.
  - intros ts Hts Hnz Hold.
    destruct (Scrape.processBlock fragment now) as [e|] eqn:E; [|reflexivity].
    apply processBlock_some in E as (_ & _ & Ho & _). fold block in Ho.
    rewrite Hts in Ho. simpl in Ho.
    apply andb_false_iff in Ho as [Ho|Ho].
    + apply negb_false_iff, Z.eqb_eq in Ho. contradiction.
    + apply Z.ltb_ge in Ho. lia.
  - intros k Hts Hlen Hk.
    destruct (processBlock_kept fragment now k Hlen Hk) as [e He].
    + fold block. now destruct Hts as [-> | ->].
    + fold block. now destruct Hts as [-> | ->].
    + exists e. split; [exact He|].
      now apply processBlock_some in He as (_ & _ & _ & Ht).
Qed.

(** The amended claim at work: the sample fragment with a timestamp more
    than an hour before the scrape time is dropped. *)
Lemma C2_witness_old_fragment :
  Scrape.processBlock (Sample.fragmentAt "1699990000") Sample.scrapeTime = None.
Proof.
  refine (proj1 (proj2 (proj2 (C2_scraper_filters (Sample.fragmentAt "1699990000")
            Sample.scrapeTime))) 1699990000 _ _ _).
  - vm_compute; reflexivity.
  - discriminate.
  - vm_compute; reflexivity.
Defined.

(** ** The refresh cycle *)

Lemma rosterOf_resolves (env : Env) (names : gmap Z string) (t : TeamResult) (w : World) :
  teamDefined (key t) = true ->
  exists r w', rosterOf env names t w = (Resolved r, w').
Proof.
  intros Hk. unfold rosterOf. rewrite Hk. cbn [negb].
  destruct (matches t) as [|recent rest]; [do 2 eexists; reflexivity|].
  unfold catch, mbind, Net_bind.
  destruct (fetchWithRetry env (EpMatch (match_id recent)) w) as [[detail|msg] w'];
    [|do 2 eexists; reflexivity].
  destruct detail as [[[ps|]]|]; do 2 eexists; reflexivity.
Qed.

Lemma rostersLoop_resolves (env : Env) (names : gmap Z string) (ts : list TeamResult) :
  Forall (fun t => teamDefined (key t) = true) ts ->
  forall rosters w, exists r w', rostersLoop env names ts rosters w = (Resolved r, w').
Proof.
  induction 1 as [|t ts Ht _ IH]; intros rosters w; simpl; [do 2 eexists; reflexivity|].
  unfold mbind, Net_bind.
  destruct (rosterOf_resolves env names t w Ht) as (r & w' & ->). apply IH.
Qed.

Lemma buildCurrentRosters_resolves (env : Env) (ts : list TeamResult)
    (pro : option (list ProPlayer.t)) (w : World) :
  Forall (fun t => teamDefined (key t) = true) ts ->
  exists r w', buildCurrentRosters env ts pro w = (Resolved r, w').
Proof. intros H. now apply rostersLoop_resolves. Qed.

(** The fan-out asks for the teams of [TEAMS], in order. *)
Lemma runTeams_keys (env : Env) (teams : list (string * TeamConfig)) :
  forall w, map tf_key (fst (runTeams env teams w)) = map fst teams.
Proof.
  induction teams as [|t teams IH]; intros w; cbn [runTeams]; [reflexivity|].
  unfold runTeam.
  destruct (fetchWithRetry env (EpTeam (team_id (snd t))) w) as [i w1].
  destruct (fetchWithRetry env (EpTeamMatches (team_id (snd t))) w1) as [m w2].
  destruct (fetchWithRetry env (EpTeamPlayers (team_id (snd t))) w2) as [p w3].
  destruct (fetchWithRetry env (EpTeamHeroes (team_id (snd t))) w3) as [h w4].
  specialize (IH w4). destruct (runTeams env teams w4) as [xs w5].
  cbn in *. now f_equal.
Qed.

Lemma fanOut_keys (env : Env) (w : World) :
  map tf_key (f_teams (fst (fanOut env w))) = map fst TEAMS.
Proof.
  unfold fanOut. pose proof (runTeams_keys env TEAMS w) as Hk.
  destruct (runTeams env TEAMS w) as [ts w1].
  destruct (fetchWithRetry env EpHeroStats w1) as [hs w2].
  destruct (fetchWithRetry env EpLive w2) as [lv w3].
  destruct (fetchWithRetry env EpProPlayers w3) as [pp w4].
  exact Hk.
Qed.

Lemma allSettled_teams (tfs : list TeamFetched) (ts : list TeamResult) :
  allSettled (map teamResultOf tfs) = Resolved ts ->
  map key ts = map tf_key tfs /\ Forall (fun t => (length (matches t) <= 50)%nat) ts.
Proof.
  revert ts. induction tfs as [|tf tfs IH]; intros ts; cbn [map allSettled].
  - intros [= <-]. split; [reflexivity | constructor].
  - destruct (teamResultOf tf) as [t|msg] eqn:E; [|discriminate].
    destruct (allSettled (map teamResultOf tfs)) as [xs|msg]; [|discriminate].
    intros [= <-]. destruct (IH xs eq_refl) as [Hk Hm].
    unfold teamResultOf in E.
    destruct (tf_info tf), (tf_matches tf), (tf_players tf), (tf_heroes tf);
      try discriminate.
    injection E as <-. cbn. split; [now f_equal|].
    constructor; [|exact Hm]. cbn. rewrite length_take. lia.
Qed.

Lemma gather_teams (f : Fetched) (g : Gathered) :
  gather f = Resolved g ->
  allSettled (map teamResultOf (f_teams f)) = Resolved (g_teamResults g).
Proof.
  unfold gather.
  destruct (f_heroStats f), (orElse (f_live f) (Some [])),
    (orElse (f_proPlayers f) (Some [])),
    (allSettled (map teamResultOf (f_teams f))); try discriminate.
  now intros [= <-].
Qed.

(** The team results of a fan-out over [TEAMS] have keys of [TEAMS]. *)
Lemma gathered_keys (f : Fetched) (g : Gathered) :
  map tf_key (f_teams f) = map fst TEAMS ->
  gather f = Resolved g ->
  Forall (fun t => teamDefined (key t) = true) (g_teamResults g).
Proof.
  intros Hkeys Hg. apply gather_teams, allSettled_teams in Hg as [Hk _].
  rewrite Hkeys in Hk. apply List.Forall_forall. intros t Hin.
  assert (Ht : In (key t) (map fst TEAMS)) by (rewrite <- Hk; now apply in_map).
  unfold TEAMS in Ht. cbn [map fst In] in Ht.
  destruct Ht as [E|[E|[E|[]]]]; rewrite <- E; reflexivity.
Qed.

(** Once the fan-out has given its values the cycle reaches its end: the
    keys are those of [TEAMS], and the remaining requests (match details,
    the wiki page) have a [catch]. *)
Lemma settleCycle_gathered (env : Env) (f : Fetched) (g : Gathered) (w : World) :
  gather f = Resolved g ->
  map tf_key (f_teams f) = map fst TEAMS ->
  exists snap w',
    settleCycle env f w = (Resolved snap, w') /\
    heroMap snap = heroMapOf (g_heroStats g) /\
    liveMatches snap = liveMatchesOf (g_live g) /\
    map fst (teams snap) = map key (g_teamResults g) /\
    map (fun e => result (snd e)) (teams snap) = g_teamResults g /\
    teamConfig snap = TEAMS /\
    lastUpdated snap = clock w' /\
    liveUpdated snap = None.
Proof.
  intros Hg Hkeys. unfold settleCycle, mbind, Net_bind, ofOutcome. rewrite Hg.
  destruct (buildCurrentRosters_resolves env (g_teamResults g) (g_proPlayers g) w
              (gathered_keys f g Hkeys Hg)) as (rosters & w1 & ->).
  unfold catch. destruct (fetchUpcoming_once env w1) as [up ->].
  unfold dateNow, mret, Net_ret. eexists; eexists. split; [reflexivity|].
  cbn. rewrite !map_map. cbn. rewrite map_id. repeat split; reflexivity.
Qed.

Lemma settleCycle_rejected (env : Env) (f : Fetched) (msg : string) (w : World) :
  gather f = Rejected msg -> settleCycle env f w = (Rejected msg, w).
Proof.
  intros Hg. unfold settleCycle, mbind, Net_bind, ofOutcome. now rewrite Hg.
Qed.

Lemma allSettled_resolved {A} (l : list (Outcome A)) :
  forallb resolved l = true <-> exists xs, allSettled l = Resolved xs.
Proof.
  induction l as [|[a|msg] l IH]; simpl.
  - split; [eauto | reflexivity].
  - rewrite IH. split.
    + intros [xs ->]. eauto.
    + destruct (allSettled l); [eauto | intros [xs Hxs]; discriminate].
  - split; [discriminate | intros [xs Hxs]; discriminate].
Qed.

Lemma teamResultOf_resolved (tf : TeamFetched) :
  resolved (teamResultOf tf) = teamFetchedOK tf.
Proof.
  unfold teamResultOf, teamFetchedOK.
  destruct (tf_info tf), (tf_matches tf), (tf_players tf), (tf_heroes tf); reflexivity.
Qed.

(** The fan-out gives its values exactly when every request without a
    [catch] of its own is answered. *)
Lemma gather_essential (f : Fetched) :
  essentialOK f = true <-> exists g, gather f = Resolved g.
Proof.
  unfold essentialOK, gather.
  assert (Ht : forallb teamFetchedOK (f_teams f) =
               forallb resolved (map teamResultOf (f_teams f))).
  { induction (f_teams f) as [|tf l IH]; simpl; [reflexivity|].
    now rewrite IH, teamResultOf_resolved. }
  rewrite Ht. clear Ht.
  destruct (f_heroStats f) as [hs|m]; simpl.
  - rewrite allSettled_resolved.
    destruct (f_live f), (f_proPlayers f); simpl;
      (split; [intros [xs ->]; eauto |
               intros [g Hg]; destruct (allSettled _); [eauto | discriminate]]).
  - split; [discriminate | intros [g Hg]; discriminate].
Qed.

Lemma gather_rejected (f : Fetched) :
  essentialOK f = false -> exists msg, gather f = Rejected msg.
Proof.
  intros H. destruct (gather f) as [g|msg] eqn:E; [|eauto].
  assert (essentialOK f = true) by (apply gather_essential; eauto). congruence.
Qed.

Lemma gather_live_default (f : Fetched) (msg : string) :
  gather (withLive (Rejected msg) f) = gather (withLive (Resolved (Some [])) f).
Proof. reflexivity. Qed.

Lemma gather_proPlayers_default (f : Fetched) (msg : string) :
  gather (withProPlayers (Rejected msg) f) = gather (withProPlayers (Resolved (Some [])) f).
Proof. reflexivity. Qed.

Lemma gather_live (f : Fetched) (g : Gathered) :
  gather f = Resolved g ->
  g_live g = match f_live f with Resolved lv => lv | Rejected _ => Some [] end /\
  g_proPlayers g = match f_proPlayers f with Resolved pp => pp | Rejected _ => Some [] end /\
  Resolved (g_heroStats g) = f_heroStats f.
Proof.
  unfold gather.
  destruct (f_heroStats f), (f_live f), (f_proPlayers f),
    (allSettled (map teamResultOf (f_teams f)));
    simpl; intros [= <-]; simpl; auto.
Qed.

Lemma setRefreshing_restore (s : Server) :
  isRefreshing s = false -> setRefreshing false (setRefreshing true s) = s.
Proof. destruct s; simpl; intros ->; reflexivity. Qed.

Lemma refreshAllData_unfold (env : Env) (s : Server) (w : World) :
  isRefreshing s = false ->
  refreshAllData env s w =
  (refreshEnd (fst (refreshTry env w)) (setRefreshing true s), snd (refreshTry env w)).
Proof.
  intros H. unfold refreshAllData, refreshBegin. rewrite H.
  now destruct (refreshTry env w).
Qed.

Lemma refreshTry_unfold (env : Env) (w : World) :
  refreshTry env w = settleCycle env (fst (fanOut env w)) (snd (fanOut env w)).
Proof. unfold refreshTry. now destruct (fanOut env w). Qed.

Lemma refreshEnd_resolved (snap : Snapshot) (s : Server) :
  isRefreshing s = false ->
  refreshEnd (Resolved snap) (setRefreshing true s) = setCachedData (Some snap) s.
Proof. destruct s; simpl; intros ->; reflexivity. Qed.

(** ** C1: which failures a refresh cycle survives *)

(** C1, as stated, fails: when [/heroStats] is rejected at each of its three
    attempts and every other request of the fan-out is answered, the cycle
    stores no snapshot. *)
Lemma C1_counterexample_heroStats_down :
  let env := Sample.envWith (String.eqb "/heroStats") in
  let f := fst (fanOut env world0) in
  resolved (f_heroStats f) = false /\
  forallb teamFetchedOK (f_teams f) = true /\
  resolved (f_live f) = true /\
  resolved (f_proPlayers f) = true /\
  fst (refreshAllData env initial world0) = initial.
Proof. vm_compute. repeat split; reflexivity. Qed.

(** C1, amended: in a full refresh cycle a failure of the live-games
    request or of the pro-player-names request counts as the empty list, and
    the cycle goes on exactly as if that request had answered the empty
    list; when the requests of every team (info, matches, players, heroes)
    and the hero-stats request are answered, the snapshot is assembled and
    stored, whatever became of the other two; when one of the team
    requests or the hero-stats request fails, the cycle ends there: no
    snapshot is stored and the server is left as it was. *)
Theorem C1_partial_failure (env : Env) (s : Server) (w : World) :
  let f := fst (fanOut env w) in
  let s' := fst (refreshAllData env s w) in
  isRefreshing s = false ->
  (forall f0 w0 msg,
     settleCycle env (withLive (Rejected msg) f0) w0 =
     settleCycle env (withLive (Resolved (Some [])) f0) w0) /\
  (forall f0 w0 msg,
     settleCycle env (withProPlayers (Rejected msg) f0) w0 =
     settleCycle env (withProPlayers (Resolved (Some [])) f0) w0) /\
  (essentialOK f = true ->
     exists snap,
       cachedData s' = Some snap /\ isRefreshing s' = false /\
       Resolved (map (fun e => result (snd e)) (teams snap)) =
         allSettled (map teamResultOf (f_teams f)) /\
       (forall hs, f_heroStats f = Resolved hs -> heroMap snap = heroMapOf hs) /\
       (forall lv, f_live f = Resolved lv -> liveMatches snap = liveMatchesOf lv) /\
       (resolved (f_live f) = false -> liveMatches snap = [])) /\
  (essentialOK f = false ->
     s' = s /\ snd (refreshAllData env s w) = snd (fanOut env w)).
Proof.
  intros f s' Hidle. split; [reflexivity|]. split; [reflexivity|].
  unfold s'. rewrite (refreshAllData_unfold env s w Hidle), refreshTry_unfold.
  fold f. split.
  - intros Hok. apply gather_essential in Hok as [g Hg].
    destruct (settleCycle_gathered env f g (snd (fanOut env w)) Hg (fanOut_keys env w))
      as (snap & w' & -> & Hh & Hl & _ & Ht & _).
    destruct (gather_live f g Hg) as (Hlv & _ & Hhs).
    exists snap. cbn [fst]. rewrite refreshEnd_resolved by exact Hidle.
    split; [reflexivity|]. split; [destruct s; exact Hidle|].
    split; [|split; [|split]].
    + rewrite Ht. unfold gather in Hg.
      destruct (f_heroStats f), (orElse (f_live f) (Some [])),
        (orElse (f_proPlayers f) (Some [])),
        (allSettled (map teamResultOf (f_teams f))); try discriminate.
      now injection Hg as <-.
    + intros hs E. rewrite E in Hhs. injection Hhs as Hhs. now rewrite Hh, Hhs.
    + intros lv E. rewrite E in Hlv. now rewrite Hl, Hlv.
    + intros E. destruct (f_live f); [discriminate|]. now rewrite Hl, Hlv.
  - intros Hbad. apply gather_rejected in Hbad as [msg Hg].
    rewrite (settleCycle_rejected env f msg _ Hg). cbn [fst snd].
    split; [|reflexivity]. now apply setRefreshing_restore.
Qed.

(** The amended claim at work: with [/live] rejected at every attempt and
    every other request answered, a snapshot is stored, with no live
    matches. *)
Lemma C1_witness_live_down :
  exists snap,
    cachedData (fst (refreshAllData (Sample.envWith (String.eqb "/live")) initial world0))
      = Some snap /\
    liveMatches snap = [].
Proof.
  destruct (C1_partial_failure (Sample.envWith (String.eqb "/live")) initial world0 eq_refl)
    as (_ & _ & Hok & _).
  destruct (Hok ltac:(vm_compute; reflexivity)) as (snap & Hc & _ & _ & _ & _ & Hl).
  exists snap. split; [exact Hc|]. apply Hl. vm_compute; reflexivity.
Defined.


(** ** What each operation leaves alone *)

Lemma sameRefreshState_refl (s : Server) : sameRefreshState s s.
Proof. split; reflexivity. Qed.

Lemma getPlayerHeroes_frame (env : Env) (accountId : Z) (s : Server) (w : World) :
  let s' := snd (fst (getPlayerHeroes env accountId s w)) in
  sameRefreshState s s' /\ imgCache s' = imgCache s.
Proof.
  unfold getPlayerHeroes.
  destruct (freshHeroes _ _); [repeat split|].
  destruct (fetchWithRetry env (EpPlayerHeroes accountId) w) as [[data|msg] w'];
    repeat split.
Qed.

Lemma proxyImage_frame (env : Env) (hops : nat) :
  forall (imageUrl : string) (s : Server) (w : World),
  let s' := snd (fst (proxyImage env hops imageUrl s w)) in
  sameRefreshState s s' /\ playerHeroCache s' = playerHeroCache s.
Proof.
  induction hops as [|hops IH]; intros imageUrl s w; cbn [proxyImage];
    (destruct (freshImage _ _); [repeat split|]);
    (destruct (image_answer env (requests w) imageUrl) as [msg|code loc ct body];
       [repeat split|]);
    destruct ((300 <=? code) && (code <? 400)), (truthyHeader loc);
    try (destruct (negb (code =? 200)); [repeat split|]; destruct body; repeat split);
    try apply IH.
Qed.

Lemma serveImage_frame (env : Env) (hops : nat) (reqUrl : string) (s : Server) (w : World) :
  let s' := snd (fst (serveImage env hops reqUrl s w)) in
  sameRefreshState s s' /\ playerHeroCache s' = playerHeroCache s.
Proof.
  unfold serveImage.
  destruct (imgUrlOf reqUrl) as [[|c u]|]; [repeat split| |repeat split].
  destruct (decodeURIComponent env (String c u)) as [d|]; [|repeat split].
  destruct (negb (JS.startsWith d TRUSTED_PREFIX)); [repeat split|].
  pose proof (proxyImage_frame env hops d s w) as H.
  destruct (proxyImage env hops d s w) as [[[[img|msg]|] s1] w1]; exact H.
Qed.

Lemma refreshLiveOnly_frame (env : Env) (s : Server) (w : World) :
  let s' := fst (refreshLiveOnly env s w) in
  isRefreshing s' = isRefreshing s /\
  playerHeroCache s' = playerHeroCache s /\
  imgCache s' = imgCache s.
Proof.
  unfold refreshLiveOnly.
  destruct (catch _ _ w) as [[live|msg] w']; [|repeat split].
  unfold storeLive. destruct (cachedData s); repeat split.
Qed.

(** The request handler writes [cachedData] on no route, and the flag only
    when it calls [refreshAllData] with the flag down. *)
Lemma server_frame (env : Env) (hops : nat) (reqUrl : string) (s : Server) (w : World) :
  let s' := snd (fst (server env hops reqUrl s w)) in
  cachedData s' = cachedData s /\
  (isRefreshing s' = isRefreshing s \/
   isRefreshing s = false /\ isRefreshing s' = true).
Proof.
  unfold server.
  destruct (String.eqb _ "/api/data"); [split; [reflexivity | now left]|].
  destruct (playerMatch _) as [d|].
  - pose proof (getPlayerHeroes_frame env (JS.parseInt d) s w) as [[Hc Hf] _].
    destruct (getPlayerHeroes env (JS.parseInt d) s w) as [[[heroes|msg] s1] w1];
      (split; [exact Hc | left; exact Hf]).
  - destruct (String.eqb _ "/api/img").
    + pose proof (serveImage_frame env hops reqUrl s w) as [[Hc Hf] _].
      split; [exact Hc | left; exact Hf].
    + destruct (String.eqb _ "/api/refresh"); [|split; [reflexivity | now left]].
      unfold refreshBegin. destruct (isRefreshing s) eqn:E; simpl.
      * split; [reflexivity | now left].
      * split; [reflexivity | now right].
Qed.

(** ** C3: refresh cycles do not overlap *)

Lemma startCycle_tracks (env : Env) (y : Sys) :
  flagTracksCycle y -> flagTracksCycle (startCycle env y).
Proof.
  intros H. unfold startCycle, refreshBegin.
  destruct (isRefreshing (srv y)) eqn:E; [exact H|].
  destruct H as [[H _]|[_ Hc]]; [congruence|].
  destruct (refreshTry env (world y)) as [r w']. left. simpl. now rewrite Hc.
Qed.

Lemma step_tracks (env : Env) (hops : nat) (y : Sys) (a : Action) :
  flagTracksCycle y -> flagTracksCycle (step env hops y a).
Proof.
  intros H. destruct a as [| | |reqUrl]; cbn [step].
  - now apply startCycle_tracks.
  - destruct (cycles y) as [|r rest] eqn:E; [exact H|].
    right. simpl. split; [reflexivity|].
    destruct H as [[_ Hl]|[_ Hc]]; [|congruence].
    rewrite E in Hl. simpl in Hl. destruct rest; [reflexivity | discriminate].
  - pose proof (refreshLiveOnly_frame env (srv y) (world y)) as (Hf & _).
    destruct (refreshLiveOnly env (srv y) (world y)) as [s' w']. simpl in Hf.
    unfold flagTracksCycle. simpl. now rewrite Hf.
  - pose proof (server_frame env hops reqUrl (srv y) (world y)) as (_ & Hf).
    destruct (server env hops reqUrl (srv y) (world y)) as [[reply s'] w']. simpl in Hf.
    destruct Hf as [Hf|[Hdown Hup]].
    + replace (negb (isRefreshing (srv y)) && isRefreshing s') with false
        by (rewrite Hf; now destruct (isRefreshing (srv y))).
      unfold flagTracksCycle. simpl. now rewrite Hf.
    + rewrite Hdown, Hup. simpl.
      destruct (refreshTry env w') as [r w'']. left. simpl. split; [exact Hup|].
      destruct H as [[H _]|[_ Hc]]; [congruence | now rewrite Hc].
Qed.

Lemma run_tracks (env : Env) (hops : nat) (actions : list Action) :
  forall y, flagTracksCycle y -> flagTracksCycle (run env hops actions y).
Proof.
  unfold run. induction actions as [|a actions IH]; intros y H; simpl; [exact H|].
  apply IH. now apply step_tracks.
Qed.

(** C3: a call of [refreshAllData] while the flag is up returns at once:
    the server and the outside, with the list of requests issued, are as
    before, and in the process no cycle is added for later, on the timer as
    on the route [/api/refresh], whose reply is then all that happens.
    Whatever the process does from its start, at most one cycle is in flight,
    and the flag is up exactly while one is.  The end of a cycle takes the
    flag down, for a [try] block that threw as for one that did not; so a
    call that started a cycle has the flag down when it returns. *)
Theorem C3_no_overlapping_refresh (env : Env) (hops : nat) :
  (forall s w, isRefreshing s = true -> refreshAllData env s w = (s, w)) /\
  (forall y, isRefreshing (srv y) = true -> step env hops y CallRefresh = y) /\
  (forall y reqUrl, isRefreshing (srv y) = true ->
     default "" (head (JS.split reqUrl "?")) = "/api/refresh" ->
     step env hops y (Request reqUrl) = y) /\
  (forall actions,
     let y := run env hops actions boot in
     (length (cycles y) <= 1)%nat /\
     (isRefreshing (srv y) = true <-> length (cycles y) = 1%nat)) /\
  (forall r s, isRefreshing (refreshEnd r s) = false) /\
  (forall s w, isRefreshing (fst (refreshAllData env s w)) = isRefreshing s).
Proof.
  split; [|split; [|split; [|split; [|split]]]].
  - intros s w H. unfold refreshAllData, refreshBegin. now rewrite H.
  - intros y H. cbn [step]. unfold startCycle, refreshBegin. now rewrite H.
  - intros y reqUrl H Hroute. cbn [step]. unfold server. rewrite Hroute.
    cbn. unfold refreshBegin. rewrite H. cbn. now destruct y.
  - intros actions y.
    assert (Hy : flagTracksCycle y).
    { apply run_tracks. right. split; reflexivity. }
    destruct Hy as [[Hf Hl]|[Hf Hc]]; rewrite Hf.
    + rewrite Hl. split; [lia | tauto].
    + rewrite Hc. simpl. split; [lia|]. split; discriminate.
  - intros r s. reflexivity.
  - intros s w. unfold refreshAllData, refreshBegin.
    destruct (isRefreshing s) eqn:E; [exact E|].
    now destruct (refreshTry env w).
Qed.

(** The claim at work: the process has started a cycle; a second call
    changes nothing. *)
Lemma C3_witness_second_call :
  let env := Sample.envWith (fun _ => false) in
  step env 0 (step env 0 boot CallRefresh) CallRefresh = step env 0 boot CallRefresh.
Proof.
  refine (proj1 (proj2 (C3_no_overlapping_refresh (Sample.envWith (fun _ => false)) 0))
            (step (Sample.envWith (fun _ => false)) 0 boot CallRefresh) _).
  vm_compute. reflexivity.
Defined.

(** ** C7: the live-only refresh *)

(** C7: a run of [refreshLiveOnly] leaves the server without a snapshot as
    it is; of a snapshot it changes at most [liveMatches] and [liveUpdated]:
    [teams], [heroMap], [upcoming], [teamConfig] and [lastUpdated] are as
    before.  The flag and the two other caches are as before as well. *)
Theorem C7_live_only_frame (env : Env) (s : Server) (w : World) :
  let s' := fst (refreshLiveOnly env s w) in
  match cachedData s with
  | None => s' = s
  | Some snap =>
      exists snap',
        cachedData s' = Some snap' /\
        teams snap' = teams snap /\
        heroMap snap' = heroMap snap /\
        upcoming snap' = upcoming snap /\
        teamConfig snap' = teamConfig snap /\
        lastUpdated snap' = lastUpdated snap
  end /\
  isRefreshing s' = isRefreshing s /\
  playerHeroCache s' = playerHeroCache s /\
  imgCache s' = imgCache s.
Proof.
  intros s'. split; [|apply refreshLiveOnly_frame].
  unfold s', refreshLiveOnly.
  destruct (catch _ _ w) as [[live|msg] w']; cbn [fst]; unfold storeLive.
  - destruct (cachedData s) as [snap|] eqn:E; [|reflexivity].
    eexists. split; [reflexivity|]. repeat split.
  - destruct (cachedData s) as [snap|] eqn:E; [|reflexivity].
    exists snap. repeat split.
Qed.

(** ** C9: the per-player hero cache *)

(** The retry loop starts with a request of its endpoint. *)
Lemma retryFrom_requests (env : Env) {A} (e : Endpoint A) (left : nat) :
  forall i w, exists rest,
    trace (snd (retryFrom env e i left w)) =
    trace w ++ EvFetchJSON (fetchURL env (path e)) :: rest.
Proof.
  induction left as [|left IH]; intros i w.
  - rewrite retryFrom_last. now exists [].
  - destruct (fetchJSON_answer env A (requests w) e) as [x|msg] eqn:E.
    + rewrite (retryFrom_resolved _ _ _ _ _ _ E). now exists [].
    + rewrite (retryFrom_rejected _ _ _ _ _ _ E).
      destruct (IH (S i) (snd (sleep (1000 * (Z.of_nat i + 1))
                  (request env (EvFetchJSON (fetchURL env (path e))) w)))) as [rest ->].
      cbn. rewrite <- !app_assoc. eexists. reflexivity.
Qed.

Lemma heroesOf_bounds (data : option (list PlayerHero.t)) :
  (length (heroesOf data) <= 10)%nat /\
  Forall (fun h => 0 < HeroStat.games h) (heroesOf data).
Proof.
  unfold heroesOf. split.
  - rewrite length_map, length_take. lia.
  - apply Forall_map, Forall_take, Forall_forall.
    intros h Hin. apply list_elem_of_In, filter_In in Hin as [_ Hg].
    destruct (PlayerHero.games h) as [g|]; [|discriminate].
    simpl. now apply Z.ltb_lt.
Qed.

Lemma refreshAllData_keeps_heroes (env : Env) (s : Server) (w : World) :
  playerHeroCache (fst (refreshAllData env s w)) = playerHeroCache s /\
  imgCache (fst (refreshAllData env s w)) = imgCache s.
Proof.
  unfold refreshAllData, refreshBegin. destruct (isRefreshing s); [split; reflexivity|].
  destruct (refreshTry env w) as [[snap|msg] w']; split; reflexivity.
Qed.

(** C9: when the cache holds an entry for the player that is younger than
    30 minutes, [getPlayerHeroes] returns the data of the entry and does
    nothing else: the server and the outside, with its list of requests,
    are as before.  Otherwise it requests the heroes of the player; when the
    request (with its retries) is answered, the result is the first 10
    entries with more than 0 games, each cut down to its three fields, and
    the cache holds the result for that player with the time at which the
    answer came, the other entries as before; when the request fails, the
    error is the result and the server is as before.  The function does not
    touch the cached snapshot or the refresh flag, and neither refresh
    touches the hero cache. *)
Theorem C9_player_hero_cache (env : Env) (accountId : Z) (s : Server) (w : World) :
  let out := getPlayerHeroes env accountId s w in
  let s' := snd (fst out) in
  let w' := snd out in
  let fetched := fetchWithRetry env (EpPlayerHeroes accountId) w in
  (forall c, playerHeroCache s !! accountId = Some c ->
     clock w - hc_timestamp c < 30 * 60 * 1000 ->
     out = (Resolved (hc_data c), s, w)) /\
  (playerHeroCache s !! accountId = None \/
   (exists c, playerHeroCache s !! accountId = Some c /\
              30 * 60 * 1000 <= clock w - hc_timestamp c) ->
     w' = snd fetched /\
     (exists rest,
        trace w' = trace w ++
          EvFetchJSON (fetchURL env ("/players/" +:+ JS.ofZ accountId +:+ "/heroes?game_mode=2"))
          :: rest) /\
     (forall data, fst fetched = Resolved data ->
        let heroes :=
          map (fun h => {| HeroStat.hero_id := PlayerHero.hero_id h;
                           HeroStat.games := default 0 (PlayerHero.games h);
                           HeroStat.win := default 0 (PlayerHero.win h) |})
            (take 10 (List.filter
               (fun h => match PlayerHero.games h with Some g => 0 <? g | None => false end)
               (default [] data))) in
        fst (fst out) = Resolved heroes /\
        playerHeroCache s' =
          <[accountId := {| hc_data := heroes; hc_timestamp := clock w' |}]>
            (playerHeroCache s) /\
        (length heroes <= 10)%nat /\
        Forall (fun h => 0 < HeroStat.games h) heroes) /\
     (forall msg, fst fetched = Rejected msg ->
        fst (fst out) = Rejected msg /\ s' = s)) /\
  cachedData s' = cachedData s /\
  isRefreshing s' = isRefreshing s /\
  playerHeroCache (fst (refreshAllData env s w)) = playerHeroCache s /\
  playerHeroCache (fst (refreshLiveOnly env s w)) = playerHeroCache s.
Proof.
  intros out s' w' fetched.
  split; [|split; [|split; [|split; [|split]]]].
  - intros c Hc Hage. unfold out, getPlayerHeroes, freshHeroes, HERO_TTL. rewrite Hc.
    now replace (clock w - hc_timestamp c <? 30 * 60 * 1000) with true
      by (symmetry; apply Z.ltb_lt; exact Hage).
  - intros Hmiss.
    assert (Hf : freshHeroes (clock w) (playerHeroCache s !! accountId) = None).
    { unfold freshHeroes, HERO_TTL. destruct Hmiss as [->|(c & -> & Hage)]; [reflexivity|].
      now replace (clock w - hc_timestamp c <? 30 * 60 * 1000) with false
        by (symmetry; apply Z.ltb_ge; exact Hage). }
    unfold w', s', out, getPlayerHeroes. rewrite Hf. fold fetched.
    pose proof (retryFrom_requests env (EpPlayerHeroes accountId) (retries - 1) 0%nat w)
      as [rest Hrest].
    change (retryFrom env (EpPlayerHeroes accountId) 0 (retries - 1) w) with fetched in Hrest.
    destruct fetched as [[data|msg] w1]; cbn [fst snd] in *.
    + split; [reflexivity|]. split; [now exists rest|]. split; [|discriminate].
      intros data' [= <-]. cbn zeta.
      split; [reflexivity|]. split; [reflexivity|]. apply heroesOf_bounds.
    + split; [reflexivity|]. split; [now exists rest|]. split; [discriminate|].
      intros msg' [= <-]. split; reflexivity.
  - apply getPlayerHeroes_frame.
  - apply getPlayerHeroes_frame.
  - apply refreshAllData_keeps_heroes.
  - apply refreshLiveOnly_frame.
Qed.

(** The claim at work: an entry written at time 1000 is served at time
    5000 without a request. *)
Lemma C9_witness_cache_hit :
  getPlayerHeroes (Sample.envWith (fun _ => true)) 111 Sample.servingHeroes
    {| requests := 0; clock := 5000; trace := [] |}
  = (Resolved Sample.heroes111, Sample.servingHeroes,
     {| requests := 0; clock := 5000; trace := [] |}).
Proof.
  refine (proj1 (C9_player_hero_cache (Sample.envWith (fun _ => true)) 111
                   Sample.servingHeroes {| requests := 0; clock := 5000; trace := [] |})
            {| hc_data := Sample.heroes111; hc_timestamp := 1000 |} _ _).
  - vm_compute. reflexivity.
  - vm_compute. reflexivity.
Defined.

(** ** C5 and C6: the routes [/api/img] and [/api/data] *)

Lemma server_img (env : Env) (hops : nat) (reqUrl : string) (s : Server) (w : World) :
  default "" (head (JS.split reqUrl "?")) = "/api/img" ->
  server env hops reqUrl s w = serveImage env hops reqUrl s w.
Proof. intros H. unfold server. rewrite H. reflexivity. Qed.

Lemma server_data (env : Env) (hops : nat) (reqUrl : string) (s : Server) (w : World) :
  default "" (head (JS.split reqUrl "?")) = "/api/data" ->
  server env hops reqUrl s w = (Replied (serveData s), s, w).
Proof. intros H. unfold server. rewrite H. reflexivity. Qed.

(** [proxyImage] either answers from its cache, with the outside as it
    was, or its first request is for the URL it was given and the later
    ones follow redirects. *)
Lemma proxyImage_requests (env : Env) (hops : nat) :
  forall (imageUrl : string) (s : Server) (w : World),
  let w' := snd (proxyImage env hops imageUrl s w) in
  w' = w \/
  exists rest, trace w' = trace w ++ EvImageGet imageUrl :: rest /\
               redirectChain env (requests w) imageUrl rest.
Proof.
  assert (Hend : forall imageUrl s w code ct (body : Outcome (list Byte.byte)),
    let w1 := request env (EvImageGet imageUrl) w in
    exists rest,
      trace (snd (if negb (code =? 200)
                  then (Some (Rejected ("HTTP " +:+ JS.ofZ code)), s, w1)
                  else match body with
                       | Resolved data =>
                           (Some (Resolved
                              {| img_data := data;
                                 contentType := JS.orStr (default "" ct) "image/png";
                                 img_timestamp := clock w1 |}),
                            setImgCache
                              (<[imageUrl :=
                                  {| img_data := data;
                                     contentType := JS.orStr (default "" ct) "image/png";
                                     img_timestamp := clock w1 |}]> (imgCache s)) s, w1)
                       | Rejected msg => (Some (Rejected msg), s, w1)
                       end))
      = trace w ++ EvImageGet imageUrl :: rest /\
      redirectChain env (requests w) imageUrl rest).
  { intros imageUrl s w code ct b. exists [].
    destruct (negb (code =? 200)); [|destruct b]; split; reflexivity || exact I. }
  induction hops as [|hops IH]; intros imageUrl s w; cbn [proxyImage].
  - destruct (freshImage _ _); [now left|]. right.
    destruct (image_answer env (requests w) imageUrl) as [msg|code loc ct body];
      [now exists []|].
    destruct ((300 <=? code) && (code <? 400)), (truthyHeader loc) as [l|];
      try apply Hend.
    now exists [].
  - destruct (freshImage _ _); [now left|]. right.
    destruct (image_answer env (requests w) imageUrl) as [msg|code loc ct body] eqn:Ha;
      [now exists []|].
    destruct ((300 <=? code) && (code <? 400)) eqn:Hr;
      destruct (truthyHeader loc) as [l|] eqn:Hl; try apply Hend.
    assert (Hloc : loc = Some l).
    { unfold truthyHeader in Hl. now destruct loc as [[|c x]|]. }
    apply andb_prop in Hr as [H1 H2]. apply Z.leb_le in H1. apply Z.ltb_lt in H2.
    destruct (IH l s (request env (EvImageGet imageUrl) w)) as [E|(rest & E & Hc)];
      cbn zeta in E; rewrite E; cbn [request trace].
    + now exists [].
    + rewrite <- app_assoc. exists (EvImageGet l :: rest). split; [reflexivity|].
      cbn [redirectChain]. exists code, l, ct, body.
      split; [now rewrite Ha, Hloc|]. split; [lia|]. split; [reflexivity | exact Hc].
Qed.

(** C5, as stated, fails: the image host answers the request of a logo of
    [liquipedia.net] with a redirect to another host, and the server fetches
    the image there and answers 200 with its bytes. *)
Lemma C5_counterexample_redirect :
  let out := server Sample.envWiki 5 "/api/img?url=https://liquipedia.net/logo.png"
               initial world0 in
  fst (fst out) = Replied {| statusCode := 200; responseType := Some "image/png";
                             body := BodyBytes [] |} /\
  trace (snd out) = [EvImageGet "https://liquipedia.net/logo.png";
                     EvImageGet "https://mirror.example/logo.png"] /\
  JS.startsWith "https://mirror.example/logo.png" "https://liquipedia.net/" = false.
Proof. vm_compute. repeat split; reflexivity. Qed.

(** C5, amended: on the route [/api/img], a request without the [url]
    parameter (nothing, or nothing but the empty string, follows the first
    [?url=]) and a request whose parameter decodes to a text that does not
    start with [https://liquipedia.net/] are answered 400, and nothing is
    fetched: the server and the outside, with its list of requests, are as
    before.  Whenever the route fetches something or answers 200, the
    parameter decodes to a URL that starts with [https://liquipedia.net/];
    the image comes from the cache or from requests of which the first is
    for that URL and every later one is for the [Location] of the redirect
    that answered the one before it, whatever its host. *)
Theorem C5_image_proxy_guard (env : Env) (hops : nat) (reqUrl : string)
    (s : Server) (w : World) :
  default "" (head (JS.split reqUrl "?")) = "/api/img" ->
  let out := server env hops reqUrl s w in
  let bad := Replied {| statusCode := 400; responseType := None;
                        body := BodyText "Bad request" |} in
  (imgUrlOf reqUrl = None \/ imgUrlOf reqUrl = Some "" -> out = (bad, s, w)) /\
  (forall u d, imgUrlOf reqUrl = Some u -> decodeURIComponent env u = Some d ->
     JS.startsWith d "https://liquipedia.net/" = false -> out = (bad, s, w)) /\
  (snd out <> w \/ (exists resp, fst (fst out) = Replied resp /\ statusCode resp = 200) ->
     exists u d,
       imgUrlOf reqUrl = Some u /\ decodeURIComponent env u = Some d /\
       JS.startsWith d "https://liquipedia.net/" = true /\
       (snd out = w \/
        exists rest, trace (snd out) = trace w ++ EvImageGet d :: rest /\
                     redirectChain env (requests w) d rest)).
Proof.
  intros Hroute out bad. unfold out. rewrite (server_img env hops reqUrl s w Hroute).
  unfold serveImage. fold bad. split; [|split].
  - intros [->| ->]; reflexivity.
  - intros u d -> Hd Hs. destruct u as [|c u]; [reflexivity|]. rewrite Hd.
    change TRUSTED_PREFIX with "https://liquipedia.net/". now rewrite Hs.
  - destruct (imgUrlOf reqUrl) as [[|c u]|];
      [intros [H|(resp & [= <-] & H)]; [now contradiction H | discriminate]
      | | intros [H|(resp & [= <-] & H)]; [now contradiction H | discriminate]].
    destruct (decodeURIComponent env (String c u)) as [d|] eqn:Hd;
      [|intros [H|(resp & H & _)]; [now contradiction H | discriminate]].
    change TRUSTED_PREFIX with "https://liquipedia.net/".
    destruct (JS.startsWith d "https://liquipedia.net/") eqn:Hs; cbn [negb];
      [|intros [H|(resp & [= <-] & H)]; [now contradiction H | discriminate]].
    intros _. exists (String c u), d.
    split; [reflexivity|]. split; [exact Hd|]. split; [exact Hs|].
    pose proof (proxyImage_requests env hops d s w) as Hp. cbn zeta in Hp.
    destruct (proxyImage env hops d s w) as [[[[img|msg]|] s1] w1]; exact Hp.
Qed.

(** The claim at work: a URL of another host is refused. *)
Lemma C5_witness_untrusted_host :
  server (Sample.envWith (fun _ => false)) 5
    "/api/img?url=https://example.org/logo.png" initial world0
  = (Replied {| statusCode := 400; responseType := None; body := BodyText "Bad request" |},
     initial, world0).
Proof.
  refine (proj1 (proj2 (C5_image_proxy_guard (Sample.envWith (fun _ => false)) 5
            "/api/img?url=https://example.org/logo.png" initial world0 _))
            "https://example.org/logo.png" "https://example.org/logo.png" _ _ _);
    vm_compute; reflexivity.
Defined.

(** C6: on the route [/api/data] the server answers 200 with the cached
    snapshot when there is one, and 503 with an error body when there is
    none; the server, with its cache, and the outside are as before. *)
Theorem C6_api_data (env : Env) (hops : nat) (reqUrl : string) (s : Server) (w : World) :
  default "" (head (JS.split reqUrl "?")) = "/api/data" ->
  exists resp,
    server env hops reqUrl s w = (Replied resp, s, w) /\
    match cachedData s with
    | Some snap => statusCode resp = 200 /\ body resp = BodySnapshot snap
    | None => statusCode resp = 503 /\ exists msg, body resp = BodyError msg
    end.
Proof.
  intros Hroute. exists (serveData s). split; [now apply server_data|].
  unfold serveData. destruct (cachedData s); simpl; eauto.
Qed.

(** The claim at work: before the first snapshot the answer is 503, and
    with the sample snapshot it is 200. *)
Lemma C6_witness_loading_then_serving :
  (exists resp,
     server (Sample.envWith (fun _ => false)) 0 "/api/data" initial world0
       = (Replied resp, initial, world0) /\ statusCode resp = 503) /\
  (exists resp,
     server (Sample.envWith (fun _ => false)) 0 "/api/data?t=1" Sample.serving world0
       = (Replied resp, Sample.serving, world0) /\
     statusCode resp = 200 /\ body resp = BodySnapshot Sample.snapshot).
Proof.
  split.
  - destruct (C6_api_data (Sample.envWith (fun _ => false)) 0 "/api/data" initial world0
                eq_refl) as (resp & H & Hs & _).
    exists resp. split; assumption.
  - destruct (C6_api_data (Sample.envWith (fun _ => false)) 0 "/api/data?t=1"
                Sample.serving world0 eq_refl) as (resp & H & Hs).
    exists resp. split; assumption.
Defined.

(** A parameter that [decodeURIComponent] refuses ends the handler in an
    exception outside of any [try]: there is no reply, and nothing is
    fetched. *)
Lemma serveImage_undecodable (env : Env) (hops : nat) (reqUrl : string)
    (s : Server) (w : World) (c : ascii) (u : string) :
  imgUrlOf reqUrl = Some (String c u) ->
  decodeURIComponent env (String c u) = None ->
  serveImage env hops reqUrl s w = (Unanswered, s, w).
Proof. intros H1 H2. unfold serveImage. now rewrite H1, H2. Qed.

(** ** C10: the cached snapshot changes only at the end of a cycle that
    succeeded *)

(** C10: a cycle of [refreshAllData] that starts (the flag is down) and
    whose [try] block throws leaves the server, and so the cached snapshot or
    the initial [null], as it was before the cycle; a cycle whose [try] block
    reaches its end changes [cachedData] to the new snapshot and nothing
    else.  The head of the function does not touch [cachedData], and its end
    replaces it only for a [try] block that did not throw.  A [try] block
    that throws has thrown at the fan-out.  In the process, whatever else
    happens between the start and the end of a cycle, the live-only refresh
    apart, an event leaves [cachedData] as it is unless it is the end of a
    cycle whose [try] block did not throw. *)
Theorem C10_refresh_atomic (env : Env) (s : Server) (w : World) :
  let r := fst (refreshTry env w) in
  let s' := fst (refreshAllData env s w) in
  isRefreshing s = false ->
  (forall msg, r = Rejected msg -> s' = s) /\
  (forall snap, r = Resolved snap -> s' = setCachedData (Some snap) s) /\
  (forall s1, refreshBegin s = Some s1 -> cachedData s1 = cachedData s) /\
  (forall s1 msg, cachedData (refreshEnd (Rejected msg) s1) = cachedData s1) /\
  (forall s1 snap, cachedData (refreshEnd (Resolved snap) s1) = Some snap) /\
  (forall msg, r = Rejected msg -> gather (fst (fanOut env w)) = Rejected msg) /\
  (forall hops y a, a <> LiveTick ->
     cachedData (srv (step env hops y a)) = cachedData (srv y) \/
     exists snap rest,
       a = FinishCycle /\ cycles y = Resolved snap :: rest /\
       cachedData (srv (step env hops y a)) = Some snap).
Proof.
  intros r s' Hidle. unfold s'. rewrite (refreshAllData_unfold env s w Hidle). fold r.
  cbn [fst]. split; [|split; [|split; [|split; [|split; [|split]]]]]; try reflexivity.
  - intros msg ->. now apply setRefreshing_restore.
  - intros snap ->. now apply refreshEnd_resolved.
  - unfold refreshBegin. rewrite Hidle. now intros s1 [= <-].
  - intros msg Hr. unfold r in Hr. rewrite refreshTry_unfold in Hr.
    destruct (gather (fst (fanOut env w))) as [g|msg'] eqn:Hg.
    + destruct (settleCycle_gathered env _ g (snd (fanOut env w)) Hg (fanOut_keys env w))
        as (snap & w' & E & _). rewrite E in Hr. discriminate.
    + rewrite (settleCycle_rejected env _ msg' _ Hg) in Hr. simpl in Hr. congruence.
  - intros hops y a Ha. destruct a as [| | |reqUrl]; [| |contradiction|]; cbn [step].
    + left. unfold startCycle, refreshBegin.
      destruct (isRefreshing (srv y)); [reflexivity|].
      now destruct (refreshTry env (world y)).
    + destruct (cycles y) as [|[snap|msg] rest]; [now left| |now left].
      right. exists snap, rest. repeat split.
    + left. pose proof (server_frame env hops reqUrl (srv y) (world y)) as [Hc _].
      destruct (server env hops reqUrl (srv y) (world y)) as [[reply s1] w1].
      simpl in Hc. destruct (negb (isRefreshing (srv y)) && isRefreshing s1); [|exact Hc].
      now destruct (refreshTry env w1).
Qed.


(** The claim at work: a cycle in which [/heroStats] is rejected leaves a
    server that holds a snapshot as it was. *)
Lemma C10_witness_failed_cycle :
  fst (refreshAllData (Sample.envWith (String.eqb "/heroStats")) Sample.serving world0)
  = Sample.serving.
Proof.
  refine (proj1 (C10_refresh_atomic (Sample.envWith (String.eqb "/heroStats"))
                   Sample.serving world0 eq_refl) "Rate limited" _).
  vm_compute. reflexivity.
Defined.

(** ** The embedding at work *)

Example scrape_page :
  map (fun e => (Upcoming.teamKey e, Upcoming.opponent e, Upcoming.bestOf e,
                 Upcoming.timestamp e, Upcoming.dateStr e))
      (Scrape.scrape Sample.page Sample.scrapeTime) =
  [ ("xg", "Team Spirit", "BO3", Some 0, None);
    ("xg", "Team Spirit", "BO3", Some 1700007200, Some 1700007200000) ].
Proof. vm_compute. reflexivity. Qed.

(** A full cycle from the initial state.  The clock of [world0] starts at
    0, so no timestamp of the page is old. *)
Example refresh_with_wiki :
  let '(s, w) := refreshAllData Sample.envWiki initial world0 in
  isRefreshing s = false /\
  requests w = 16%nat /\
  nth_error (trace w) 0 = Some (EvFetchJSON "https://api.opendota.com/api/teams/8261500?api_key=secret") /\
  nth_error (trace w) 15 = Some (EvHttpsGet wikiURL) /\
  match cachedData s with
  | Some snap =>
      map fst (teams snap) = ["xg"; "yb"; "vg"] /\
      map Upcoming.timestamp (upcoming snap) =
        [Some 0; Some 1699992800; Some 1700007200] /\
      lastUpdated snap = 1600
  | None => False
  end.
Proof. vm_compute. repeat split; reflexivity. Qed.

(** The check of the route [/api/img] is on the URL of the request: a
    redirect answered for that URL is followed, and the image is cached under
    the URL it came from. *)
Example img_redirect_followed :
  let '(reply, s, w) :=
    server Sample.envWiki 5 "/api/img?url=https://liquipedia.net/logo.png" initial world0 in
  reply = Replied {| statusCode := 200; responseType := Some "image/png";
                     body := BodyBytes [] |} /\
  trace w = [EvImageGet "https://liquipedia.net/logo.png";
             EvImageGet "https://mirror.example/logo.png"] /\
  imgCache s !! "https://liquipedia.net/logo.png" = None /\
  is_Some (imgCache s !! "https://mirror.example/logo.png").
Proof. vm_compute. repeat split; eauto. Qed.

Example routes :
  fst (fst (server Sample.envWiki 0 "/" initial world0)) = StaticFile "/index.html" /\
  fst (fst (server Sample.envWiki 0 "/styles.css?v=2" initial world0)) = StaticFile "/styles.css" /\
  isRefreshing (snd (fst (server Sample.envWiki 0 "/api/refresh" initial world0))) = true /\
  fst (fst (server Sample.envWiki 0 "/api/player/111/heroes" initial world0)) =
    Replied {| statusCode := 200; responseType := Some "application/json";
               body := BodyHeroes [] |} /\
  playerMatch "/api/player/111/heroes/" = None /\
  playerMatch "/api/player//heroes" = None.
Proof. vm_compute. repeat split; reflexivity. Qed.

(** * Properties of the rest of the code *)

(** ** Strings *)

Lemma append_cons (x : ascii) (a b : string) : String x a +:+ b = String x (a +:+ b).
Proof. reflexivity. Qed.

Lemma append_length (a b : string) :
  String.length (a +:+ b) = (String.length a + String.length b)%nat.
Proof.
  induction a as [|c a IH]; [reflexivity|].
  rewrite append_cons. simpl. now rewrite IH.
Qed.

Lemma append_assoc (a b c : string) : (a +:+ b) +:+ c = a +:+ (b +:+ c).
Proof.
  induction a as [|x a IH]; [reflexivity|]. rewrite !append_cons. now f_equal.
Qed.

Lemma append_empty_r (a : string) : a +:+ "" = a.
Proof.
  induction a as [|x a IH]; [reflexivity|]. rewrite append_cons. now f_equal.
Qed.

Lemma stripPrefix_spec (p s r : string) :
  JS.stripPrefix p s = Some r -> s = p +:+ r.
Proof.
  revert s. induction p as [|b p IH]; intros s; simpl.
  - now intros [= ->].
  - destruct s as [|a s]; [discriminate|].
    destruct (Ascii.eqb_spec a b) as [->|]; [|discriminate].
    intros H. now rewrite (IH _ H).
Qed.

Lemma stripPrefix_append (p r : string) : JS.stripPrefix p (p +:+ r) = Some r.
Proof.
  induction p as [|b p IH]; simpl; [reflexivity|]. now rewrite Ascii.eqb_refl.
Qed.

Lemma startsWith_stripPrefix (s p : string) :
  JS.startsWith s p = true <-> exists r, JS.stripPrefix p s = Some r.
Proof.
  revert s. induction p as [|b p IH]; intros s.
  - split; [intros _; now exists s | intros _; now destruct s].
  - destruct s as [|a s]; [split; [discriminate | intros [r H]; discriminate]|].
    cbn [JS.startsWith JS.stripPrefix].
    destruct (Ascii.eqb a b) eqn:E; cbn [andb]; [apply IH|].
    split; [discriminate | intros [r H]; discriminate].
Qed.

Lemma startsWith_append (p r : string) : JS.startsWith (p +:+ r) p = true.
Proof. apply startsWith_stripPrefix. exists r. apply stripPrefix_append. Qed.

(** What [breakOn] finds is an occurrence of the separator. *)
Lemma breakOn_spec (sep s b r : string) :
  JS.breakOn sep s = Some (b, r) -> s = b +:+ sep +:+ r.
Proof.
  revert b. induction s as [|a s IH]; intros b; simpl.
  - destruct (JS.stripPrefix sep "") as [rest|] eqn:E; [|discriminate].
    intros [= <- <-]. now apply stripPrefix_spec in E.
  - destruct (JS.stripPrefix sep (String a s)) as [rest|] eqn:E.
    + intros [= <- <-]. now apply stripPrefix_spec in E.
    + destruct (JS.breakOn sep s) as [[b' r']|]; [|discriminate].
      intros [= <- <-]. simpl. now rewrite (IH b' eq_refl).
Qed.

Lemma breakOn_char_none (c : ascii) (s : string) :
  lacks c s = true -> JS.breakOn (String c "") s = None.
Proof.
  induction s as [|a s IH]; simpl; [reflexivity|].
  intros H. apply andb_prop in H as [Ha Hs].
  destruct (Ascii.eqb a c); [discriminate|]. now rewrite (IH Hs).
Qed.

Lemma breakOn_char_first (c : ascii) (k v : string) :
  lacks c k = true -> JS.breakOn (String c "") (k +:+ String c v) = Some (k, v).
Proof.
  induction k as [|a k IH]; simpl.
  - intros _. now rewrite Ascii.eqb_refl.
  - intros H. apply andb_prop in H as [Ha Hs].
    destruct (Ascii.eqb a c); [discriminate|]. now rewrite (IH Hs).
Qed.

Lemma split_rounds_nonempty (n : nat) (sep s : string) : JS.split_rounds n sep s <> [].
Proof.
  destruct n; simpl; [discriminate|].
  destruct (JS.breakOn sep s) as [[b r]|]; discriminate.
Qed.

(** [s.split(sep).join(sep)] is [s]. *)
Lemma join_split (sep s : string) :
  (0 < String.length sep)%nat -> DotEnv.join sep (JS.split s sep) = s.
Proof.
  intros Hsep. unfold JS.split.
  assert (H : forall n s, DotEnv.join sep (JS.split_rounds n sep s) = s).
  { induction n as [|n IH]; intros t; simpl; [reflexivity|].
    destruct (JS.breakOn sep t) as [[b r]|] eqn:E; [|reflexivity].
    apply breakOn_spec in E. specialize (IH r).
    pose proof (split_rounds_nonempty n sep r) as Hne.
    destruct (JS.split_rounds n sep r) as [|x xs]; [congruence|].
    cbn [DotEnv.join] in *. now rewrite IH. }
  apply H.
Qed.

(** The pieces of [k c v] when [k] is without the character [c]: [k], and
    the pieces of [v]. *)
Lemma split_char_first (c : ascii) (k v : string) :
  lacks c k = true ->
  JS.split (k +:+ String c v) (String c "") = k :: JS.split v (String c "").
Proof.
  intros Hk. unfold JS.split. rewrite append_length. cbn [String.length].
  replace (String.length k + S (String.length v))%nat
    with (S (String.length k + String.length v)) by lia.
  cbn [JS.split_rounds]. rewrite (breakOn_char_first c k v Hk). f_equal.
  apply split_rounds_enough; simpl; lia.
Qed.

Lemma split_char_none (c : ascii) (s : string) :
  lacks c s = true -> JS.split s (String c "") = [s].
Proof.
  intros H. unfold JS.split. destruct (String.length s); [reflexivity|].
  cbn [JS.split_rounds]. now rewrite (breakOn_char_none c s H).
Qed.

(** A separator cannot occur in a text without its first character. *)
Lemma breakOn_none (c : ascii) (sep s : string) :
  lacks c s = true -> JS.breakOn (String c sep) s = None.
Proof.
  induction s as [|a s IH]; cbn [JS.breakOn JS.stripPrefix lacks]; [reflexivity|].
  intros H. apply andb_prop in H as [Ha Hs].
  destruct (Ascii.eqb a c); [discriminate|]. now rewrite (IH Hs).
Qed.

Lemma breakOn_first (c : ascii) (sep k v : string) :
  lacks c k = true ->
  JS.breakOn (String c sep) (k +:+ String c sep +:+ v) = Some (k, v).
Proof.
  induction k as [|a k IH]; intros H.
  - change ("" +:+ String c sep +:+ v) with (String c sep +:+ v).
    destruct (String c sep +:+ v) as [|x r] eqn:E; [discriminate|].
    cbn [JS.breakOn]. rewrite <- E, stripPrefix_append. reflexivity.
  - cbn [lacks] in H. apply andb_prop in H as [Ha Hs].
    rewrite append_cons. cbn [JS.breakOn JS.stripPrefix].
    destruct (Ascii.eqb a c); [discriminate|]. now rewrite (IH Hs).
Qed.

Lemma split_rounds_none (n : nat) (c : ascii) (sep s : string) :
  lacks c s = true -> JS.split_rounds n (String c sep) s = [s].
Proof.
  intros H. destruct n; cbn [JS.split_rounds]; [reflexivity|].
  now rewrite (breakOn_none c sep s H).
Qed.

(** ** [server.js]: the [.env] file *)

(** X1: a line [key=value] of the [.env] file, with a key that has no
    equals sign and is not blank, sets the variable named by the trimmed key
    to the trimmed rest of the line, equals signs of the value included; a
    line without an equals sign sets nothing, and so does a line that starts
    with one. *)
Theorem dotenv_line_sets_trimmed_pair (processEnv : gmap string string) :
  (forall k v, JS.trim k <> "" -> lacks "=" k = true ->
     DotEnv.loadLine processEnv (k +:+ "=" +:+ v) =
     <[JS.trim k := JS.trim v]> processEnv) /\
  (forall line, lacks "=" line = true -> DotEnv.loadLine processEnv line = processEnv) /\
  (forall v, DotEnv.loadLine processEnv ("=" +:+ v) = processEnv).
Proof.
  split; [|split].
  - intros k v Hk Hlacks. unfold DotEnv.loadLine.
    change (k +:+ "=" +:+ v) with (k +:+ String "=" v).
    rewrite (split_char_first "=" k v Hlacks).
    destruct (String.eqb_spec k "") as [E|_]; [now subst k|].
    pose proof (split_rounds_nonempty (String.length v) "=" v) as Hne.
    change (JS.split_rounds (String.length v) "=" v) with (JS.split v "=") in Hne.
    destruct (JS.split v "=") as [|x xs] eqn:E; [congruence|].
    cbn [negb andb length Nat.ltb Nat.leb]. rewrite <- E.
    destruct (String.eqb_spec (JS.trim k) "") as [Et|_]; [contradiction|].
    now rewrite join_split by (simpl; lia).
  - intros line Hlacks. unfold DotEnv.loadLine.
    rewrite (split_char_none "=" line Hlacks). cbn [length Nat.ltb Nat.leb].
    now rewrite andb_false_r.
  - intros v. unfold DotEnv.loadLine.
    change ("=" +:+ v) with ("" +:+ String "=" v).
    rewrite (split_char_first "=" "" v eq_refl). reflexivity.
Qed.

(** The statement at work: a key with a blank after it, a value with equals signs and
    a carriage return at its end. *)
Lemma dotenv_line_witness :
  DotEnv.loadLine ∅ ("OPENDOTA_API_KEY " +:+ "=" +:+ (" abc=def==" +:+ String (ascii_of_nat 13) ""))
  = <["OPENDOTA_API_KEY" := "abc=def=="]> ∅.
Proof.
  exact (proj1 (dotenv_line_sets_trimmed_pair ∅) "OPENDOTA_API_KEY "
           (" abc=def==" +:+ String (ascii_of_nat 13) "")
           ltac:(discriminate) eq_refl).
Defined.

Example dotenv_file :
  let text := "# local settings" +:+ DotEnv.newline +:+ "PORT=8080" +:+ DotEnv.newline
              +:+ "OPENDOTA_API_KEY=old" +:+ DotEnv.newline
              +:+ "OPENDOTA_API_KEY = new" +:+ DotEnv.newline in
  let env := DotEnv.loadEnv (Some text) ∅ in
  env !! "PORT" = Some "8080" /\ DotEnv.apiKeyOf env = "new" /\
  DotEnv.apiKeyOf (DotEnv.loadEnv None ∅) = "".
Proof. vm_compute. repeat split; reflexivity. Qed.

(** ** [server.js]: requests and rosters *)

(** The retry loop issues at least one request and at most one per round. *)
Lemma retryFrom_count (env : Env) {A} (e : Endpoint A) (left : nat) :
  forall i w,
  (requests w < requests (snd (retryFrom env e i left w)) <= requests w + S left)%nat.
Proof.
  induction left as [|left IH]; intros i w.
  - rewrite retryFrom_last. cbn. lia.
  - destruct (fetchJSON_answer env A (requests w) e) as [x|msg] eqn:E.
    + rewrite (retryFrom_resolved _ _ _ _ _ _ E). cbn. lia.
    + rewrite (retryFrom_rejected _ _ _ _ _ _ E).
      specialize (IH (S i) (snd (sleep (1000 * (Z.of_nat i + 1))
                  (request env (EvFetchJSON (fetchURL env (path e))) w)))).
      cbn in IH |- *. lia.
Qed.

Lemma fetchWithRetry_count (env : Env) {A} (e : Endpoint A) (w : World) :
  (requests w < requests (snd (fetchWithRetry env e w)) <= requests w + 3)%nat.
Proof. apply (retryFrom_count env e 2 0%nat w). Qed.

Lemma teamDefined_key (k : string) : In k (map fst TEAMS) -> teamDefined k = true.
Proof.
  unfold TEAMS. cbn [map fst In]. intros [E|[E|[E|[]]]]; rewrite <- E; reflexivity.
Qed.








Lemma ofZ_nonempty (n : Z) : (0 < JS.len (JS.ofZ n))%nat.
Proof.
  assert (H : forall p, (0 < JS.len (NilEmpty.string_of_uint (Pos.to_uint p)))%nat).
  { intros p. pose proof (DecimalPos.Unsigned.to_uint_nonnil p) as Hp.
    destruct (Pos.to_uint p); [congruence| | | | | | | | | |]; cbn; lia. }
  destruct n as [|p|p]; [cbn; lia | apply H |].
  unfold JS.ofZ. change (JS.len ("-" +:+ ?x)) with (S (JS.len x)). lia.
Qed.

Lemma orStr_nonempty (a b : string) : (0 < JS.len b)%nat -> (0 < JS.len (JS.orStr a b))%nat.
Proof. destruct a; simpl; [auto | lia]. Qed.

Lemma Forall2_map_fun {A B} (R : A -> B -> Prop) (f : A -> B) (l : list A) :
  (forall a, R a (f a)) -> Forall2 R l (map f l).
Proof. intros H. induction l as [|a l IH]; cbn [map]; constructor; auto. Qed.

(** X3: the roster of a team is read off the details of its most recent
    match.  When the request of those details is answered with a list of
    players, the roster has one entry for every player of the side of the
    team (the slots below 128 when the team was radiant, the others
    otherwise), in the order of the match, with the account id and the hero
    of the player; the name of the entry is the name of the professional
    player with that account, where there is one that is not empty, else the
    persona name of the match, where that is not empty, else the account id
    as text; so it is never empty. *)
Theorem roster_names (env : Env) (names : gmap Z string) (t : TeamResult) (w : World)
    (m : TeamMatch) (rest : list TeamMatch) (detail : MatchDetail)
    (ps : list DetailPlayer.t) :
  In (key t) (map fst TEAMS) ->
  matches t = m :: rest ->
  fst (fetchWithRetry env (EpMatch (match_id m)) w) = Resolved (Some detail) ->
  md_players detail = Some ps ->
  exists roster,
    fst (rosterOf env names t w) = Resolved roster /\
    Forall2 (fun p e =>
      RosterEntry.account_id e = DetailPlayer.account_id p /\
      RosterEntry.hero_id e = DetailPlayer.hero_id p /\
      RosterEntry.name e =
        match
          match DetailPlayer.account_id p with
          | IdNum n => names !! n
          | IdUndefined | IdNull => None
          end
        with
        | Some (String c pro) => String c pro
        | Some EmptyString | None =>
            match DetailPlayer.personaname p with
            | Some (String c persona) => String c persona
            | Some EmptyString | None =>
                match DetailPlayer.account_id p with
                | IdNum n => JS.ofZ n
                | IdNull => "null"
                | IdUndefined => "undefined"
                end
            end
        end /\
      (0 < JS.len (RosterEntry.name e))%nat)
      (List.filter (fun p =>
         match radiant m with
         | Some true => DetailPlayer.player_slot p <? 128
         | Some false | None => 128 <=? DetailPlayer.player_slot p
         end) ps)
      roster.
Proof.
  intros Hkey Hm Hfetch Hps. unfold rosterOf.
  rewrite (teamDefined_key _ Hkey), Hm. cbn [negb].
  unfold catch, mbind, Net_bind.
  destruct (fetchWithRetry env (EpMatch (match_id m)) w) as [r w'].
  cbn [fst] in Hfetch. subst r. cbn [option_bind]. unfold option_bind. rewrite Hps.
  cbn [mret Net_ret fst]. eexists. split; [reflexivity|].
  assert (Hside : forall l,
    List.filter (fun p =>
      if match radiant m with Some true => true | _ => false end
      then DetailPlayer.player_slot p <? 128
      else 128 <=? DetailPlayer.player_slot p) l =
    List.filter (fun p =>
      match radiant m with
      | Some true => DetailPlayer.player_slot p <? 128
      | Some false | None => 128 <=? DetailPlayer.player_slot p
      end) l).
  { intros l. apply List.filter_ext. intros p. now destruct (radiant m) as [[|]|]. }
  rewrite Hside. apply Forall2_map_fun. intros p.
  cbn [rosterEntry RosterEntry.account_id RosterEntry.hero_id RosterEntry.name].
  split; [reflexivity|]. split; [reflexivity|]. split.
  - unfold lookupId.
    destruct (DetailPlayer.account_id p) as [| |n]; cbn [idToString];
      try destruct (names !! n) as [[|c pro]|];
      destruct (DetailPlayer.personaname p) as [[|c' persona]|]; reflexivity.
  - apply orStr_nonempty, orStr_nonempty.
    destruct (DetailPlayer.account_id p); cbn [idToString]; [cbn; lia | cbn; lia |].
    apply ofZ_nonempty.
Qed.

(** The statement at work: the radiant side of the sample match, with one
    professional name on record. *)
Lemma roster_names_witness :
  exists roster,
    fst (rosterOf RosterSample.env {[ 111 := "Ame" ]} RosterSample.team world0)
      = Resolved roster /\
    map RosterEntry.name roster = ["Ame"; "null"].
Proof.
  destruct (roster_names RosterSample.env {[ 111 := "Ame" ]} RosterSample.team world0
              (Sample.game 1 100000 7 true) [] {| md_players := Some RosterSample.matchPlayers |}
              RosterSample.matchPlayers) as (roster & E & HF);
    [now left | reflexivity | reflexivity | reflexivity |].
  exists roster. split; [exact E|].
  cbn [List.filter RosterSample.matchPlayers radiant Sample.game DetailPlayer.player_slot
       Z.ltb Z.compare Pos.compare Pos.compare_cont] in HF.
  apply Forall2_cons_inv_l in HF as (e1 & r1 & (_ & _ & N1 & _) & HF & ->).
  apply Forall2_cons_inv_l in HF as (e2 & r2 & (_ & _ & N2 & _) & HF & ->).
  apply Forall2_nil_inv_l in HF as ->.
  cbn [map]. rewrite N1, N2. reflexivity.
Defined.

(** ** [server.js]: what a refresh cycle stores and costs *)

Lemma heroMap_fold (l : list Hero) :
  forall (acc : gmap Z Hero),
  let m := fold_left (fun (m : gmap Z Hero) h => <[id h := h]> m) l acc in
  (forall i h, m !! i = Some h -> (In h l /\ id h = i) \/ acc !! i = Some h) /\
  (forall h, In h l -> exists h', m !! id h = Some h' /\ In h' l /\ id h' = id h) /\
  (forall i, ~ In i (map id l) -> m !! i = acc !! i) /\
  (NoDup (map id l) -> forall h, In h l -> m !! id h = Some h).
Proof.
  induction l as [|x l IH]; intros acc; cbn [fold_left].
  - cbn. split; [|split; [|split]]; [intros i h H; now right | intros h [] | reflexivity | intros _ h []].
  - specialize (IH (<[id x := x]> acc)). cbn zeta in IH.
    destruct IH as (H1 & H2 & H3 & H4). cbn zeta. split; [|split; [|split]].
    + intros i h H. apply H1 in H as [[Hin Hi]|H]; [left; split; [now right | exact Hi]|].
      destruct (decide (id x = i)) as [<-|Hne].
      * rewrite lookup_insert_eq in H. injection H as <-. left. split; [now left | reflexivity].
      * rewrite lookup_insert_ne in H by exact Hne. now right.
    + intros h [<-|Hin].
      * destruct (in_dec Z.eq_dec (id x) (map id l)) as [Hd|Hd].
        -- apply in_map_iff in Hd as (h' & Hid & Hin').
           destruct (H2 h' Hin') as (h'' & Hl & Hin'' & Hid'').
           exists h''. rewrite Hid in Hl. split; [exact Hl|]. split; [now right | congruence].
        -- exists x. rewrite (H3 _ Hd), lookup_insert_eq. split; [reflexivity|].
           split; [now left | reflexivity].
      * destruct (H2 h Hin) as (h' & Hl & Hin' & Hid'). exists h'.
        split; [exact Hl|]. split; [now right | exact Hid'].
    + intros i Hi. cbn [map In] in Hi. rewrite H3 by tauto.
      apply lookup_insert_ne. tauto.
    + intros Hnd h [<-|Hin]; cbn [map] in Hnd; apply NoDup_cons in Hnd as [Hd Hnd].
      * rewrite H3 by (intros Hd'; apply Hd; now apply list_elem_of_In).
        apply lookup_insert_eq.
      * now apply H4.
Qed.

(** X4: the hero map of a snapshot holds under every key a hero of the
    hero statistics with that id, and holds an entry for the id of every
    hero of the statistics; where the ids of the statistics are distinct,
    every hero is found under its id.  Hero statistics that are [null] give
    the empty map. *)
Theorem heroMap_lookup (heroStats : option (list Hero)) :
  let all := default [] heroStats in
  (forall i h, heroMapOf heroStats !! i = Some h -> In h all /\ id h = i) /\
  (forall h, In h all -> exists h', heroMapOf heroStats !! id h = Some h' /\ id h' = id h) /\
  (NoDup (map id all) -> forall h, In h all -> heroMapOf heroStats !! id h = Some h) /\
  heroMapOf None = ∅.
Proof.
  intros all. unfold heroMapOf. fold all.
  destruct (heroMap_fold all ∅) as (H1 & H2 & _ & H4). cbn zeta in *.
  split; [|split; [|split]].
  - intros i h H. apply H1 in H as [H|H]; [exact H|]. now rewrite lookup_empty in H.
  - intros h Hin. destruct (H2 h Hin) as (h' & Hl & _ & Hid). eauto.
  - exact H4.
  - reflexivity.
Qed.

Lemma runTeam_spec (env : Env) (team : string * TeamConfig) (w : World) :
  tf_key (fst (runTeam env team w)) = fst team /\
  (requests w + 4 <= requests (snd (runTeam env team w)) <= requests w + 12)%nat.
Proof.
  unfold runTeam.
  pose proof (fetchWithRetry_count env (EpTeam (team_id (snd team))) w) as H1.
  destruct (fetchWithRetry env (EpTeam (team_id (snd team))) w) as [i w1].
  pose proof (fetchWithRetry_count env (EpTeamMatches (team_id (snd team))) w1) as H2.
  destruct (fetchWithRetry env (EpTeamMatches (team_id (snd team))) w1) as [m w2].
  pose proof (fetchWithRetry_count env (EpTeamPlayers (team_id (snd team))) w2) as H3.
  destruct (fetchWithRetry env (EpTeamPlayers (team_id (snd team))) w2) as [p w3].
  pose proof (fetchWithRetry_count env (EpTeamHeroes (team_id (snd team))) w3) as H4.
  destruct (fetchWithRetry env (EpTeamHeroes (team_id (snd team))) w3) as [h w4].
  cbn in *. split; [reflexivity | lia].
Qed.

Lemma runTeams_spec (env : Env) (teams : list (string * TeamConfig)) :
  forall w,
  map tf_key (fst (runTeams env teams w)) = map fst teams /\
  (requests w + 4 * length teams <= requests (snd (runTeams env teams w))
   <= requests w + 12 * length teams)%nat.
Proof.
  induction teams as [|t teams IH]; intros w; cbn [runTeams].
  - cbn. split; [reflexivity | lia].
  - pose proof (runTeam_spec env t w) as [Hk Hc].
    destruct (runTeam env t w) as [x w1].
    specialize (IH w1). destruct (runTeams env teams w1) as [xs w2].
    cbn in *. split; [now f_equal | lia].
Qed.

Lemma fanOut_spec (env : Env) (w : World) :
  map tf_key (f_teams (fst (fanOut env w))) = map fst TEAMS /\
  (requests w + 15 <= requests (snd (fanOut env w)) <= requests w + 45)%nat.
Proof.
  unfold fanOut.
  pose proof (runTeams_spec env TEAMS w) as [Hk Hc].
  destruct (runTeams env TEAMS w) as [ts w1].
  pose proof (fetchWithRetry_count env EpHeroStats w1) as H1.
  destruct (fetchWithRetry env EpHeroStats w1) as [hs w2].
  pose proof (fetchWithRetry_count env EpLive w2) as H2.
  destruct (fetchWithRetry env EpLive w2) as [lv w3].
  pose proof (fetchWithRetry_count env EpProPlayers w3) as H3.
  destruct (fetchWithRetry env EpProPlayers w3) as [pp w4].
  cbn [fst snd f_teams] in *. split; [exact Hk|]. cbn [length TEAMS] in Hc. cbn in Hc. lia.
Qed.

(** A snapshot that a refresh cycle has assembled has the shape. *)
Lemma refreshTry_shaped (env : Env) (w w' : World) (snap : Snapshot) :
  refreshTry env w = (Resolved snap, w') -> shaped snap.
Proof.
  rewrite refreshTry_unfold. intros H.
  pose proof (fanOut_spec env w) as [Hkeys _].
  destruct (gather (fst (fanOut env w))) as [g|msg] eqn:Hg;
    [|rewrite (settleCycle_rejected env _ msg _ Hg) in H; discriminate].
  destruct (settleCycle_gathered env _ g (snd (fanOut env w)) Hg (fanOut_keys env w))
    as (snap' & w1 & E & _ & _ & Hk & Hr & Hc & _ & Hl).
  rewrite E in H. injection H as <- <-.
  apply gather_teams, allSettled_teams in Hg as [Hk' Hm].
  split; [now rewrite Hk, Hk', Hkeys|]. split; [|assumption].
  rewrite <- Hr in Hm. rewrite <- Hr in Hk. clear -Hk Hm.
  induction (teams snap') as [|x l IH]; [constructor|].
  cbn [map] in Hk, Hm. injection Hk as Hx Hl. apply List.Forall_cons_iff in Hm as [Hm1 Hm2].
  constructor; [split; [now symmetry | exact Hm1] | now apply IH].
Qed.

Lemma storeLive_shaped (live : list LiveGame) (now : Z) (s : Server) :
  (forall snap, cachedData s = Some snap -> shaped snap) ->
  forall snap, cachedData (storeLive live now s) = Some snap -> shaped snap.
Proof.
  intros H snap. unfold storeLive. destruct (cachedData s) as [old|] eqn:E; [|now rewrite E].
  cbn. intros [= <-]. exact (H old eq_refl).
Qed.

Lemma step_shaped (env : Env) (hops : nat) (y : Sys) (a : Action) :
  shapedSys y -> shapedSys (step env hops y a).
Proof.
  intros [Hs Hc]. destruct a as [| | |reqUrl]; cbn [step].
  - unfold startCycle, refreshBegin.
    destruct (isRefreshing (srv y)); [now split|].
    destruct (refreshTry env (world y)) as [r w'] eqn:E. split; cbn [srv cycles].
    + exact Hs.
    + apply Forall_app. split; [exact Hc|]. constructor; [|constructor].
      intros snap ->. exact (refreshTry_shaped env _ _ _ E).
  - destruct (cycles y) as [|r rest] eqn:E; [split; [exact Hs | now rewrite E]|].
    apply List.Forall_cons_iff in Hc as [Hr Hrest]. split; cbn [srv cycles]; [|exact Hrest].
    intros snap. destruct r as [new|msg]; cbn.
    + intros [= <-]. now apply Hr.
    + apply Hs.
  - unfold refreshLiveOnly.
    destruct (catch _ _ (world y)) as [[live|msg] w']; split; cbn [srv cycles];
      try assumption.
    now apply storeLive_shaped.
  - pose proof (server_frame env hops reqUrl (srv y) (world y)) as [Hd _].
    destruct (server env hops reqUrl (srv y) (world y)) as [[reply s'] w'].
    cbn [fst snd] in Hd.
    destruct (negb (isRefreshing (srv y)) && isRefreshing s').
    + destruct (refreshTry env w') as [r w''] eqn:E. split; cbn [srv cycles].
      * now rewrite Hd.
      * apply Forall_app. split; [exact Hc|]. constructor; [|constructor].
        intros snap ->. exact (refreshTry_shaped env _ _ _ E).
    + split; cbn [srv cycles]; [now rewrite Hd | exact Hc].
Qed.

(** X5: whatever the process has done since its start, the snapshot it
    serves, when it has one, holds the three tracked teams, in the order of
    [TEAMS], each under its own key and with at most 50 matches, and
    carries [TEAMS] as its team configuration. *)
Theorem served_snapshot_shape (env : Env) (hops : nat) (actions : list Action) :
  match cachedData (srv (run env hops actions boot)) with
  | Some snap =>
      map fst (teams snap) = ["xg"; "yb"; "vg"] /\
      Forall (fun e => key (result (snd e)) = fst e /\
                       (length (matches (result (snd e))) <= 50)%nat) (teams snap) /\
      teamConfig snap = TEAMS
  | None => True
  end.
Proof.
  assert (H : forall y, shapedSys y -> shapedSys (run env hops actions y)).
  { unfold run. induction actions as [|a actions IH]; intros y Hy; [exact Hy|].
    cbn [fold_left]. apply IH. now apply step_shaped. }
  destruct (H boot) as [Hs _]; [split; [discriminate | constructor]|].
  destruct (cachedData (srv (run env hops actions boot))) as [snap|]; [|exact I].
  exact (Hs snap eq_refl).
Qed.

(** *** The requests of a cycle to the stats API *)

Lemma stats_request (env : Env) (ev : Event) (w : World) :
  statsRequests (request env ev w) =
  ((if isStatsRequest ev then 1 else 0) + statsRequests w)%nat.
Proof.
  unfold statsRequests, request. cbn [trace]. rewrite List.filter_app, List.length_app.
  cbn [List.filter]. destruct (isStatsRequest ev); cbn [length]; lia.
Qed.

Lemma stats_sleep (ms : Z) (w : World) : statsRequests (snd (sleep ms w)) = statsRequests w.
Proof.
  unfold statsRequests, sleep. cbn [snd trace]. rewrite List.filter_app, List.length_app.
  cbn. lia.
Qed.

Lemma retryFrom_stats (env : Env) {A} (e : Endpoint A) (left : nat) :
  forall i w,
  (statsRequests w < statsRequests (snd (retryFrom env e i left w))
   <= statsRequests w + S left)%nat.
Proof.
  induction left as [|left IH]; intros i w.
  - rewrite retryFrom_last. cbn [snd]. rewrite stats_request. cbn. lia.
  - destruct (fetchJSON_answer env A (requests w) e) as [x|msg] eqn:E.
    + rewrite (retryFrom_resolved _ _ _ _ _ _ E). cbn [snd]. rewrite stats_request. cbn. lia.
    + rewrite (retryFrom_rejected _ _ _ _ _ _ E).
      specialize (IH (S i) (snd (sleep (1000 * (Z.of_nat i + 1))
                  (request env (EvFetchJSON (fetchURL env (path e))) w)))).
      rewrite stats_sleep, stats_request in IH. cbn [isStatsRequest] in IH. lia.
Qed.

Lemma fetchWithRetry_stats (env : Env) {A} (e : Endpoint A) (w : World) :
  (statsRequests w < statsRequests (snd (fetchWithRetry env e w)) <= statsRequests w + 3)%nat.
Proof. apply (retryFrom_stats env e 2 0%nat w). Qed.

Lemma rosterOf_stats (env : Env) (names : gmap Z string) (t : TeamResult) (w : World) :
  (statsRequests w <= statsRequests (snd (rosterOf env names t w)) <= statsRequests w + 3)%nat.
Proof.
  unfold rosterOf. destruct (negb (teamDefined (key t))); [cbn [throw snd]; lia|].
  destruct (matches t) as [|recent rest]; [cbn [mret Net_ret snd]; lia|].
  unfold catch, mbind, Net_bind.
  pose proof (fetchWithRetry_stats env (EpMatch (match_id recent)) w) as H.
  destruct (fetchWithRetry env (EpMatch (match_id recent)) w) as [[detail|msg] w'];
    cbn [snd] in H; [|cbn [mret Net_ret snd]; lia].
  destruct detail as [[[ps|]]|]; cbn in *; lia.
Qed.

Lemma rostersLoop_stats (env : Env) (names : gmap Z string) (ts : list TeamResult) :
  forall (acc : gmap string (list RosterEntry.t)) (w : World),
  (statsRequests w <= statsRequests (snd (rostersLoop env names ts acc w))
   <= statsRequests w + 3 * length ts)%nat.
Proof.
  induction ts as [|t ts IH]; intros acc w.
  - cbn [rostersLoop mret Net_ret snd length]. lia.
  - cbn [rostersLoop]. unfold mbind, Net_bind.
    pose proof (rosterOf_stats env names t w) as Hc.
    destruct (rosterOf env names t w) as [[r|msg] w1]; cbn [snd] in Hc |- *.
    + specialize (IH (<[key t := r]> acc) w1). cbn [length]. lia.
    + cbn [length]. lia.
Qed.

Lemma runTeam_stats (env : Env) (team : string * TeamConfig) (w : World) :
  (statsRequests w + 4 <= statsRequests (snd (runTeam env team w)) <= statsRequests w + 12)%nat.
Proof.
  unfold runTeam.
  pose proof (fetchWithRetry_stats env (EpTeam (team_id (snd team))) w) as H1.
  destruct (fetchWithRetry env (EpTeam (team_id (snd team))) w) as [i w1].
  pose proof (fetchWithRetry_stats env (EpTeamMatches (team_id (snd team))) w1) as H2.
  destruct (fetchWithRetry env (EpTeamMatches (team_id (snd team))) w1) as [m w2].
  pose proof (fetchWithRetry_stats env (EpTeamPlayers (team_id (snd team))) w2) as H3.
  destruct (fetchWithRetry env (EpTeamPlayers (team_id (snd team))) w2) as [p w3].
  pose proof (fetchWithRetry_stats env (EpTeamHeroes (team_id (snd team))) w3) as H4.
  destruct (fetchWithRetry env (EpTeamHeroes (team_id (snd team))) w3) as [h w4].
  cbn [fst snd] in *. lia.
Qed.

Lemma runTeams_stats (env : Env) (teams : list (string * TeamConfig)) :
  forall w,
  (statsRequests w + 4 * length teams <= statsRequests (snd (runTeams env teams w))
   <= statsRequests w + 12 * length teams)%nat.
Proof.
  induction teams as [|t teams IH]; intros w; cbn [runTeams].
  - cbn [snd length]. lia.
  - pose proof (runTeam_stats env t w) as Hc.
    destruct (runTeam env t w) as [x w1].
    specialize (IH w1). destruct (runTeams env teams w1) as [xs w2].
    cbn [fst snd length] in *. lia.
Qed.

Lemma fanOut_stats (env : Env) (w : World) :
  (statsRequests w + 15 <= statsRequests (snd (fanOut env w)) <= statsRequests w + 45)%nat.
Proof.
  unfold fanOut.
  pose proof (runTeams_stats env TEAMS w) as Hc.
  destruct (runTeams env TEAMS w) as [ts w1].
  pose proof (fetchWithRetry_stats env EpHeroStats w1) as H1.
  destruct (fetchWithRetry env EpHeroStats w1) as [hs w2].
  pose proof (fetchWithRetry_stats env EpLive w2) as H2.
  destruct (fetchWithRetry env EpLive w2) as [lv w3].
  pose proof (fetchWithRetry_stats env EpProPlayers w3) as H3.
  destruct (fetchWithRetry env EpProPlayers w3) as [pp w4].
  cbn [fst snd] in *. change (length TEAMS) with 3%nat in Hc. lia.
Qed.

(** X6: what a refresh cycle asks of the stats API.  Its [try] block
    sends the stats API at least the 15 requests of the fan-out (four for
    each team, [/heroStats], [/live] and [/proPlayers]) and at most 54:
    three attempts for each of those, and three attempts for the match
    picked for the roster of each team.  The requests to the wiki, that for
    the page and those of its redirects, are not counted. *)
Theorem refresh_request_budget (env : Env) (w : World) :
  let sent := fun w' : World =>
    length (List.filter (fun ev => match ev with EvFetchJSON _ => true | _ => false end)
              (trace w')) in
  (sent w + 15 <= sent (snd (refreshTry env w)) <= sent w + 54)%nat.
Proof.
  intros sent.
  change (statsRequests w + 15 <= statsRequests (snd (refreshTry env w))
          <= statsRequests w + 54)%nat.
  clear sent.
  rewrite refreshTry_unfold.
  pose proof (fanOut_spec env w) as [Hkeys _].
  pose proof (fanOut_stats env w) as Hc.
  destruct (gather (fst (fanOut env w))) as [g|msg] eqn:Hg;
    [|rewrite (settleCycle_rejected env _ msg _ Hg); cbn [snd]; lia].
  pose proof (gather_teams _ _ Hg) as Ht. apply allSettled_teams in Ht as [Hk _].
  assert (Hlen : length (g_teamResults g) = 3%nat).
  { rewrite <- (length_map key), Hk, Hkeys. reflexivity. }
  unfold settleCycle, mbind, Net_bind, ofOutcome. rewrite Hg.
  pose proof (rostersLoop_stats env (proNameMapOf (g_proPlayers g)) (g_teamResults g)
                ∅ (snd (fanOut env w))) as Hr.
  unfold buildCurrentRosters.
  destruct (rostersLoop env (proNameMapOf (g_proPlayers g)) (g_teamResults g) ∅
              (snd (fanOut env w))) as [[rosters|msg] w1]; cbn [snd] in Hr |- *; [|lia].
  unfold catch. destruct (fetchUpcoming_once env w1) as [up Hup].
  pose proof (f_equal (fun p => statsRequests (snd p)) Hup) as Hq. cbn [snd] in Hq.
  rewrite stats_request in Hq. cbn [isStatsRequest] in Hq.
  destruct (fetchUpcoming env w1) as [[u|m] w2]; cbn [snd] in Hq;
    cbn [dateNow mret Net_ret snd]; lia.
Qed.

Lemma refreshEnd_keeps_snapshot (r : Outcome Snapshot) (s : Server) :
  is_Some (cachedData s) -> is_Some (cachedData (refreshEnd r s)).
Proof. destruct r as [snap|msg]; cbn; eauto. Qed.

Lemma step_keeps_snapshot (env : Env) (hops : nat) (y : Sys) (a : Action) :
  is_Some (cachedData (srv y)) -> is_Some (cachedData (srv (step env hops y a))).
Proof.
  intros H. destruct a as [| | |reqUrl]; cbn [step].
  - unfold startCycle, refreshBegin.
    destruct (isRefreshing (srv y)); [exact H|].
    destruct (refreshTry env (world y)) as [r w']. cbn. exact H.
  - destruct (cycles y) as [|r rest]; [exact H|]. now apply refreshEnd_keeps_snapshot.
  - unfold refreshLiveOnly.
    destruct (catch _ _ (world y)) as [[live|msg] w']; cbn [srv]; [|exact H].
    unfold storeLive. destruct H as [snap ->]. cbn. eauto.
  - pose proof (server_frame env hops reqUrl (srv y) (world y)) as [Hc _].
    destruct (server env hops reqUrl (srv y) (world y)) as [[reply s'] w'].
    cbn [fst snd] in Hc.
    destruct (negb (isRefreshing (srv y)) && isRefreshing s');
      [destruct (refreshTry env w') as [r w'']|]; cbn [srv]; now rewrite Hc.
Qed.

(** *** The process as long as it lives *)

Lemma handlerThrows_spec (env : Env) (reqUrl : string) :
  handlerThrows env reqUrl = true <->
  exists c u,
    default "" (head (JS.split reqUrl "?")) = "/api/img" /\
    imgUrlOf reqUrl = Some (String c u) /\
    decodeURIComponent env (String c u) = None.
Proof.
  unfold handlerThrows. split.
  - intros H. apply andb_true_iff in H as [Hp Hd]. apply String.eqb_eq in Hp.
    destruct (imgUrlOf reqUrl) as [[|c u]|]; try discriminate.
    destruct (decodeURIComponent env (String c u)) eqn:E; [discriminate|].
    exists c, u. auto.
  - intros (c & u & Hp & -> & ->). rewrite Hp. reflexivity.
Qed.

Lemma runLive_ended (env : Env) (hops : nat) (actions : list Action) :
  fold_left (stepLive env hops) actions None = None.
Proof. induction actions as [|a actions IH]; [reflexivity | exact IH]. Qed.

Lemma runLive_spec (env : Env) (hops : nat) (actions : list Action) :
  forall y,
  (runLive env hops actions y = None <->
   Exists (fun a => exists reqUrl, a = Request reqUrl /\ handlerThrows env reqUrl = true)
     actions) /\
  (forall y', runLive env hops actions y = Some y' -> y' = run env hops actions y).
Proof.
  unfold runLive, run. induction actions as [|a actions IH]; intros y; cbn [fold_left].
  - split; [split; [discriminate | intros H; inversion H] | now intros y' [= <-]].
  - destruct (stepLive env hops (Some y) a) as [y1|] eqn:E.
    + assert (Hy : y1 = step env hops y a).
      { destruct a as [| | |reqUrl]; cbn [stepLive] in E; try (now injection E as <-).
        destruct (handlerThrows env reqUrl); [discriminate | now injection E as <-]. }
      subst y1. destruct (IH (step env hops y a)) as [IH1 IH2]. split; [|exact IH2].
      rewrite IH1. split; [now right|].
      intros H. apply List.Exists_cons in H as [(reqUrl & -> & Ht)|H]; [|exact H].
      cbn [stepLive] in E. now rewrite Ht in E.
    + rewrite runLive_ended. split; [|discriminate]. split; [|reflexivity]. intros _. left.
      destruct a as [| | |reqUrl]; cbn [stepLive] in E; try discriminate.
      exists reqUrl. split; [reflexivity|].
      now destruct (handlerThrows env reqUrl).
Qed.

(** X7: as long as the process lives, it never loses a snapshot it has.
    The process ends with a request of [/api/img] whose parameter is not
    empty and cannot be decoded, and with nothing else the timers and the
    requests do.  Whatever these do until then, and however the refresh
    cycles end, [cachedData] stays set, and [/api/data] is answered with
    status 200. *)
Theorem snapshot_never_dropped (env : Env) (hops : nat) (actions : list Action) (y : Sys) :
  is_Some (cachedData (srv y)) ->
  (runLive env hops actions y = None <->
   Exists (fun a => exists reqUrl c u,
             a = Request reqUrl /\
             default "" (head (JS.split reqUrl "?")) = "/api/img" /\
             imgUrlOf reqUrl = Some (String c u) /\
             decodeURIComponent env (String c u) = None) actions) /\
  (forall y', runLive env hops actions y = Some y' ->
     y' = run env hops actions y /\
     is_Some (cachedData (srv y')) /\
     statusCode (serveData (srv y')) = 200).
Proof.
  intros H. destruct (runLive_spec env hops actions y) as [Hn Hr]. split.
  - rewrite Hn. split; apply List.Exists_impl; intros a.
    + intros (reqUrl & -> & Ht). apply handlerThrows_spec in Ht as (c & u & Ht).
      exists reqUrl, c, u. tauto.
    + intros (reqUrl & c & u & -> & Ht). exists reqUrl. split; [reflexivity|].
      apply handlerThrows_spec. exists c, u. exact Ht.
  - intros y' Hy. apply Hr in Hy. subst y'. split; [reflexivity|].
    assert (Hs : is_Some (cachedData (srv (run env hops actions y)))).
    { unfold run. clear Hn Hr. revert y H.
      induction actions as [|a actions IH]; intros y H; [exact H|].
      cbn [fold_left]. apply IH. now apply step_keeps_snapshot. }
    split; [exact Hs|]. unfold serveData. destruct Hs as [snap ->]. reflexivity.
Qed.

(** The statement at work: the server of the sample, while every request to
    OpenDota fails. *)
Lemma snapshot_never_dropped_witness :
  let env := Sample.envWith (fun _ => true) in
  let actions := [CallRefresh; LiveTick; FinishCycle; Request "/api/refresh"; FinishCycle] in
  let y := {| srv := Sample.serving; world := world0; cycles := [] |} in
  is_Some (cachedData (srv y)) /\
  is_Some (cachedData (srv (run env 0 actions y))) /\
  statusCode (serveData (srv (run env 0 actions y))) = 200.
Proof.
  intros env actions y.
  assert (H : is_Some (cachedData (srv y))) by (eexists; reflexivity).
  split; [exact H|].
  exact (proj2 (proj2 (snapshot_never_dropped env 0 actions y H)
                  (run env 0 actions y) eq_refl)).
Defined.

Lemma liveMatchesOf_tracked (live : option (list LiveGame)) :
  liveMatchesOf live =
  List.filter (fun m =>
     let tracked := fun i : JsId =>
       match i with
       | IdNum n => (n =? 8261500) || (n =? 9351740) || (n =? 726228)
       | IdUndefined | IdNull => false
       end in
     tracked (radiant_team_id m) || tracked (dire_team_id m)) (default [] live).
Proof.
  unfold liveMatchesOf. apply List.filter_ext. intros m. cbn zeta.
  assert (E : forall i, isOurId i =
            match i with
            | IdNum n => (n =? 8261500) || (n =? 9351740) || (n =? 726228)
            | IdUndefined | IdNull => false
            end).
  { intros [| |n]; try reflexivity. unfold isOurId, TEAMS. cbn [existsb snd team_id].
    rewrite (Z.eqb_sym 8261500), (Z.eqb_sym 9351740), (Z.eqb_sym 726228).
    now rewrite orb_false_r, orb_assoc. }
  now rewrite !E.
Qed.

(** X8: what the live-only refresh stores, for an answer of [/live] that
    is [null] or a list of games.  With a snapshot in place it sets
    [liveMatches] to the games of the answer in which the radiant or the
    dire team has the id of a tracked team (8261500, 9351740 or 726228), in
    the order of the answer, or to the empty list when [/live] fails after
    its attempts, and [liveUpdated] to the time at the end of the request;
    the rest of the snapshot stays, and no request is sent but those of
    [/live]. *)
Theorem live_refresh_result (env : Env) (s : Server) (w : World) (snap : Snapshot) :
  cachedData s = Some snap ->
  let r := fetchWithRetry env EpLive w in
  let tracked := fun i : JsId =>
    match i with
    | IdNum n => (n =? 8261500) || (n =? 9351740) || (n =? 726228)
    | IdUndefined | IdNull => false
    end in
  snd (refreshLiveOnly env s w) = snd r /\
  exists snap',
    cachedData (fst (refreshLiveOnly env s w)) = Some snap' /\
    liveMatches snap' =
      match fst r with
      | Resolved live =>
          List.filter (fun m => tracked (radiant_team_id m) || tracked (dire_team_id m))
            (default [] live)
      | Rejected _ => []
      end /\
    liveUpdated snap' = Some (clock (snd r)) /\
    teams snap' = teams snap /\ heroMap snap' = heroMap snap /\
    upcoming snap' = upcoming snap /\ teamConfig snap' = teamConfig snap /\
    lastUpdated snap' = lastUpdated snap.
Proof.
  intros Hs r tracked. unfold refreshLiveOnly, catch. subst r.
  destruct (fetchWithRetry env EpLive w) as [[live|msg] w']; cbn [fst snd mret Net_ret];
    unfold storeLive; rewrite Hs; (split; [reflexivity|]); eexists;
    (split; [reflexivity|]); cbn [liveMatches liveUpdated teams heroMap upcoming
                                   teamConfig lastUpdated];
    (split; [|repeat split]).
  - apply liveMatchesOf_tracked.
  - reflexivity.
Qed.

(** The statement at work: [/live] is down, and the list of the sample
    snapshot is emptied. *)
Lemma live_refresh_witness :
  exists snap',
    cachedData (fst (refreshLiveOnly (Sample.envWith (fun _ => true)) Sample.serving world0))
      = Some snap' /\
    liveMatches snap' = [] /\
    liveUpdated snap' = Some 3300.
Proof.
  destruct (live_refresh_result (Sample.envWith (fun _ => true)) Sample.serving world0
              Sample.snapshot eq_refl) as (_ & snap' & H1 & H2 & H3 & _).
  exists snap'. split; [exact H1|]. split; [exact H2 | exact H3].
Defined.

(** The snapshot after a live-only refresh, with what it keeps. *)
Lemma live_refresh_spec (env : Env) (s : Server) (w : World) (snap : Snapshot) :
  cachedData s = Some snap ->
  exists snap',
    cachedData (fst (refreshLiveOnly env s w)) = Some snap' /\
    liveMatches snap' = match fst (fetchWithRetry env EpLive w) with
                        | Resolved live => liveMatchesOf live
                        | Rejected _ => []
                        end /\
    teams snap' = teams snap /\
    lastUpdated snap' = lastUpdated snap.
Proof.
  intros Hs. unfold refreshLiveOnly, catch.
  destruct (fetchWithRetry env EpLive w) as [[live|msg] w']; cbn [fst snd mret Net_ret];
    unfold storeLive; rewrite Hs; eexists; (split; [reflexivity|]); cbn; auto.
Qed.

(** ** [server.js]: the two caches, read after write *)

Lemma freshHeroes_hit (now : Z) (c : HeroCacheEntry) :
  now - hc_timestamp c < 30 * 60 * 1000 -> freshHeroes now (Some c) = Some (hc_data c).
Proof.
  intros H. unfold freshHeroes. change HERO_TTL with (30 * 60 * 1000).
  apply Z.ltb_lt in H. now rewrite H.
Qed.

(** X9: what [getPlayerHeroes] has returned it returns again.  After a call
    that gave a list of heroes, the cache holds an entry of that player with
    that list; when the call found no entry, the entry has the time at which
    the call ended; and as long as less than 30 minutes have passed since the
    time of the entry, every later call for that player gives the same list
    without a request, whatever the stats API would answer.  The entries of
    the other players are as they were. *)
Theorem hero_cache_read_after_write (env : Env) (accountId : Z) (s s1 : Server)
    (w w1 : World) (heroes : list HeroStat.t) :
  getPlayerHeroes env accountId s w = (Resolved heroes, s1, w1) ->
  exists c,
    playerHeroCache s1 !! accountId = Some c /\
    hc_data c = heroes /\
    (playerHeroCache s !! accountId = None -> hc_timestamp c = clock w1) /\
    (forall env' w2, clock w2 - hc_timestamp c < 30 * 60 * 1000 ->
       getPlayerHeroes env' accountId s1 w2 = (Resolved heroes, s1, w2)) /\
    (forall other, other <> accountId ->
       playerHeroCache s1 !! other = playerHeroCache s !! other).
Proof.
  unfold getPlayerHeroes at 1.
  destruct (freshHeroes (clock w) (playerHeroCache s !! accountId)) as [data|] eqn:Hf.
  - intros [= <- <- <-]. unfold freshHeroes in Hf.
    destruct (playerHeroCache s !! accountId) as [c|] eqn:Hc; [|discriminate].
    destruct (clock w - hc_timestamp c <? HERO_TTL); [|discriminate].
    injection Hf as <-. exists c. split; [reflexivity|]. split; [reflexivity|].
    split; [discriminate|]. split; [|reflexivity].
    intros env' w2 Hlt. unfold getPlayerHeroes.
    now rewrite Hc, (freshHeroes_hit _ _ Hlt).
  - destruct (fetchWithRetry env (EpPlayerHeroes accountId) w) as [[data|msg] w'];
      [|discriminate].
    intros [= <- <- <-]. eexists. cbn [playerHeroCache setPlayerHeroCache].
    split; [apply lookup_insert_eq|]. split; [reflexivity|]. split; [reflexivity|].
    split.
    + intros env' w2 Hlt. unfold getPlayerHeroes.
      cbn [playerHeroCache setPlayerHeroCache].
      now rewrite lookup_insert_eq, (freshHeroes_hit _ _ Hlt).
    + intros other Hne. now apply lookup_insert_ne.
Qed.

(** The statement at work: the heroes of player 111, asked for twice. *)
Lemma hero_cache_witness :
  exists heroes s1 w1,
    getPlayerHeroes (Sample.envWith (fun _ => false)) 111 initial world0
      = (Resolved heroes, s1, w1) /\
    getPlayerHeroes (Sample.envWith (fun _ => true)) 111 s1 w1 = (Resolved heroes, s1, w1).
Proof.
  do 3 eexists. split; [vm_compute; reflexivity|].
  destruct (hero_cache_read_after_write (Sample.envWith (fun _ => false)) 111 initial _
              world0 _ _ eq_refl) as (c & Hc & _ & Ht & Hread & _).
  apply Hread. rewrite (Ht eq_refl). vm_compute. reflexivity.
Defined.




(** ** [server.js]: the routes of the players and of the manual refresh *)

Lemma lacks_append (c : ascii) (a b : string) :
  lacks c (a +:+ b) = lacks c a && lacks c b.
Proof.
  induction a as [|x a IH]; [reflexivity|].
  rewrite append_cons. cbn [lacks]. now rewrite IH, andb_assoc.
Qed.

Lemma allDigits_lacks (c : ascii) (d : string) :
  JS.isDigit c = false -> allDigits d = true -> lacks c d = true.
Proof.
  intros Hc. induction d as [|x d IH]; cbn [allDigits lacks]; [reflexivity|].
  intros H. apply andb_prop in H as [Hx Hd]. rewrite (IH Hd), andb_true_r.
  destruct (Ascii.eqb x c) eqn:E; [|reflexivity].
  apply Ascii.eqb_eq in E. congruence.
Qed.

Lemma uint_allDigits (d : Decimal.uint) : allDigits (NilEmpty.string_of_uint d) = true.
Proof. induction d; cbn [NilEmpty.string_of_uint allDigits]; [reflexivity|..]; exact IHd. Qed.

Lemma digits_run (d rest : string) :
  allDigits d = true -> Scrape.digits rest = ("", rest) ->
  Scrape.digits (d +:+ rest) = (d, rest).
Proof.
  intros Hd Hr. induction d as [|x d IH]; [exact Hr|].
  cbn [allDigits] in Hd. apply andb_prop in Hd as [Hx Hd].
  rewrite append_cons. cbn [Scrape.digits]. now rewrite Hx, (IH Hd).
Qed.

Lemma digitsValue_uint (d : Decimal.uint) :
  forall acc, JS.digitsValue (Zpos acc) (NilEmpty.string_of_uint d) = Zpos (Pos.of_uint_acc d acc).
Proof.
  induction d; intros acc; cbn [NilEmpty.string_of_uint JS.digitsValue Pos.of_uint_acc];
    [reflexivity|..].
  all: rewrite <- IHd; f_equal.
  all: match goal with |- context [JS.code ?c] =>
         let v := eval vm_compute in (Z.of_nat (JS.code c - 48)) in
         change (Z.of_nat (JS.code c - 48)) with v end; lia.
Qed.

Lemma digitsValue_uint0 (d : Decimal.uint) :
  JS.digitsValue 0 (NilEmpty.string_of_uint d) = Z.of_N (Pos.of_uint d).
Proof.
  induction d; cbn [NilEmpty.string_of_uint JS.digitsValue Pos.of_uint];
    [reflexivity | exact IHd |..].
  all: match goal with |- context [JS.code ?c] =>
         let v := eval vm_compute in (10 * 0 + Z.of_nat (JS.code c - 48)) in
         change (10 * 0 + Z.of_nat (JS.code c - 48)) with v end.
  all: rewrite digitsValue_uint; reflexivity.
Qed.

(** [parseInt] reads back what [String] prints. *)
Lemma parseInt_ofZ (n : Z) : 0 <= n -> JS.parseInt (JS.ofZ n) = n.
Proof.
  intros Hn. destruct n as [|p|p]; [reflexivity| |lia].
  unfold JS.parseInt, JS.ofZ. rewrite digitsValue_uint0.
  now rewrite DecimalPos.Unsigned.of_to.
Qed.

Lemma ofZ_allDigits (n : Z) : 0 <= n -> allDigits (JS.ofZ n) = true.
Proof.
  intros Hn. destruct n as [|p|p]; [reflexivity| |lia]. apply uint_allDigits.
Qed.

Lemma playerMatch_ofZ (n : Z) :
  0 <= n -> playerMatch ("/api/player/" +:+ JS.ofZ n +:+ "/heroes") = Some (JS.ofZ n).
Proof.
  intros Hn. unfold playerMatch. rewrite stripPrefix_append.
  unfold mbind, option_bind.
  rewrite (digits_run (JS.ofZ n) "/heroes" (ofZ_allDigits n Hn) eq_refl).
  pose proof (ofZ_nonempty n) as Hl.
  destruct (JS.ofZ n) as [|c d]; [cbn in Hl; lia | reflexivity].
Qed.

(** X11: the address the page asks for the heroes of a player,
    [/api/player/<id>/heroes] with the id printed in decimal, reaches
    [getPlayerHeroes] with that id, for every id from 0 up to the largest
    integer a number holds exactly: the reply is 200 with the heroes when
    the call gives them and 500 with the message of the error when it
    fails. *)
Theorem player_route (env : Env) (hops : nat) (accountId : Z) (s : Server) (w : World) :
  0 <= accountId < 2 ^ 53 ->
  server env hops ("/api/player/" +:+ JS.ofZ accountId +:+ "/heroes") s w =
  match getPlayerHeroes env accountId s w with
  | (Resolved heroes, s', w') =>
      (Replied {| statusCode := 200; responseType := Some "application/json";
                  body := BodyHeroes heroes |}, s', w')
  | (Rejected msg, s', w') =>
      (Replied {| statusCode := 500; responseType := Some "application/json";
                  body := BodyError msg |}, s', w')
  end.
Proof.
  intros [Hn _]. unfold server.
  assert (Hq : lacks "?" ("/api/player/" +:+ JS.ofZ accountId +:+ "/heroes") = true).
  { rewrite !lacks_append, (allDigits_lacks "?" _ eq_refl (ofZ_allDigits _ Hn)).
    reflexivity. }
  rewrite (split_char_none _ _ Hq). cbn [head default from_option]. unfold Datatypes.id.
  replace (String.eqb _ "/api/data") with false by reflexivity.
  now rewrite (playerMatch_ofZ _ Hn), (parseInt_ofZ _ Hn).
Qed.

(** The statement at work: player 111 while the stats API is down. *)
Lemma player_route_witness :
  fst (fst (server (Sample.envWith (fun _ => true)) 0 "/api/player/111/heroes"
             initial world0))
  = Replied {| statusCode := 500; responseType := Some "application/json";
               body := BodyError "Rate limited" |}.
Proof.
  assert (H : 0 <= 111 < 2 ^ 53) by (split; [lia | reflexivity]).
  exact (f_equal (fun o => fst (fst o))
           (player_route (Sample.envWith (fun _ => true)) 0 111 initial world0 H)).
Defined.

(** X12: the route [/api/refresh].  The reply is 200 with the status
    [refresh started] whether or not a cycle is running.  While a cycle is
    running, the request starts nothing: the process is as it was.
    Otherwise it raises the flag and puts one cycle in flight, after those
    already there.  In either case the flag is up after the request and the
    snapshot is the one before it. *)
Theorem manual_refresh (env : Env) (hops : nat) (reqUrl : string) (y : Sys) :
  default "" (head (JS.split reqUrl "?")) = "/api/refresh" ->
  let y' := step env hops y (Request reqUrl) in
  fst (fst (server env hops reqUrl (srv y) (world y))) =
    Replied {| statusCode := 200; responseType := Some "application/json";
               body := BodyStatus "refresh started" |} /\
  isRefreshing (srv y') = true /\
  cachedData (srv y') = cachedData (srv y) /\
  (isRefreshing (srv y) = true -> y' = y) /\
  (isRefreshing (srv y) = false ->
     srv y' = setRefreshing true (srv y) /\
     cycles y' = cycles y ++ [fst (refreshTry env (world y))] /\
     world y' = snd (refreshTry env (world y))).
Proof.
  intros Hroute y'. unfold y'. cbn [step]. unfold server. rewrite Hroute.
  replace (String.eqb "/api/refresh" "/api/data") with false by reflexivity.
  replace (playerMatch "/api/refresh") with (@None string) by reflexivity.
  replace (String.eqb "/api/refresh" "/api/img") with false by reflexivity.
  replace (String.eqb "/api/refresh" "/api/refresh") with true by reflexivity.
  cbn [fst]. split; [reflexivity|].
  unfold refreshBegin. destruct y as [s w c]. cbn [srv world cycles].
  destruct (isRefreshing s) eqn:Hf; cbn [default from_option negb andb].
  - cbn. split; [exact Hf|]. split; [reflexivity|].
    split; [reflexivity | discriminate].
  - unfold Datatypes.id. cbn [isRefreshing setRefreshing negb andb].
    destruct (refreshTry env w) as [r w']. cbn.
    split; [reflexivity|]. split; [reflexivity|]. split; [discriminate|].
    intros _. split; [reflexivity|]. split; reflexivity.
Qed.

(** The statement at work: two requests in a row at start-up. *)
Lemma manual_refresh_witness :
  let env := Sample.envWith (fun _ => false) in
  let y1 := step env 0 boot (Request "/api/refresh") in
  length (cycles y1) = 1%nat /\ step env 0 y1 (Request "/api/refresh?again") = y1.
Proof.
  intros env y1. split; [reflexivity|].
  refine (proj1 (proj2 (proj2 (proj2
    (manual_refresh env 0 "/api/refresh?again" y1 _)))) _); vm_compute; reflexivity.
Defined.

(** ** [server.js]: the entries of the scraper *)

Lemma firstMatch_some {R} (f : string -> option R) (s : string) (r : R) :
  Scrape.firstMatch f s = Some r -> exists s', f s' = Some r.
Proof.
  induction s as [|c s IH]; cbn [Scrape.firstMatch].
  - destruct (f "") as [x|] eqn:E; [|discriminate]. intros [= <-]. eauto.
  - destruct (f (String c s)) as [x|] eqn:E; [intros [= <-]; eauto | exact IH].
Qed.

Lemma existsb_eqb_false (t : string) (names : list string) :
  existsb (String.eqb t) names = false -> ~ In t names.
Proof.
  intros H Hin. assert (Ht : existsb (String.eqb t) names = true).
  { apply existsb_exists. exists t. split; [exact Hin | apply String.eqb_refl]. }
  congruence.
Qed.

(** What the loop over the team links keeps true of [teamNames]: the names
    are distinct, and each has from 2 to 39 characters and neither a slash
    nor a hash sign. *)
Lemma teamNames_inv (ms : list (string * string)) :
  forall acc : list string * gmap string string,
  NoDup (fst acc) /\
  Forall (fun t => JS.includes t "/" = false /\ JS.includes t "#" = false /\
                   (2 <= JS.len t < 40)%nat) (fst acc) ->
  NoDup (fst (fold_left Scrape.addTeam ms acc)) /\
  Forall (fun t => JS.includes t "/" = false /\ JS.includes t "#" = false /\
                   (2 <= JS.len t < 40)%nat) (fst (fold_left Scrape.addTeam ms acc)).
Proof.
  induction ms as [|m ms IH]; intros acc Hacc; cbn [fold_left]; [exact Hacc|].
  apply IH. destruct acc as [names logos]. destruct Hacc as [Hnd Hall].
  cbn [fst] in *. unfold Scrape.addTeam.
  destruct (JS.includes (JS.trim (fst m)) "/") eqn:H1; [now split|].
  destruct (JS.includes (JS.trim (fst m)) "#") eqn:H2; [now split|].
  cbn [orb].
  destruct ((2 <=? JS.len (JS.trim (fst m))) && (JS.len (JS.trim (fst m)) <? 40))%nat
    eqn:H3; [|now split].
  apply andb_prop in H3 as [H3 H4]. apply Nat.leb_le in H3. apply Nat.ltb_lt in H4.
  cbn [fst].
  destruct (existsb (String.eqb (JS.trim (fst m))) names) eqn:He; [now split|].
  apply existsb_eqb_false in He. split.
  - apply NoDup_app. split; [exact Hnd|]. split; [|apply NoDup_singleton].
    intros x Hx Hx'. apply list_elem_of_In in Hx, Hx'.
    destruct Hx' as [<-|[]]. contradiction.
  - apply Forall_app. split; [exact Hall|]. constructor; [|constructor]. auto.
Qed.

Lemma teamNames_good (block : string) :
  NoDup (Scrape.teamNamesOf block) /\
  Forall (fun t => JS.includes t "/" = false /\ JS.includes t "#" = false /\
                   (2 <= JS.len t < 40)%nat) (Scrape.teamNamesOf block).
Proof.
  unfold Scrape.teamNamesOf, Scrape.teamsOfBlock. apply teamNames_inv.
  split; constructor.
Qed.

Lemma round_thrown (fragment : string) (now : Z) :
  Scrape.round fragment now = Scrape.Thrown <->
  exists k cfg ts,
    (2 <= length (Scrape.teamNamesOf (Scrape.blockOf fragment)))%nat /\
    Scrape.ourKeyOf (Scrape.teamNamesOf (Scrape.blockOf fragment)) = Some k /\
    teamOf k TEAMS = Some cfg /\
    Scrape.extractTimestamp (Scrape.blockOf fragment) = Some ts /\
    8640000000000 < Z.abs ts /\
    now - 3600 * 1000 <= 1000 * ts.
Proof.
  unfold Scrape.round, Scrape.teamNamesOf. set (block := Scrape.blockOf fragment).
  destruct (Scrape.teamsOfBlock block) as [names logos]. cbn [fst].
  destruct (Nat.ltb_spec (length names) 2) as [Hlen|Hlen];
    [split; [discriminate | intros (k & cfg & ts & H & _); lia]|].
  destruct (Scrape.ourKeyOf names) as [k|];
    [|split; [discriminate | intros (k & cfg & ts & _ & H & _); discriminate]].
  destruct (teamOf k TEAMS) as [cfg|] eqn:Hcfg;
    [|split; [discriminate | intros (k' & cfg & ts & _ & [= <-] & H & _); congruence]].
  unfold Scrape.tooOld, Scrape.noDate.
  destruct (Scrape.extractTimestamp block) as [ts|];
    [|split; [discriminate | intros (k' & cfg' & ts & _ & _ & _ & H & _); discriminate]].
  destruct (Z.eqb_spec ts 0) as [Hz|Hz]; cbn [negb andb].
  { split; [discriminate | intros (k' & cfg' & ts' & _ & _ & _ & [= <-] & H & _); lia]. }
  destruct (Z.ltb_spec (1000 * ts) (now - 3600 * 1000)) as [Hold|Hold].
  { split; [discriminate | intros (k' & cfg' & ts' & _ & _ & _ & [= <-] & _ & H); lia]. }
  destruct (Z.ltb_spec 8640000000000000 (Z.abs (1000 * ts))) as [Hbig|Hbig].
  - split; [|reflexivity]. intros _. exists k, cfg, ts.
    split; [exact Hlen|]. split; [reflexivity|]. split; [exact Hcfg|].
    split; [reflexivity|]. lia.
  - split; [discriminate | intros (k' & cfg' & ts' & _ & _ & _ & [= <-] & H & _); lia].
Qed.

Lemma omap_cons {A B} (f : A -> option B) (x : A) (l : list A) :
  omap f (x :: l) = match f x with Some y => y :: omap f l | None => omap f l end.
Proof. reflexivity. Qed.

Lemma scrapeLoop_done (now : Z) (todo : list string) :
  Forall (fun fragment => Scrape.round fragment now <> Scrape.Thrown) todo ->
  forall upcoming,
  Scrape.scrapeLoop now todo upcoming =
  (upcoming ++ omap (fun fragment => Scrape.processBlock fragment now) todo, false).
Proof.
  induction 1 as [|fr todo Hfr Htodo IH]; intros upcoming; cbn [Scrape.scrapeLoop].
  - cbn. now rewrite app_nil_r.
  - rewrite omap_cons. unfold Scrape.processBlock at 1.
    destruct (Scrape.round fr now) as [|e|]; [apply IH | | contradiction].
    rewrite IH, <- app_assoc. reflexivity.
Qed.

Lemma scrapeLoop_thrown (now : Z) (before : list string) (fr : string) (after : list string) :
  Forall (fun fragment => Scrape.round fragment now <> Scrape.Thrown) before ->
  Scrape.round fr now = Scrape.Thrown ->
  forall upcoming,
  Scrape.scrapeLoop now (before ++ fr :: after) upcoming =
  (upcoming ++ omap (fun fragment => Scrape.processBlock fragment now) before, true).
Proof.
  intros Hb Hfr. induction Hb as [|x before Hx Hb IH]; intros upcoming;
    cbn [app Scrape.scrapeLoop].
  - cbn. now rewrite Hfr, app_nil_r.
  - rewrite omap_cons. unfold Scrape.processBlock at 1.
    destruct (Scrape.round x now) as [|e|]; [apply IH | | contradiction].
    rewrite IH, <- app_assoc. reflexivity.
Qed.

(** X13: the list of the scraper.  A page of fewer than 1000 characters
    gives the empty list.  On a longer page whose time stamps are all
    within the range of [Date], at most 8640000000000 seconds, the list is
    in ascending order of time, an entry without a time stamp counting as
    time 0 and so coming first, and it holds the entries of the fragments
    of the page, each as often as the loop has pushed it.  When the round
    of a fragment throws and none before it does, the list is what the
    fragments before it have pushed, in the order of the page, not sorted,
    and nothing of the fragments after it.  A round throws when its
    fragment names two teams, one of them tracked, and carries a time stamp
    that is beyond that range and not too old, and only then. *)
Theorem upcoming_sorted (html : string) (now : Z) :
  let entries := omap (fun fragment => Scrape.processBlock fragment now) in
  let inRange := fun fragment =>
    forall ts, Scrape.extractTimestamp (Scrape.blockOf fragment) = Some ts ->
               Z.abs ts <= 8640000000000 in
  ((JS.len html < 1000)%nat -> Scrape.scrape html now = []) /\
  ((1000 <= JS.len html)%nat ->
   Forall inRange (Scrape.fragments html) ->
   StronglySorted
     (fun a b => orZero (Upcoming.timestamp a) <= orZero (Upcoming.timestamp b))
     (Scrape.scrape html now) /\
   Permutation (Scrape.scrape html now) (entries (Scrape.fragments html))) /\
  (forall before fragment after,
     (1000 <= JS.len html)%nat ->
     Scrape.fragments html = before ++ fragment :: after ->
     Forall (fun earlier => Scrape.round earlier now <> Scrape.Thrown) before ->
     Scrape.round fragment now = Scrape.Thrown ->
     Scrape.scrape html now = entries before) /\
  (forall fragment,
     Scrape.round fragment now = Scrape.Thrown <->
     exists k cfg ts,
       (2 <= length (Scrape.teamNamesOf (Scrape.blockOf fragment)))%nat /\
       Scrape.ourKeyOf (Scrape.teamNamesOf (Scrape.blockOf fragment)) = Some k /\
       teamOf k TEAMS = Some cfg /\
       Scrape.extractTimestamp (Scrape.blockOf fragment) = Some ts /\
       8640000000000 < Z.abs ts /\
       now - 3600 * 1000 <= 1000 * ts).
Proof.
  intros entries inRange. unfold Scrape.scrape. split; [|split; [|split]].
  - intros Hlen. apply Nat.ltb_lt in Hlen. now rewrite Hlen.
  - intros Hlen Hall. apply Nat.ltb_ge in Hlen. rewrite Hlen.
    rewrite scrapeLoop_done.
    + cbn [app]. split; [|apply sortWith_perm].
      apply (sortWith_sorted _ (fun e => orZero (Upcoming.timestamp e))). intros a b. lia.
    + eapply List.Forall_impl; [|exact Hall]. intros fr Hfr Ht.
      apply round_thrown in Ht as (k & cfg & ts & _ & _ & _ & Hts & Hbig & _).
      apply Hfr in Hts. lia.
  - intros before fr after Hlen Hsplit Hb Hfr. apply Nat.ltb_ge in Hlen.
    rewrite Hlen, Hsplit, (scrapeLoop_thrown now before fr after Hb Hfr). reflexivity.
  - intros fr. apply round_thrown.
Qed.

(** The statement at work: the second fragment of the page carries a time
    stamp that [Date] cannot hold, and the list is the entry of the first
    fragment; the entry of the third, which is sooner, is missing. *)
Lemma upcoming_sorted_witness :
  map Upcoming.timestamp (Scrape.scrape ScrapeSample.page Sample.scrapeTime)
  = [Some 1700086400].
Proof.
  rewrite (proj1 (proj2 (proj2 (upcoming_sorted ScrapeSample.page Sample.scrapeTime)))
             [Sample.fragmentAt "1700086400"] (Sample.fragmentAt "99999999999999")
             [Sample.fragmentAt "1700007200"]).
  - vm_compute. reflexivity.
  - vm_compute. lia.
  - vm_compute. reflexivity.
  - constructor; [|constructor]. vm_compute. discriminate.
  - vm_compute. reflexivity.
Defined.

(** X14: an entry of the scraper names teams of its fragment.  Its team is
    a tracked team and its tag is the tag of that team; its opponent is
    one of the team names of the fragment, which are distinct, so it has
    from 2 to 39 characters and the fallback [TBD] is never used; the
    opponent carries the name or the tag of the entry's own team only when
    every team name of the fragment does.  Its best-of label is empty or
    [BO] followed by one digit. *)
Theorem upcoming_entry (fragment : string) (now : Z) (e : Upcoming.t) :
  Scrape.processBlock fragment now = Some e ->
  let names := Scrape.teamNamesOf (Scrape.blockOf fragment) in
  NoDup names /\
  In (Upcoming.opponent e) names /\
  (2 <= JS.len (Upcoming.opponent e) < 40)%nat /\
  (exists cfg,
     teamOf (Upcoming.teamKey e) TEAMS = Some cfg /\
     Upcoming.teamTag e = tag cfg /\
     (Scrape.isOurs cfg (Upcoming.opponent e) = true ->
      Forall (fun t => Scrape.isOurs cfg t = true) names)) /\
  (Upcoming.bestOf e = "" \/
   exists d, JS.isDigit d = true /\
             Upcoming.bestOf e = String "B" (String "O" (String d ""))).
Proof.
  intros H names.
  destruct (teamNames_good (Scrape.blockOf fragment)) as [Hnd Hgood]. fold names in Hnd, Hgood.
  apply processBlock_round in H. unfold Scrape.round in H.
  unfold names, Scrape.teamNamesOf in *.
  clear names. set (block := Scrape.blockOf fragment) in *.
  destruct (Scrape.teamsOfBlock block) as [names logos]. cbn [fst] in *.
  destruct (Nat.ltb_spec (length names) 2) as [|Hlen]; [discriminate|].
  destruct (Scrape.ourKeyOf names) as [k|]; [|discriminate].
  destruct (teamOf k TEAMS) as [cfg|] eqn:Hcfg; [|discriminate].
  destruct (Scrape.tooOld _ now); [discriminate|].
  destruct (Scrape.noDate _); [discriminate|].
  injection H as <-. cbn [Upcoming.opponent Upcoming.teamKey Upcoming.teamTag Upcoming.bestOf].
  split; [exact Hnd|].
  assert (Hopp : In (match find (fun t => negb (Scrape.isOurs cfg t)) names with
                     | Some t => t
                     | None => JS.orStr (default "" (nth_error names 1)) "TBD"
                     end) names /\
                 (Scrape.isOurs cfg
                    (match find (fun t => negb (Scrape.isOurs cfg t)) names with
                     | Some t => t
                     | None => JS.orStr (default "" (nth_error names 1)) "TBD"
                     end) = true ->
                  Forall (fun t => Scrape.isOurs cfg t = true) names)).
  { destruct (find (fun t => negb (Scrape.isOurs cfg t)) names) as [t|] eqn:Hfind.
    - apply find_some in Hfind as [Hin Hnot]. split; [exact Hin|].
      intros Hours. rewrite Hours in Hnot. discriminate.
    - split.
      + destruct names as [|a [|b rest]]; cbn in Hlen; try lia.
        cbn [nth_error default from_option]. unfold Datatypes.id.
        apply List.Forall_cons_iff in Hgood as [_ Hgood].
        apply List.Forall_cons_iff in Hgood as [(_ & _ & Hb) _].
        destruct b as [|c b]; [cbn in Hb; lia|]. cbn. auto.
      + intros _. apply List.Forall_forall. intros t Hin.
        pose proof (find_none _ _ Hfind t Hin) as Hn. cbn in Hn.
        now apply negb_false_iff in Hn. }
  destruct Hopp as [Hin Hours].
  split; [exact Hin|]. split.
  { rewrite List.Forall_forall in Hgood. now apply (Hgood _ Hin). }
  split; [exists cfg; split; [exact Hcfg|]; split; [reflexivity | exact Hours]|].
  unfold Scrape.bestOfOf. destruct (Scrape.firstMatch Scrape.boAt block) as [d|] eqn:Hbo;
    [|now left].
  right. apply firstMatch_some in Hbo as [s' Hbo]. unfold Scrape.boAt in Hbo.
  destruct s' as [|p [|b [|o [|c [|q s']]]]]; try discriminate.
  destruct (Ascii.eqb p "(" && (Ascii.eqb b "B" || Ascii.eqb b "b")
            && (Ascii.eqb o "O" || Ascii.eqb o "o") && JS.isDigit c && Ascii.eqb q ")")%char
    eqn:Hc; [|discriminate].
  injection Hbo as <-. exists c. split; [|reflexivity].
  apply andb_prop in Hc as [Hc _]. now apply andb_prop in Hc as [_ Hc].
Qed.

(** The statement at work: the fragment of the sample page. *)
Lemma upcoming_entry_witness :
  exists e,
    Scrape.processBlock (Sample.fragmentAt "1700007200") Sample.scrapeTime = Some e /\
    In (Upcoming.opponent e)
       (Scrape.teamNamesOf (Scrape.blockOf (Sample.fragmentAt "1700007200"))).
Proof.
  eexists. split; [vm_compute; reflexivity|].
  refine (proj1 (proj2 (upcoming_entry (Sample.fragmentAt "1700007200")
                          Sample.scrapeTime _ _))).
  vm_compute. reflexivity.
Defined.

(** ** [app.js]: the times of the series *)

Lemma groupStep_dated (series : list App.Draft) (m : TeamMatch) :
  Forall dated series ->
  Forall (fun d => App.startOf m <= App.d_latestTime d) series ->
  StronglySorted (fun a b => App.d_latestTime a <= App.d_latestTime b) series ->
  Forall dated (App.groupStep series m) /\
  StronglySorted (fun a b => App.d_latestTime a <= App.d_latestTime b)
    (App.groupStep series m) /\
  (forall bound, bound <= App.startOf m ->
     Forall (fun d => bound <= App.d_latestTime d) series ->
     Forall (fun d => bound <= App.d_latestTime d) (App.groupStep series m)).
Proof.
  intros Hd Hb Hs. unfold App.groupStep. destruct series as [|cur rest].
  - split; [|split].
    + constructor; [|constructor]. split; [do 2 eexists; split; reflexivity|].
      constructor; [cbn; lia | constructor].
    + repeat constructor.
    + intros bound Hle _. constructor; [exact Hle | constructor].
  - apply List.Forall_cons_iff in Hd as [Hcur Hrest].
    apply List.Forall_cons_iff in Hb as [Hbcur Hbrest].
    apply StronglySorted_inv in Hs as [Hs Hall].
    destruct (App.joins cur m).
    + split; [|split].
      * constructor; [|exact Hrest]. destruct Hcur as [(g & r & Hg & Hl) Hall'].
        split; [exists g, (r ++ [m]); cbn; rewrite Hg; split; [reflexivity | exact Hl]|].
        cbn. apply Forall_app. split; [exact Hall'|]. constructor; [exact Hbcur | constructor].
      * constructor; [exact Hs | exact Hall].
      * intros bound _ Hf. apply List.Forall_cons_iff in Hf as [Hf1 Hf2].
        constructor; [exact Hf1 | exact Hf2].
    + split; [|split].
      * constructor; [|constructor; assumption].
        split; [do 2 eexists; split; reflexivity|].
        constructor; [cbn; lia | constructor].
      * constructor; [constructor; assumption|].
        constructor; [exact Hbcur | exact Hbrest].
      * intros bound Hle Hf. constructor; [exact Hle | exact Hf].
Qed.

Lemma groupLoop_dated (l : list TeamMatch) :
  forall series,
  StronglySorted (fun a b => App.startOf b <= App.startOf a) l ->
  Forall dated series ->
  Forall (fun m => Forall (fun d => App.startOf m <= App.d_latestTime d) series) l ->
  StronglySorted (fun a b => App.d_latestTime a <= App.d_latestTime b) series ->
  Forall dated (fold_left App.groupStep l series) /\
  StronglySorted (fun a b => App.d_latestTime a <= App.d_latestTime b)
    (fold_left App.groupStep l series).
Proof.
  induction l as [|m l IH]; intros series Hl Hd Hb Hs; cbn [fold_left]; [now split|].
  apply StronglySorted_inv in Hl as [Hl Hm].
  apply List.Forall_cons_iff in Hb as [Hbm Hbl].
  destruct (groupStep_dated series m Hd Hbm Hs) as (Hd' & Hs' & Hb').
  apply IH; [exact Hl | exact Hd' | | exact Hs'].
  rewrite List.Forall_forall in Hm, Hbl |- *. intros m' Hin.
  apply Hb'; [now apply Hm | now apply Hbl].
Qed.

Lemma StronglySorted_snoc {A} (R : A -> A -> Prop) (l : list A) (x : A) :
  StronglySorted R l -> Forall (fun a => R a x) l -> StronglySorted R (l ++ [x]).
Proof.
  induction 1 as [|y l Hs IH Hall]; intros Hf; cbn [app]; [repeat constructor|].
  apply List.Forall_cons_iff in Hf as [Hy Hf].
  constructor; [now apply IH|].
  apply Forall_app. split; [exact Hall | constructor; [exact Hy | constructor]].
Qed.

Lemma StronglySorted_rev {A} (R : A -> A -> Prop) (l : list A) :
  StronglySorted R l -> StronglySorted (fun a b => R b a) (rev l).
Proof.
  induction 1 as [|x l Hs IH Hall]; cbn [rev]; [constructor|].
  apply StronglySorted_snoc; [exact IH | now apply Forall_rev].
Qed.

Lemma StronglySorted_map {A B} (f : A -> B) (R : B -> B -> Prop) (l : list A) :
  StronglySorted (fun a b => R (f a) (f b)) l -> StronglySorted R (map f l).
Proof.
  induction 1 as [|x l Hs IH Hall]; cbn [map]; constructor; [exact IH|].
  apply Forall_map. exact Hall.
Qed.

(** X15: the times of the series of [groupMatchesIntoSeries].  The series
    come newest first by [latestTime]; every series has a game, its games
    are in ascending order of start, [latestTime] is the start of one of
    them and none starts later; and its wins and losses add up to the
    number of its games. *)
Theorem series_times (matches : list TeamMatch) :
  let series := App.groupMatchesIntoSeries matches in
  StronglySorted (fun a b => App.latestTime b <= App.latestTime a) series /\
  Forall (fun s =>
    App.games s <> [] /\
    StronglySorted (fun a b => App.startOf a <= App.startOf b) (App.games s) /\
    Forall (fun g => App.startOf g <= App.latestTime s) (App.games s) /\
    Exists (fun g => App.startOf g = App.latestTime s) (App.games s) /\
    (App.wins s + App.losses s = length (App.games s))%nat) series.
Proof.
  intros series. unfold series, App.groupMatchesIntoSeries, App.groupDrafts.
  set (sorted := sortWith (fun a b => App.startOf b - App.startOf a) matches).
  assert (Hsorted : StronglySorted (fun a b => App.startOf b <= App.startOf a) sorted).
  { eapply StronglySorted_weaken;
      [| apply (sortWith_sorted _ (fun a => - App.startOf a)); intros; lia].
    cbn. intros; lia. }
  destruct (groupLoop_dated sorted [] Hsorted) as [Hd Hs];
    [constructor | apply List.Forall_forall; intros; constructor | constructor|].
  pose proof (groupLoop_coherent sorted [] (List.Forall_nil _)) as Hc.
  split.
  - apply StronglySorted_map. apply StronglySorted_rev in Hs. exact Hs.
  - apply Forall_map. apply Forall_rev. rewrite List.Forall_forall in Hd, Hc |- *.
    intros d Hin. destruct (Hd d Hin) as [(g & r & Hg & Hl) Hall].
    destruct (Hc d Hin) as (_ & Hw & Hlo).
    pose proof (sortWith_perm (fun a b => App.startOf a - App.startOf b) (App.d_games d))
      as Hp.
    cbn [App.finish App.games App.latestTime App.wins App.losses].
    split; [|split; [|split; [|split]]].
    + intros E. rewrite E in Hp. apply Permutation_nil in Hp. congruence.
    + apply (sortWith_sorted _ App.startOf). intros; lia.
    + eapply Permutation_Forall; [symmetry; exact Hp | exact Hall].
    + apply List.Exists_exists. exists g. split; [|now symmetry].
      eapply Permutation_in; [symmetry; exact Hp|]. rewrite Hg. now left.
    + rewrite Hw, Hlo, won_lost_total. symmetry. now apply Permutation_length.
Qed.

(** ** [app.js]: durations *)

Lemma seconds_two_digits (r : Z) :
  0 <= r < 60 ->
  JS.len (Page.padStart2 (JS.ofZ r)) = 2%nat /\
  allDigits (Page.padStart2 (JS.ofZ r)) = true /\
  JS.parseInt (Page.padStart2 (JS.ofZ r)) = r.
Proof.
  intros Hr. rewrite <- (Z2Nat.id r) by lia.
  assert (Hn : (Z.to_nat r < 60)%nat) by lia.
  revert Hn. generalize (Z.to_nat r). intros n Hn.
  do 60 (destruct n as [|n]; [vm_compute; auto|]). lia.
Qed.

(** X16: [formatDuration] of a number of seconds that is not negative is
    the minutes, a colon and the seconds in two digits; read back as
    numbers, 60 times the minutes and the seconds give the duration. *)
Theorem duration_format (sec : Z) :
  0 <= sec ->
  exists ss,
    Page.formatDuration (Some sec) = JS.ofZ (sec / 60) +:+ ":" +:+ ss /\
    JS.len ss = 2%nat /\
    allDigits ss = true /\
    allDigits (JS.ofZ (sec / 60)) = true /\
    60 * JS.parseInt (JS.ofZ (sec / 60)) + JS.parseInt ss = sec.
Proof.
  intros Hs. exists (Page.padStart2 (JS.ofZ (Z.rem sec 60))).
  assert (Hr : 0 <= Z.rem sec 60 < 60) by (apply Z.rem_bound_pos; lia).
  destruct (seconds_two_digits _ Hr) as (Hl & Hd & Hp).
  assert (Hm : 0 <= sec / 60) by (apply Z.div_pos; lia).
  split; [reflexivity|]. split; [exact Hl|]. split; [exact Hd|].
  split; [now apply ofZ_allDigits|].
  rewrite Hp, (parseInt_ofZ _ Hm), Z.rem_mod_nonneg by lia.
  pose proof (Z.div_mod sec 60). lia.
Qed.

(** The statement at work: two minutes and five seconds. *)
Lemma duration_format_witness :
  exists ss,
    Page.formatDuration (Some 125) = "2:" +:+ ss /\
    JS.len ss = 2%nat /\
    60 * 2 + JS.parseInt ss = 125.
Proof.
  destruct (duration_format 125) as (ss & H1 & H2 & _ & _ & H5); [lia|].
  exists ss. split; [exact H1|]. split; [exact H2 | exact H5].
Defined.

(** ** [app.js]: the leagues of the series *)

Lemma addSeries_summary (key : string) (ss : list App.Series) (s : App.Series) :
  Page.addSeries (Page.summary key ss) s = Page.summary key (ss ++ [s]).
Proof.
  unfold Page.addSeries, Page.summary. cbn [Page.lg_name Page.lg_series Page.lg_latestTime
    Page.lg_totalW Page.lg_totalL Page.lg_seriesW Page.lg_seriesL].
  rewrite !map_app, !List.filter_app, !length_app, !list_sum_app, fold_left_app.
  cbn [map List.filter fold_left list_sum length].
  f_equal.
  all: try (destruct (App.seriesWon s); cbn; lia).
  destruct (Z.ltb_spec (fold_left Z.max (map App.latestTime ss) 0) (App.latestTime s)); lia.
Qed.

Lemma updateLeague_names (key : string) (s : App.Series) (l : list Page.League) :
  map Page.lg_name (Page.updateLeague key s l) =
  if existsb (fun lg => String.eqb (Page.lg_name lg) key) l
  then map Page.lg_name l else map Page.lg_name l ++ [key].
Proof.
  induction l as [|lg l IH]; cbn [Page.updateLeague existsb map]; [reflexivity|].
  destruct (String.eqb (Page.lg_name lg) key); cbn [orb map]; [reflexivity|].
  rewrite IH. now destruct (existsb _ l).
Qed.

Lemma existsb_name (key : string) (l : list Page.League) :
  existsb (fun lg => String.eqb (Page.lg_name lg) key) l = true <->
  In key (map Page.lg_name l).
Proof.
  rewrite existsb_exists, in_map_iff. split.
  - intros (lg & Hin & He). apply String.eqb_eq in He. eauto.
  - intros (lg & He & Hin). exists lg. split; [exact Hin | now apply String.eqb_eq].
Qed.

(** The league of a name after a round of the loop. *)
Lemma updateLeague_spec (key : string) (s : App.Series) (l : list Page.League) :
  NoDup (map Page.lg_name l) ->
  forall lg', In lg' (Page.updateLeague key s l) ->
  (Page.lg_name lg' <> key /\ In lg' l) \/
  (Page.lg_name lg' = key /\
   ((exists lg, In lg l /\ Page.lg_name lg = key /\ lg' = Page.addSeries lg s) \/
    (~ In key (map Page.lg_name l) /\ lg' = Page.addSeries (Page.newLeague key) s))).
Proof.
  induction l as [|lg l IH]; cbn [Page.updateLeague map]; intros Hnd lg' Hin.
  - destruct Hin as [<-|[]]. right. split; [reflexivity|]. right. split; [intros []|reflexivity].
  - apply NoDup_cons in Hnd as [Hnot Hnd].
    destruct (String.eqb_spec (Page.lg_name lg) key) as [He|Hne].
    + destruct Hin as [<-|Hin].
      * right. split; [exact He|]. left. exists lg. split; [now left|]. now split.
      * left. split; [|now right]. intros Hk. apply Hnot. rewrite He, <- Hk.
        apply list_elem_of_In, in_map, Hin.
    + destruct Hin as [<-|Hin]; [left; split; [exact Hne | now left]|].
      destruct (IH Hnd lg' Hin) as [[Hk Hl]|[Hk [(lg0 & Hl & Hn & Hv)|[Hn Hv]]]].
      * left. split; [exact Hk | now right].
      * right. split; [exact Hk|]. left. exists lg0. split; [now right|]. now split.
      * right. split; [exact Hk|]. right. split; [|exact Hv].
        cbn [In]. intros [H|H]; [contradiction | contradiction].
Qed.

Lemma filter_key_snoc (key : string) (done : list App.Series) (s : App.Series) :
  List.filter (fun x => String.eqb (Page.leagueKey x) key) (done ++ [s]) =
  List.filter (fun x => String.eqb (Page.leagueKey x) key) done ++
  (if String.eqb (Page.leagueKey s) key then [s] else []).
Proof. rewrite List.filter_app. cbn. now destruct (String.eqb _ key). Qed.

Lemma filter_none {A} (f : A -> bool) (l : list A) :
  (forall x, In x l -> f x = false) -> List.filter f l = [].
Proof.
  induction l as [|a l IH]; intros H; cbn [List.filter]; [reflexivity|].
  rewrite (H a) by now left. apply IH. intros x Hx. apply H. now right.
Qed.

Lemma leagueStep_none (todo : list App.Series) :
  fold_left Page.leagueStep todo None = None.
Proof. induction todo as [|s todo IH]; [reflexivity | exact IH]. Qed.

(** One round of the loop keeps the leagues the summaries of the series
    read so far. *)
Lemma updateLeague_inv (done : list App.Series) (s : App.Series) (l : list Page.League) :
  NoDup (map Page.lg_name l) ->
  Forall (fun lg =>
    lg = Page.summary (Page.lg_name lg)
           (List.filter (fun x => String.eqb (Page.leagueKey x) (Page.lg_name lg)) done) /\
    Page.lg_series lg <> []) l ->
  Forall (fun x => In (Page.leagueKey x) (map Page.lg_name l)) done ->
  let l' := Page.updateLeague (Page.leagueKey s) s l in
  NoDup (map Page.lg_name l') /\
  Forall (fun lg =>
    lg = Page.summary (Page.lg_name lg)
           (List.filter (fun x => String.eqb (Page.leagueKey x) (Page.lg_name lg))
              (done ++ [s])) /\
    Page.lg_series lg <> []) l' /\
  Forall (fun x => In (Page.leagueKey x) (map Page.lg_name l')) (done ++ [s]).
Proof.
  intros Hnd Hsum Hkeys l'. set (key := Page.leagueKey s) in *.
  assert (Hnames : map Page.lg_name l' =
                   if existsb (fun lg => String.eqb (Page.lg_name lg) key) l
                   then map Page.lg_name l else map Page.lg_name l ++ [key])
    by apply updateLeague_names.
  split; [|split].
  - rewrite Hnames. destruct (existsb _ l) eqn:He; [exact Hnd|].
    apply NoDup_app. split; [exact Hnd|]. split; [|apply NoDup_singleton].
    intros x Hx Hx'. apply list_elem_of_In in Hx, Hx'. destruct Hx' as [<-|[]].
    apply existsb_name in Hx. congruence.
  - rewrite List.Forall_forall in Hsum, Hkeys |- *. intros lg' Hin.
    apply (updateLeague_spec key s l Hnd) in Hin
      as [[Hk Hl]|[Hk [(lg & Hl & Hn & ->)|[Hn ->]]]].
    + destruct (Hsum lg' Hl) as [He Hne]. split; [|exact Hne].
      rewrite filter_key_snoc. fold key.
      destruct (String.eqb_spec key (Page.lg_name lg')) as [E|_]; [now contradiction Hk|].
      now rewrite app_nil_r.
    + destruct (Hsum lg Hl) as [He Hne]. rewrite Hn in He.
      rewrite He, addSeries_summary. cbn [Page.summary Page.lg_name Page.lg_series].
      rewrite filter_key_snoc. fold key. rewrite String.eqb_refl.
      split; [reflexivity|]. intros E. now apply app_eq_nil in E as [_ E].
    + change (Page.newLeague key) with (Page.summary key []).
      rewrite addSeries_summary. cbn [Page.summary Page.lg_name Page.lg_series app].
      rewrite filter_key_snoc. fold key. rewrite String.eqb_refl.
      rewrite filter_none; [split; [reflexivity | discriminate]|].
      intros x Hx. destruct (String.eqb_spec (Page.leagueKey x) key) as [E|_]; [|reflexivity].
      contradiction Hn. rewrite <- E. now apply Hkeys.
  - rewrite List.Forall_forall in Hkeys |- *. intros x Hx. rewrite Hnames.
    apply in_app_or in Hx as [Hx|[<-|[]]].
    + destruct (existsb _ l); [now apply Hkeys | apply in_or_app; left; now apply Hkeys].
    + fold key. destruct (existsb _ l) eqn:He; [now apply existsb_name|].
      apply in_or_app. right. now left.
Qed.

Lemma leagueLoop_inv (todo : list App.Series) :
  forall (done : list App.Series) (l : list Page.League),
  NoDup (map Page.lg_name l) ->
  Forall (fun lg =>
    lg = Page.summary (Page.lg_name lg)
           (List.filter (fun s => String.eqb (Page.leagueKey s) (Page.lg_name lg)) done) /\
    Page.lg_series lg <> []) l ->
  Forall (fun s => In (Page.leagueKey s) (map Page.lg_name l)) done ->
  match fold_left Page.leagueStep todo (Some l) with
  | Some l' =>
      Forall (fun s => Page.inherited (Page.leagueKey s) = false) todo /\
      NoDup (map Page.lg_name l') /\
      Forall (fun lg =>
        lg = Page.summary (Page.lg_name lg)
               (List.filter (fun s => String.eqb (Page.leagueKey s) (Page.lg_name lg))
                  (done ++ todo)) /\
        Page.lg_series lg <> []) l' /\
      Forall (fun s => In (Page.leagueKey s) (map Page.lg_name l')) (done ++ todo)
  | None => Exists (fun s => Page.inherited (Page.leagueKey s) = true) todo
  end.
Proof.
  induction todo as [|s todo IH]; intros done l Hnd Hsum Hkeys; cbn [fold_left].
  - rewrite app_nil_r. split; [constructor|]. now split.
  - cbn [Page.leagueStep]. destruct (Page.inherited (Page.leagueKey s)) eqn:Hi.
    + rewrite leagueStep_none. now left.
    + destruct (updateLeague_inv done s l Hnd Hsum Hkeys) as (H1 & H2 & H3).
      specialize (IH (done ++ [s]) _ H1 H2 H3).
      rewrite <- app_assoc in IH. cbn [app] in IH.
      destruct (fold_left Page.leagueStep todo _) as [l'|].
      * destruct IH as (Hin & IH). split; [now constructor | exact IH].
      * now right.
Qed.

(** X17: [groupSeriesByLeague] gives one league for every league name of
    the list, a series without a league name counting under
    [Unknown League]: the names of the leagues are distinct, every series
    is in the league of its name, and every league holds the series of its
    name, in the order of the list and at least one, with the sums of
    their wins and losses, the numbers of series won and not won, and the
    largest of their times or 0 as its time; the leagues come newest first
    by that time.  The function ends in an error exactly when a league name
    is one that every object inherits. *)
Theorem leagues_summarise (series : list App.Series) :
  match Page.groupSeriesByLeague series with
  | Some leagues =>
      Forall (fun s => Page.inherited (Page.leagueKey s) = false) series /\
      NoDup (map Page.lg_name leagues) /\
      Forall (fun lg =>
        lg = Page.summary (Page.lg_name lg)
               (List.filter (fun s => String.eqb (Page.leagueKey s) (Page.lg_name lg))
                  series) /\
        Page.lg_series lg <> []) leagues /\
      Forall (fun s => In (Page.leagueKey s) (map Page.lg_name leagues)) series /\
      StronglySorted (fun a b => Page.lg_latestTime b <= Page.lg_latestTime a) leagues
  | None => Exists (fun s => Page.inherited (Page.leagueKey s) = true) series
  end.
Proof.
  unfold Page.groupSeriesByLeague.
  pose proof (leagueLoop_inv series [] [] NoDup_nil_2 (List.Forall_nil _)
                (List.Forall_nil _)) as H.
  cbn [app] in H.
  destruct (fold_left Page.leagueStep series (Some [])) as [l|]; cbn [fmap option_fmap option_map];
    [|exact H].
  destruct H as (Hin & Hnd & Hsum & Hkeys).
  pose proof (sortWith_perm (fun a b => Page.lg_latestTime b - Page.lg_latestTime a) l) as Hp.
  split; [exact Hin|]. split; [|split; [|split]].
  - rewrite (Permutation_map Page.lg_name Hp). exact Hnd.
  - eapply Permutation_Forall; [symmetry; exact Hp | exact Hsum].
  - eapply Forall_impl; [exact Hkeys|]. cbn. intros s Hs.
    eapply Permutation_in; [|exact Hs]. apply Permutation_map. now symmetry.
  - eapply StronglySorted_weaken;
      [| apply (sortWith_sorted _ (fun a => - Page.lg_latestTime a)); intros; lia].
    cbn. intros; lia.
Qed.

(** ** [app.js] and [server.js]: the logo of an upcoming match *)

(** X18: the address [proxyUrl] makes of a logo on the trusted host is
    served by the image proxy with that logo.  Where [encodeURIComponent]
    gives a text that is not empty and has no question mark, and
    [decodeURIComponent] reads it back, the request of that address passes
    the guard of [/api/img], and its reply is the one of [proxyImage] for
    the logo: the image with status 200, or 502. *)
Theorem logo_proxy_round_trip (env : Env) (encodeURIComponent : string -> string)
    (hops : nat) (logo : string) (s : Server) (w : World) :
  JS.startsWith logo "https://liquipedia.net/" = true ->
  encodeURIComponent logo <> "" ->
  lacks "?" (encodeURIComponent logo) = true ->
  decodeURIComponent env (encodeURIComponent logo) = Some logo ->
  exists address,
    Page.proxyUrl encodeURIComponent (Some logo) = Some address /\
    server env hops address s w =
    match proxyImage env hops logo s w with
    | (Some (Resolved img), s', w') =>
        (Replied {| statusCode := 200; responseType := Some (contentType img);
                    body := BodyBytes (img_data img) |}, s', w')
    | (Some (Rejected _), s', w') =>
        (Replied {| statusCode := 502; responseType := None;
                    body := BodyText "Image fetch failed" |}, s', w')
    | (None, s', w') => (Unanswered, s', w')
    end.
Proof.
  intros Htrusted Hne Hq Hdec. set (enc := encodeURIComponent logo) in *.
  exists ("/api/img?url=" +:+ enc). split.
  - unfold Page.proxyUrl. rewrite Htrusted. fold enc.
    destruct logo as [|c logo]; [discriminate | reflexivity].
  - assert (Hroute : default "" (head (JS.split ("/api/img?url=" +:+ enc) "?")) = "/api/img").
    { change ("/api/img?url=" +:+ enc) with ("/api/img" +:+ String "?" ("url=" +:+ enc)).
      now rewrite (split_char_first "?" "/api/img" ("url=" +:+ enc) eq_refl). }
    rewrite (server_img env hops _ s w Hroute). unfold serveImage.
    assert (Himg : imgUrlOf ("/api/img?url=" +:+ enc) = Some enc).
    { unfold imgUrlOf, JS.split.
      change (String.length ("/api/img?url=" +:+ enc)) with (S (12 + String.length enc)).
      cbn [JS.split_rounds].
      change ("/api/img?url=" +:+ enc) with ("/api/img" +:+ "?url=" +:+ enc).
      rewrite (breakOn_first "?" "url=" "/api/img" enc eq_refl).
      cbn [nth_error]. now rewrite (split_rounds_none _ "?" "url=" enc Hq). }
    rewrite Himg. destruct enc as [|c e] eqn:E; [congruence|].
    rewrite Hdec. change TRUSTED_PREFIX with "https://liquipedia.net/".
    rewrite Htrusted. reflexivity.
Qed.

(** The statement at work: the logo of the sample, while the image host is
    down. *)
Lemma logo_proxy_witness :
  exists address,
    Page.proxyUrl Page.sampleEncode (Some Page.sampleLogo) = Some address /\
    fst (fst (server Page.sampleEnv 0 address initial world0)) =
      Replied {| statusCode := 502; responseType := None;
                 body := BodyText "Image fetch failed" |}.
Proof.
  destruct (logo_proxy_round_trip Page.sampleEnv Page.sampleEncode 0 Page.sampleLogo
              initial world0) as (address & H1 & H2);
    [reflexivity | discriminate | reflexivity | reflexivity |].
  exists address. split; [exact H1|]. rewrite H2. reflexivity.
Defined.

(** ** [app.js] and [server.js]: loading and polling *)

Lemma fetchData_spec (env : Env) (hops : nat) (s : Server) (w : World) (c : Page.Client) :
  Page.fetchData env hops s w c =
  match cachedData s with
  | Some snap => Page.readData (BodySnapshot snap) c
  | None => Rejected "Data is loading..."
  end.
Proof.
  unfold Page.fetchData. rewrite (server_data env hops "/api/data" s w eq_refl).
  cbn [fst]. unfold serveData. now destruct (cachedData s).
Qed.

Lemma readData_taken (snap : Snapshot) (c : Page.Client) :
  Page.readData (BodySnapshot snap) c = Resolved (Page.taken snap c).
Proof. reflexivity. Qed.

Lemma taken_same (snap : Snapshot) (c1 c2 : Page.Client) :
  Page.lastRenderedHash c1 = Page.lastRenderedHash c2 ->
  Page.taken snap c1 = Page.taken snap c2.
Proof. intros H. unfold Page.taken. now rewrite H. Qed.

Lemma renderCurrentView_some (b : Page.Browser) (c c' : Page.Client) :
  Page.renderCurrentView b c = Some c' ->
  Page.teamsData c' = Page.teamsData c /\
  Page.c_heroMap c' = Page.c_heroMap c /\
  Page.c_liveMatches c' = Page.c_liveMatches c /\
  Page.upcomingMatches c' = Page.upcomingMatches c /\
  Page.c_lastUpdated c' = Page.c_lastUpdated c /\
  Page.lastRenderedHash c' = Page.c_lastUpdated c /\
  Page.completes b Page.PaintLive c = true.
Proof.
  unfold Page.renderCurrentView, Page.renderLive.
  destruct (Page.completes b Page.PaintLive c); [|rewrite andb_false_r; discriminate].
  match goal with |- (if ?x && true then _ else _) = _ -> _ => destruct x end;
    [|discriminate].
  cbn [andb]. intros [= <-]. cbn. repeat split.
Qed.

Lemma teamDefined_spec (k : string) :
  teamDefined k = true <-> In k ["xg"; "yb"; "vg"] \/ inheritedName k = true.
Proof.
  split.
  - unfold teamDefined, TEAMS. cbn [teamOf].
    destruct (String.eqb_spec k "xg") as [->|_]; [intros _; left; now left|].
    destruct (String.eqb_spec k "yb") as [->|_]; [intros _; left; right; now left|].
    destruct (String.eqb_spec k "vg") as [->|_]; [intros _; left; right; right; now left|].
    now right.
  - intros [[<-|[<-|[<-|[]]]]|H]; try reflexivity.
    unfold teamDefined. now destruct (teamOf k TEAMS).
Qed.

(** When [renderCurrentView] returns on the overview. *)
Lemma renderCurrentView_overview (b : Page.Browser) (c : Page.Client) :
  Page.getCurrentView b = "overview" ->
  (exists c', Page.renderCurrentView b c = Some c') <->
  exists ongoing,
    Page.getOngoingTournaments (Page.b_now b) (Page.teamsData c) = Some ongoing /\
    Forall (fun t =>
      Forall (fun e => In (fst e) ["xg"; "yb"; "vg"] \/ inheritedName (fst e) = true)
        (Page.t_teams t)) ongoing /\
    Page.completes b Page.PaintOverview c = true /\
    Page.completes b Page.PaintLive c = true.
Proof.
  intros Hv. unfold Page.renderCurrentView, Page.renderOverview, Page.renderLive.
  rewrite Hv, String.eqb_refl.
  destruct (Page.getOngoingTournaments (Page.b_now b) (Page.teamsData c)) as [ongoing|];
    [|split; [intros [c' H]; discriminate | intros (o & H & _); discriminate]].
  assert (Hkeys :
    forallb (fun t => forallb (fun e => teamDefined (fst e)) (Page.t_teams t)) ongoing = true
    <-> Forall (fun t =>
          Forall (fun e => In (fst e) ["xg"; "yb"; "vg"] \/ inheritedName (fst e) = true)
            (Page.t_teams t)) ongoing).
  { rewrite forallb_forall, List.Forall_forall. split; intros H t Ht; specialize (H t Ht).
    - rewrite forallb_forall in H. apply List.Forall_forall. intros e He.
      apply teamDefined_spec. now apply H.
    - rewrite forallb_forall. rewrite List.Forall_forall in H. intros e He.
      apply teamDefined_spec. now apply H. }
  destruct (forallb _ ongoing).
  - destruct (Page.completes b Page.PaintOverview c), (Page.completes b Page.PaintLive c);
      cbn [andb]; split;
      try (intros [c' H]; discriminate);
      try (intros (o & _ & _ & H1 & H2); discriminate).
    + intros _. exists ongoing. split; [reflexivity|]. split; [now apply Hkeys | auto].
    + intros _. eexists. reflexivity.
  - cbn [andb]. split; [intros [c' H]; discriminate|].
    intros (o & [= <-] & H & _). apply Hkeys in H. discriminate.
Qed.

(** X19: what a tick of the poll does.  When the page holds the snapshot
    of the server and the server has since done a live-only refresh, the
    tick takes over the live games of the server, which are the games of
    [/live] with a tracked team on a side, renders the banner and then the
    time stamp, not the view.  When the server holds a snapshot of another
    time than the one the page holds and has rendered, the tick takes it
    over, renders the banner and then calls [renderCurrentView]: where that
    returns, [lastRenderedHash] is the time of the new snapshot; where it
    throws, the page keeps what it has taken over and [lastRenderedHash] is
    as before.  On the overview it returns when the grouping of the ongoing
    tournaments does not throw, every team of a tournament has a value in
    [TEAMS], and the browser lets the overview and the banner be painted,
    and it throws otherwise.  Where the banner throws, nothing is rendered
    after it.  When the server has no snapshot, the tick changes nothing. *)
Theorem poll_tick (env : Env) (hops : nat) (s : Server) (w : World) (b : Page.Browser)
    (c : Page.Client) (snap : Snapshot) :
  cachedData s = Some snap ->
  Page.c_lastUpdated c = Page.StampAt (lastUpdated snap) ->
  (forall w1 w2,
     let s' := fst (refreshLiveOnly env s w1) in
     let r := fetchWithRetry env EpLive w1 in
     let tracked := fun i : JsId =>
       match i with
       | IdNum n => (n =? 8261500) || (n =? 9351740) || (n =? 726228)
       | IdUndefined | IdNull => false
       end in
     exists c',
       Page.pollTick env hops s' w2 b c =
         (c', if Page.completes b Page.PaintLive c'
              then [Page.Fetch; Page.RenderLive; Page.RenderTimestamp]
              else [Page.Fetch; Page.RenderLive]) /\
       Page.c_liveMatches c' =
         match fst r with
         | Resolved live =>
             List.filter (fun m => tracked (radiant_team_id m) || tracked (dire_team_id m))
               (default [] live)
         | Rejected _ => []
         end /\
       Page.teamsData c' = teams snap /\
       Page.c_lastUpdated c' = Page.c_lastUpdated c /\
       Page.lastRenderedHash c' = Page.lastRenderedHash c) /\
  (forall s2 snap2 w2,
     cachedData s2 = Some snap2 ->
     lastUpdated snap2 <> lastUpdated snap ->
     Page.lastRenderedHash c = Page.c_lastUpdated c ->
     exists c2,
       (Page.teamsData c2 = teams snap2 /\
        Page.c_heroMap c2 = heroMap snap2 /\
        Page.c_liveMatches c2 = liveMatches snap2 /\
        Page.upcomingMatches c2 = upcoming snap2 /\
        Page.c_lastUpdated c2 = Page.StampAt (lastUpdated snap2) /\
        Page.lastRenderedHash c2 = Page.lastRenderedHash c) /\
       Page.pollTick env hops s2 w2 b c =
         (if Page.completes b Page.PaintLive c2
          then (match Page.renderCurrentView b c2 with
                | Some c' => c'
                | None => c2
                end, [Page.Fetch; Page.RenderLive; Page.RenderCurrentView])
          else (c2, [Page.Fetch; Page.RenderLive])) /\
       (forall c', Page.renderCurrentView b c2 = Some c' ->
          Page.teamsData c' = teams snap2 /\
          Page.c_liveMatches c' = liveMatches snap2 /\
          Page.c_lastUpdated c' = Page.StampAt (lastUpdated snap2) /\
          Page.lastRenderedHash c' = Page.StampAt (lastUpdated snap2)) /\
       (Page.getCurrentView b = "overview" ->
        ((exists c', Page.renderCurrentView b c2 = Some c') <->
         exists ongoing,
           Page.getOngoingTournaments (Page.b_now b) (teams snap2) = Some ongoing /\
           Forall (fun t =>
             Forall (fun e => In (fst e) ["xg"; "yb"; "vg"] \/ inheritedName (fst e) = true)
               (Page.t_teams t)) ongoing /\
           Page.completes b Page.PaintOverview c2 = true /\
           Page.completes b Page.PaintLive c2 = true))) /\
  (forall s2 w2, cachedData s2 = None ->
     Page.pollTick env hops s2 w2 b c = (c, [Page.Fetch])).
Proof.
  intros Hs Hc. split; [|split].
  - intros w1 w2 s' r tracked.
    destruct (live_refresh_spec env s w1 snap Hs) as (snap' & Hs' & Hlive & Ht & Hl).
    fold s' in Hs'. fold r in Hlive.
    unfold Page.pollTick. rewrite fetchData_spec, Hs', readData_taken.
    unfold Page.renderLive.
    exists (Page.taken snap' c).
    split.
    + destruct (Page.completes b Page.PaintLive (Page.taken snap' c)); cbn [negb];
        [|reflexivity].
      cbn [Page.taken Page.c_lastUpdated Page.lastRenderedHash].
      rewrite Hl, Hc. cbn [Page.stampEq]. rewrite Z.eqb_refl. reflexivity.
    + cbn [Page.taken Page.c_liveMatches Page.teamsData Page.c_lastUpdated
             Page.lastRenderedHash].
      split; [|split; [exact Ht|split; [now rewrite Hl, Hc | reflexivity]]].
      rewrite Hlive. destruct (fst r) as [live|msg]; [|reflexivity].
      apply liveMatchesOf_tracked.
  - intros s2 snap2 w2 Hs2 Hne Hr. exists (Page.taken snap2 c).
    split; [cbn; repeat split|]. split; [|split].
    + unfold Page.pollTick. rewrite fetchData_spec, Hs2, readData_taken.
      unfold Page.renderLive.
      destruct (Page.completes b Page.PaintLive (Page.taken snap2 c)); cbn [negb];
        [|reflexivity].
      cbn [Page.taken Page.c_lastUpdated Page.lastRenderedHash].
      rewrite Hr, Hc. cbn [Page.stampEq].
      destruct (Z.eqb_spec (lastUpdated snap2) (lastUpdated snap)) as [E|_]; [contradiction|].
      cbn [negb andb].
      now destruct (Page.renderCurrentView b _).
    + intros c' Hrender. apply renderCurrentView_some in Hrender
        as (H1 & _ & H3 & _ & H5 & H6 & _).
      rewrite H1, H3, H5, H6. cbn. auto.
    + intros Hv. exact (renderCurrentView_overview b (Page.taken snap2 c) Hv).
  - intros s2 w2 Hs2. unfold Page.pollTick. now rewrite fetchData_spec, Hs2.
Qed.

(** The statement at work: the page has loaded the sample snapshot, and the
    server refreshes its live games while the stats API is down. *)
Lemma poll_tick_witness :
  let env := Sample.envWith (fun _ => true) in
  let c := Page.taken Sample.snapshot Page.client0 in
  exists c',
    Page.pollTick env 0 (fst (refreshLiveOnly env Sample.serving world0)) world0
      (Page.plainBrowser 1700000000000) c =
      (c', [Page.Fetch; Page.RenderLive; Page.RenderTimestamp]) /\
    Page.c_liveMatches c' = [].
Proof.
  intros env c.
  destruct (proj1 (poll_tick env 0 Sample.serving world0 (Page.plainBrowser 1700000000000)
                     c Sample.snapshot eq_refl eq_refl)
              world0 world0) as (c' & H1 & H2 & _).
  exists c'. split; [exact H1 | exact H2].
Defined.

(** *** Loading *)

Lemma loadOnce_spec (env : Env) (hops : nat) (s : Server) (w : World) (b : Page.Browser)
    (c : Page.Client) :
  Page.loadOnce env hops s w b c =
  match cachedData s with
  | Some snap =>
      match Page.renderCurrentView b (Page.taken snap c) with
      | Some c' => (c', true, [Page.Fetch; Page.RenderCurrentView])
      | None => (Page.taken snap c, false, [Page.Fetch; Page.RenderCurrentView])
      end
  | None => (c, false, [Page.Fetch])
  end.
Proof.
  unfold Page.loadOnce. rewrite fetchData_spec.
  destruct (cachedData s) as [snap|]; [|reflexivity]. now rewrite readData_taken.
Qed.

Section Loading.

Variables (env : Env) (hops : nat) (serverAt : nat -> Server * World)
  (browserAt : nat -> Page.Browser) (c0 : Page.Client).

Lemma loadOnce_fails (n : nat) (c : Page.Client) :
  Page.lastRenderedHash c = Page.lastRenderedHash c0 ->
  Page.failsAt serverAt browserAt c0 n ->
  exists c',
    Page.loadOnce env hops (fst (serverAt n)) (snd (serverAt n)) (browserAt n) c =
      (c', false, Page.attemptEvents serverAt n) /\
    Page.lastRenderedHash c' = Page.lastRenderedHash c0 /\
    (cachedData (fst (serverAt n)) = None -> c' = c).
Proof.
  intros Hc Hf. rewrite loadOnce_spec. unfold Page.failsAt in Hf. unfold Page.attemptEvents.
  destruct (cachedData (fst (serverAt n))) as [snap|].
  - rewrite (taken_same snap c c0 Hc), Hf. eexists. split; [reflexivity|].
    split; [reflexivity | discriminate].
  - exists c. auto.
Qed.

Lemma tryLoadFrom_loaded (snap : Snapshot) (c' : Page.Client) :
  forall (k n left : nat) (c : Page.Client),
  Page.lastRenderedHash c = Page.lastRenderedHash c0 ->
  (k <= left)%nat ->
  (forall j, (j < k)%nat -> Page.failsAt serverAt browserAt c0 (n + j)) ->
  (forall j, (j < k)%nat -> Page.hasLoadingText (browserAt (n + j)%nat) = true) ->
  cachedData (fst (serverAt (n + k)%nat)) = Some snap ->
  Page.renderCurrentView (browserAt (n + k)%nat) (Page.taken snap c0) = Some c' ->
  Page.tryLoadFrom env hops serverAt browserAt n left c =
  (c', true, Page.waits serverAt n k ++ [Page.Fetch; Page.RenderCurrentView]).
Proof.
  induction k as [|k IH]; intros n left c Hc Hk Hfail Htext Hsome Hrender.
  - rewrite Nat.add_0_r in Hsome, Hrender.
    assert (E : Page.loadOnce env hops (fst (serverAt n)) (snd (serverAt n)) (browserAt n) c
                = (c', true, [Page.Fetch; Page.RenderCurrentView])).
    { now rewrite loadOnce_spec, Hsome, (taken_same snap c c0 Hc), Hrender. }
    destruct left; cbn [Page.tryLoadFrom]; rewrite E; reflexivity.
  - destruct left as [|left]; [lia|]. cbn [Page.tryLoadFrom].
    pose proof (Hfail 0%nat ltac:(lia)) as H0. rewrite Nat.add_0_r in H0.
    destruct (loadOnce_fails n c Hc H0) as (c1 & -> & Hc1 & _).
    pose proof (Htext 0%nat ltac:(lia)) as Ht0. rewrite Nat.add_0_r in Ht0. rewrite Ht0.
    rewrite (IH (S n) left c1 Hc1); [| lia | | | |].
    + unfold Page.waits. cbn [seq flat_map]. now rewrite <- !app_assoc.
    + intros j Hj. replace (S n + j)%nat with (n + S j)%nat by lia. apply Hfail. lia.
    + intros j Hj. replace (S n + j)%nat with (n + S j)%nat by lia. apply Htext. lia.
    + now replace (S n + k)%nat with (n + S k)%nat by lia.
    + now replace (S n + k)%nat with (n + S k)%nat by lia.
Qed.

Lemma tryLoadFrom_failed :
  forall (left n : nat) (c : Page.Client),
  Page.lastRenderedHash c = Page.lastRenderedHash c0 ->
  (forall j, (j <= left)%nat -> Page.failsAt serverAt browserAt c0 (n + j)) ->
  (forall j, (j < left)%nat -> Page.hasLoadingText (browserAt (n + j)%nat) = true) ->
  exists c',
    Page.tryLoadFrom env hops serverAt browserAt n left c =
      (c', false,
       Page.waits serverAt n left ++ Page.attemptEvents serverAt (n + left)
       ++ [Page.ShowError]) /\
    Page.lastRenderedHash c' = Page.lastRenderedHash c0 /\
    ((forall j, (j <= left)%nat -> cachedData (fst (serverAt (n + j)%nat)) = None) ->
     c' = c).
Proof.
  induction left as [|left IH]; intros n c Hc Hfail Htext; cbn [Page.tryLoadFrom];
    pose proof (Hfail 0%nat ltac:(lia)) as H0; rewrite Nat.add_0_r in H0;
    destruct (loadOnce_fails n c Hc H0) as (c1 & -> & Hc1 & Hsame).
  - exists c1. rewrite Nat.add_0_r. split; [reflexivity|]. split; [exact Hc1|].
    intros Hnone. apply Hsame. specialize (Hnone 0%nat ltac:(lia)).
    now rewrite Nat.add_0_r in Hnone.
  - pose proof (Htext 0%nat ltac:(lia)) as Ht0. rewrite Nat.add_0_r in Ht0. rewrite Ht0.
    destruct (IH (S n) c1 Hc1) as (c2 & E & Hc2 & Hsame2).
    { intros j Hj. replace (S n + j)%nat with (n + S j)%nat by lia. apply Hfail. lia. }
    { intros j Hj. replace (S n + j)%nat with (n + S j)%nat by lia. apply Htext. lia. }
    rewrite E. exists c2. split; [|split; [exact Hc2|]].
    + unfold Page.waits. cbn [seq flat_map].
      replace (S n + left)%nat with (n + S left)%nat by lia. now rewrite <- !app_assoc.
    + intros Hnone. rewrite Hsame2.
      * apply Hsame. specialize (Hnone 0%nat ltac:(lia)). now rewrite Nat.add_0_r in Hnone.
      * intros j Hj. replace (S n + j)%nat with (n + S j)%nat by lia. apply Hnone. lia.
Qed.

(** The attempts fail up to the attempt [k], and the document of that
    attempt has no element for the waiting text: nothing follows. *)
Lemma tryLoadFrom_stuck :
  forall (k n left : nat) (c : Page.Client),
  Page.lastRenderedHash c = Page.lastRenderedHash c0 ->
  (k < left)%nat ->
  (forall j, (j <= k)%nat -> Page.failsAt serverAt browserAt c0 (n + j)) ->
  (forall j, (j < k)%nat -> Page.hasLoadingText (browserAt (n + j)%nat) = true) ->
  Page.hasLoadingText (browserAt (n + k)%nat) = false ->
  exists c',
    Page.tryLoadFrom env hops serverAt browserAt n left c =
      (c', false, Page.waits serverAt n k ++ Page.attemptEvents serverAt (n + k)) /\
    Page.lastRenderedHash c' = Page.lastRenderedHash c0.
Proof.
  induction k as [|k IH]; intros n left c Hc Hk Hfail Htext Hno;
    (destruct left as [|left]; [lia|]); cbn [Page.tryLoadFrom];
    pose proof (Hfail 0%nat ltac:(lia)) as H0; rewrite Nat.add_0_r in H0;
    destruct (loadOnce_fails n c Hc H0) as (c1 & -> & Hc1 & _).
  - rewrite Nat.add_0_r in Hno |- *. rewrite Hno. exists c1. split; [reflexivity | exact Hc1].
  - pose proof (Htext 0%nat ltac:(lia)) as Ht0. rewrite Nat.add_0_r in Ht0. rewrite Ht0.
    destruct (IH (S n) left c1 Hc1) as (c2 & E & Hc2); [lia | | | |].
    + intros j Hj. replace (S n + j)%nat with (n + S j)%nat by lia. apply Hfail. lia.
    + intros j Hj. replace (S n + j)%nat with (n + S j)%nat by lia. apply Htext. lia.
    + now replace (S n + k)%nat with (n + S k)%nat by lia.
    + rewrite E. exists c2. split; [|exact Hc2].
      unfold Page.waits. cbn [seq flat_map].
      replace (S n + k)%nat with (n + S k)%nat by lia. now rewrite <- !app_assoc.
Qed.

End Loading.

(** X20: how the page loads.  An attempt of [tryLoad] fails when the
    server has no snapshot, and also when it has one and [renderCurrentView]
    throws on it; after a failure the page writes its waiting text, waits 2
    seconds and tries again, at most 11 times in all.  When the attempt [k],
    counted from 0 and at most 10, is the first that does not fail, the page
    holds the snapshot of that attempt with [lastRenderedHash] at its time,
    and polling has started, after [k] failures and waits.  When all 11
    attempts fail, the page gets to the branch that shows its error after
    the eleventh and polling has not started; [lastRenderedHash] is as
    before, and so are all variables of the page when no attempt found a
    snapshot.  Both suppose that the document has the element of the
    waiting text at every failure that is followed by a wait; at a failure
    before the eleventh where it has none, the loading ends with that
    attempt: no wait, no further attempt and no error.  On the overview
    [renderCurrentView] returns when the grouping of the ongoing tournaments
    does not throw, every team of a tournament has a value in [TEAMS], and
    the browser lets the overview and the banner be painted, and it throws
    otherwise. *)
Theorem page_load (env : Env) (hops : nat) (serverAt : nat -> Server * World)
    (browserAt : nat -> Page.Browser) (c : Page.Client) :
  let taken := fun snap : Snapshot =>
    {| Page.teamsData := teams snap; Page.c_heroMap := heroMap snap;
       Page.c_liveMatches := liveMatches snap; Page.upcomingMatches := upcoming snap;
       Page.c_lastUpdated := Page.StampAt (lastUpdated snap);
       Page.lastRenderedHash := Page.lastRenderedHash c |} in
  let fails := fun j : nat =>
    match cachedData (fst (serverAt j)) with
    | Some snapj => Page.renderCurrentView (browserAt j) (taken snapj) = None
    | None => True
    end in
  let failure := fun j : nat =>
    match cachedData (fst (serverAt j)) with
    | Some _ => [Page.Fetch; Page.RenderCurrentView]
    | None => [Page.Fetch]
    end in
  (forall k snap c',
     (k <= 10)%nat ->
     (forall j, (j < k)%nat -> fails j /\ Page.hasLoadingText (browserAt j) = true) ->
     cachedData (fst (serverAt k)) = Some snap ->
     Page.renderCurrentView (browserAt k) (taken snap) = Some c' ->
     Page.tryLoad env hops serverAt browserAt 0 c =
       (c', true,
        flat_map (fun j => failure j ++ [Page.Waiting 2000]) (seq 0 k)
        ++ [Page.Fetch; Page.RenderCurrentView]) /\
     Page.teamsData c' = teams snap /\
     Page.c_liveMatches c' = liveMatches snap /\
     Page.c_lastUpdated c' = Page.StampAt (lastUpdated snap) /\
     Page.lastRenderedHash c' = Page.StampAt (lastUpdated snap)) /\
  ((forall j, (j <= 10)%nat -> fails j) ->
   (forall j, (j < 10)%nat -> Page.hasLoadingText (browserAt j) = true) ->
   exists c',
     Page.tryLoad env hops serverAt browserAt 0 c =
       (c', false,
        flat_map (fun j => failure j ++ [Page.Waiting 2000]) (seq 0 10)
        ++ failure 10%nat ++ [Page.ShowError]) /\
     Page.lastRenderedHash c' = Page.lastRenderedHash c /\
     ((forall j, (j <= 10)%nat -> cachedData (fst (serverAt j)) = None) -> c' = c)) /\
  (forall k,
     (k < 10)%nat ->
     (forall j, (j <= k)%nat -> fails j) ->
     (forall j, (j < k)%nat -> Page.hasLoadingText (browserAt j) = true) ->
     Page.hasLoadingText (browserAt k) = false ->
     exists c',
       Page.tryLoad env hops serverAt browserAt 0 c =
         (c', false,
          flat_map (fun j => failure j ++ [Page.Waiting 2000]) (seq 0 k) ++ failure k) /\
       Page.lastRenderedHash c' = Page.lastRenderedHash c) /\
  (forall j snap,
     Page.getCurrentView (browserAt j) = "overview" ->
     ((exists c', Page.renderCurrentView (browserAt j) (taken snap) = Some c') <->
      exists ongoing,
        Page.getOngoingTournaments (Page.b_now (browserAt j)) (teams snap) = Some ongoing /\
        Forall (fun t =>
          Forall (fun e => In (fst e) ["xg"; "yb"; "vg"] \/ inheritedName (fst e) = true)
            (Page.t_teams t)) ongoing /\
        Page.completes (browserAt j) Page.PaintOverview (taken snap) = true /\
        Page.completes (browserAt j) Page.PaintLive (taken snap) = true)).
Proof.
  intros taken fails failure. split; [|split; [|split]].
  - intros k snap c' Hk Hfail Hsome Hrender. split.
    + apply (tryLoadFrom_loaded env hops serverAt browserAt c snap c' k 0 10 c eq_refl Hk);
        [intros j Hj; apply (Hfail j Hj) | intros j Hj; apply (Hfail j Hj)
        | exact Hsome | exact Hrender].
    + apply renderCurrentView_some in Hrender as (H1 & _ & H3 & _ & H5 & H6 & _).
      rewrite H1, H3, H5, H6. cbn. auto.
  - intros Hfail Htext.
    exact (tryLoadFrom_failed env hops serverAt browserAt c 10 0 c eq_refl Hfail Htext).
  - intros k Hk Hfail Htext Hno.
    exact (tryLoadFrom_stuck env hops serverAt browserAt c k 0 10 c eq_refl Hk Hfail
             Htext Hno).
  - intros j snap Hv. exact (renderCurrentView_overview (browserAt j) (taken snap) Hv).
Qed.

(** The statement at work: the server has no snapshot when the page asks
    first, one with a league of the name [toString] when it asks again, and
    the sample snapshot from then on. *)
Lemma page_load_witness :
  let serverAt := fun k : nat =>
    (match k with
     | 0%nat => initial
     | 1%nat => Page.oddServing
     | _ => Sample.serving
     end, world0) in
  let browserAt := fun _ : nat => Page.plainBrowser 1700000000000 in
  snd (Page.tryLoad (Sample.envWith (fun _ => false)) 0 serverAt browserAt 0 Page.client0) =
  [ Page.Fetch; Page.Waiting 2000;
    Page.Fetch; Page.RenderCurrentView; Page.Waiting 2000;
    Page.Fetch; Page.RenderCurrentView ].
Proof.
  intros serverAt browserAt.
  destruct (proj1 (page_load (Sample.envWith (fun _ => false)) 0 serverAt browserAt
                     Page.client0) 2%nat Sample.snapshot
              (Page.taken Sample.snapshot
                 {| Page.teamsData := []; Page.c_heroMap := ∅; Page.c_liveMatches := [];
                    Page.upcomingMatches := []; Page.c_lastUpdated := Page.StampNull;
                    Page.lastRenderedHash := Page.StampAt 1699999000000 |}))
    as [E _].
  - lia.
  - intros j Hj. destruct j as [|[|j]];
      [split; [exact I | reflexivity] | split; vm_compute; reflexivity | lia].
  - reflexivity.
  - vm_compute. reflexivity.
  - rewrite E. reflexivity.
Defined.

(** ** [app.js]: relative times *)

Lemma div_between (a b : Z) : 0 < b -> b * (a / b) <= a < b * (a / b + 1).
Proof.
  intros Hb. pose proof (Z.div_mod a b ltac:(lia)). pose proof (Z.mod_pos_bound a b Hb). lia.
Qed.

(** X21: the text of [relativeTime] for an instant other than 0, with
    [d] the milliseconds from the instant to now.  For an instant ahead the
    text is [in] and a whole number of minutes below 60, of hours from 1 to
    23, or of days from 1 on; within the first minute after the instant it
    is [just now]; later it is a whole number of minutes from 1 to 59, of
    hours from 1 to 23 or of days from 1 to 6, followed by [ago]; from seven
    days on it is the date.  The number is the time rounded down to the
    unit. *)
Theorem relative_time_units (formatDate : Z -> string) (now e : Z) :
  e <> 0 ->
  let d := now - 1000 * e in
  let r := Page.relativeTime formatDate now (Some e) in
  (d < 0 /\ exists n,
     (r = "in " +:+ JS.ofZ n +:+ "m" /\ 0 <= n < 60 /\
      60000 * n <= - d < 60000 * (n + 1)) \/
     (r = "in " +:+ JS.ofZ n +:+ "h" /\ 1 <= n < 24 /\
      3600000 * n <= - d < 3600000 * (n + 1)) \/
     (r = "in " +:+ JS.ofZ n +:+ "d" /\ 1 <= n /\
      86400000 * n <= - d < 86400000 * (n + 1))) \/
  (0 <= d < 60000 /\ r = "just now") \/
  (60000 <= d < 604800000 /\ exists n,
     (r = JS.ofZ n +:+ "m ago" /\ 1 <= n < 60 /\ 60000 * n <= d < 60000 * (n + 1)) \/
     (r = JS.ofZ n +:+ "h ago" /\ 1 <= n < 24 /\ 3600000 * n <= d < 3600000 * (n + 1)) \/
     (r = JS.ofZ n +:+ "d ago" /\ 1 <= n < 7 /\ 86400000 * n <= d < 86400000 * (n + 1))) \/
  (604800000 <= d /\ r = formatDate e).
Proof.
  intros He d r. unfold r, Page.relativeTime. fold d.
  destruct (Z.eqb_spec e 0) as [E|_]; [contradiction|]. cbn zeta.
  change (60 * 1000) with 60000. change (3600 * 1000) with 3600000.
  change (86400 * 1000) with 86400000. change (604800 * 1000) with 604800000.
  destruct (Z.ltb_spec d 0) as [Hneg|Hpos].
  - left. split; [exact Hneg|].
    destruct (Z.ltb_spec (- d) 3600000) as [H1|H1];
      [|destruct (Z.ltb_spec (- d) 86400000) as [H2|H2]].
    + exists (- d / 60000). left. pose proof (div_between (- d) 60000 ltac:(lia)).
      split; [reflexivity|]. lia.
    + exists (- d / 3600000). right; left.
      pose proof (div_between (- d) 3600000 ltac:(lia)).
      split; [reflexivity|]. lia.
    + exists (- d / 86400000). right; right.
      pose proof (div_between (- d) 86400000 ltac:(lia)).
      split; [reflexivity|]. lia.
  - right. destruct (Z.ltb_spec d 60000) as [H0|H0]; [left; split; [lia | reflexivity]|].
    right.
    destruct (Z.ltb_spec d 3600000) as [H1|H1];
      [|destruct (Z.ltb_spec d 86400000) as [H2|H2];
        [|destruct (Z.ltb_spec d 604800000) as [H3|H3]]].
    + left. split; [lia|]. exists (d / 60000). left.
      pose proof (div_between d 60000 ltac:(lia)). split; [reflexivity|]. lia.
    + left. split; [lia|]. exists (d / 3600000). right; left.
      pose proof (div_between d 3600000 ltac:(lia)). split; [reflexivity|]. lia.
    + left. split; [lia|]. exists (d / 86400000). right; right.
      pose proof (div_between d 86400000 ltac:(lia)). split; [reflexivity|]. lia.
    + right. split; [lia | reflexivity].
Qed.

(** The statement at work: a match that starts in ninety minutes. *)
Lemma relative_time_witness :
  exists n,
    Page.relativeTime (fun _ => "a date") 1700000000000 (Some 1700005400)
      = "in " +:+ JS.ofZ n +:+ "h" /\
    1 <= n < 24.
Proof.
  destruct (relative_time_units (fun _ => "a date") 1700000000000 1700005400)
    as [(_ & n & [(_ & H1 & H2)|[(Hr & H1 & _)|(_ & H1 & H2)]])
       |[(H & _)|[((H & _) & _)|(H & _)]]]; try lia.
  exists n. split; [exact Hr | exact H1].
Defined.

(** ** [app.js]: the ongoing tournaments *)

Lemma filter_split_perm {A} (f : A -> bool) (l : list A) :
  Permutation (List.filter f l ++ List.filter (fun a => negb (f a)) l) l.
Proof.
  induction l as [|a l IH]; cbn [List.filter]; [reflexivity|].
  destruct (f a); cbn [negb app]; [now constructor|].
  rewrite <- Permutation_middle. now constructor.
Qed.

Lemma ownValues_perm {A} (name : A -> string) (l : list A) :
  Permutation (Page.ownValues name l) l.
Proof.
  unfold Page.ownValues. rewrite (sortWith_perm _ _). apply filter_split_perm.
Qed.

(** The counts of a run are those of its series, and it has one. *)
Lemma pushRun_counts (run : Page.TeamRun) (s : App.Series) :
  Page.tr_wins run = length (List.filter App.seriesWon (Page.tr_series run)) ->
  Page.tr_losses run =
    length (List.filter (fun x => negb (App.seriesWon x)) (Page.tr_series run)) ->
  Page.tr_series (Page.pushRun run s) <> [] /\
  Page.tr_wins (Page.pushRun run s) =
    length (List.filter App.seriesWon (Page.tr_series (Page.pushRun run s))) /\
  Page.tr_losses (Page.pushRun run s) =
    length (List.filter (fun x => negb (App.seriesWon x)) (Page.tr_series (Page.pushRun run s))).
Proof.
  intros Hw Hl. cbn [Page.pushRun Page.tr_series Page.tr_wins Page.tr_losses].
  rewrite !List.filter_app, !length_app. cbn [List.filter].
  split; [intros E; now apply app_eq_nil in E as [_ E]|].
  destruct (App.seriesWon s); cbn; lia.
Qed.

Lemma updateRun_in (key : string) (s : App.Series) (teams : list (string * Page.TeamRun)) :
  forall k run', In (k, run') (Page.updateRun key s teams) ->
  In (k, run') teams \/
  (k = key /\ exists run, (In (key, run) teams \/ run = Page.newRun) /\
                          run' = Page.pushRun run s).
Proof.
  induction teams as [|[k0 run0] teams IH]; intros k run'; cbn [Page.updateRun].
  - intros [[= <- <-]|[]]. right. split; [reflexivity|]. exists Page.newRun. auto.
  - destruct (String.eqb_spec k0 key) as [->|Hne].
    + intros [[= <- <-]|Hin]; [|left; now right].
      right. split; [reflexivity|]. exists run0. split; [left; now left | reflexivity].
    + intros [[= <- <-]|Hin]; [left; now left|].
      destruct (IH k run' Hin) as [H|(-> & run & [H| ->] & ->)].
      * left. now right.
      * right. split; [reflexivity|]. exists run. split; [left; now right | reflexivity].
      * right. split; [reflexivity|]. exists Page.newRun. auto.
Qed.

Lemma updateRun_keeps (key : string) (s : App.Series) (teams : list (string * Page.TeamRun)) :
  forall k run, In (k, run) teams ->
  exists run', In (k, run') (Page.updateRun key s teams) /\
               (forall x, In x (Page.tr_series run) -> In x (Page.tr_series run')).
Proof.
  induction teams as [|[k0 run0] teams IH]; intros k run; cbn [Page.updateRun]; [intros []|].
  destruct (String.eqb_spec k0 key) as [->|Hne].
  - intros [[= <- <-]|Hin].
    + exists (Page.pushRun run0 s). split; [now left|].
      intros x Hx. cbn. apply in_or_app. now left.
    + exists run. split; [now right | auto].
  - intros [[= <- <-]|Hin].
    + exists run0. split; [now left | auto].
    + destruct (IH k run Hin) as (run' & H1 & H2). exists run'. split; [now right | exact H2].
Qed.

Lemma updateRun_adds (key : string) (s : App.Series) (teams : list (string * Page.TeamRun)) :
  exists run', In (key, run') (Page.updateRun key s teams) /\ In s (Page.tr_series run').
Proof.
  induction teams as [|[k0 run0] teams IH]; cbn [Page.updateRun].
  - eexists. split; [now left|]. cbn. now left.
  - destruct (String.eqb_spec k0 key) as [->|Hne].
    + eexists. split; [now left|]. cbn. apply in_or_app. right. now left.
    + destruct IH as (run' & H1 & H2). exists run'. split; [now right | exact H2].
Qed.

Lemma updateTournament_names (lg key : string) (s : App.Series) (ts : list Page.Tournament) :
  map Page.t_name (Page.updateTournament lg key s ts) =
  if existsb (fun t => String.eqb (Page.t_name t) lg) ts
  then map Page.t_name ts else map Page.t_name ts ++ [lg].
Proof.
  induction ts as [|t ts IH]; cbn [Page.updateTournament existsb map]; [reflexivity|].
  destruct (String.eqb (Page.t_name t) lg); cbn [orb map]; [reflexivity|].
  rewrite IH. now destruct (existsb _ ts).
Qed.

Lemma updateTournament_in (lg key : string) (s : App.Series) (ts : list Page.Tournament) :
  forall t', In t' (Page.updateTournament lg key s ts) ->
  In t' ts \/
  exists t, (In t ts \/ t = Page.newTournament lg) /\ Page.t_name t = lg /\
            t' = Page.addToTournament key s t.
Proof.
  induction ts as [|t0 ts IH]; intros t'; cbn [Page.updateTournament].
  - intros [<-|[]]. right. exists (Page.newTournament lg). auto.
  - destruct (String.eqb_spec (Page.t_name t0) lg) as [He|Hne].
    + intros [<-|Hin]; [|left; now right].
      right. exists t0. split; [left; now left|]. now split.
    + intros [<-|Hin]; [left; now left|].
      destruct (IH t' Hin) as [H|(t & [H| ->] & Hn & ->)].
      * left. now right.
      * right. exists t. split; [left; now right|]. now split.
      * right. exists (Page.newTournament lg). auto.
Qed.

Lemma updateTournament_keeps (lg key : string) (s : App.Series) (ts : list Page.Tournament) :
  forall t, In t ts ->
  exists t', In t' (Page.updateTournament lg key s ts) /\
             Page.t_name t' = Page.t_name t /\
             (forall k run, In (k, run) (Page.t_teams t) ->
                exists run', In (k, run') (Page.t_teams t') /\
                  (forall x, In x (Page.tr_series run) -> In x (Page.tr_series run'))).
Proof.
  induction ts as [|t0 ts IH]; intros t; cbn [Page.updateTournament]; [intros []|].
  destruct (String.eqb_spec (Page.t_name t0) lg) as [He|Hne].
  - intros [<-|Hin].
    + exists (Page.addToTournament key s t0). split; [now left|]. split; [reflexivity|].
      intros k run Hk. now apply updateRun_keeps.
    + exists t. split; [now right|]. split; [reflexivity|]. eauto.
  - intros [<-|Hin].
    + exists t0. split; [now left|]. split; [reflexivity|]. eauto.
    + destruct (IH t Hin) as (t' & H1 & H2). exists t'. split; [now right | exact H2].
Qed.

Lemma updateTournament_adds (lg key : string) (s : App.Series) (ts : list Page.Tournament) :
  exists t', In t' (Page.updateTournament lg key s ts) /\ Page.t_name t' = lg /\
    exists run', In (key, run') (Page.t_teams t') /\ In s (Page.tr_series run').
Proof.
  induction ts as [|t0 ts IH]; cbn [Page.updateTournament].
  - eexists. split; [now left|]. split; [reflexivity|]. apply updateRun_adds.
  - destruct (String.eqb_spec (Page.t_name t0) lg) as [He|Hne].
    + eexists. split; [now left|]. split; [exact He|]. apply updateRun_adds.
    + destruct IH as (t' & H1 & H2). exists t'. split; [now right | exact H2].
Qed.

Lemma tournamentStep_none (todo : list (string * App.Series)) :
  fold_left Page.tournamentStep todo None = None.
Proof. induction todo as [|x todo IH]; [reflexivity | exact IH]. Qed.

(** What the two loops keep true of [tournaments] after the rounds
    [done]. *)
Lemma tournamentLoop_inv (todo : list (string * App.Series)) :
  forall (done : list (string * App.Series)) (ts : list Page.Tournament),
  NoDup (map Page.t_name ts) ->
  (forall t k run, In t ts -> In (k, run) (Page.t_teams t) ->
     (Page.tr_series run <> [] /\
      Page.tr_wins run = length (List.filter App.seriesWon (Page.tr_series run)) /\
      Page.tr_losses run =
        length (List.filter (fun x => negb (App.seriesWon x)) (Page.tr_series run))) /\
     forall s, In s (Page.tr_series run) ->
       In (k, s) done /\ Page.tournamentKey s = Page.t_name t /\
       App.latestTime s <= Page.t_latestTime t) ->
  (forall k s, In (k, s) done ->
     exists t run, In t ts /\ Page.t_name t = Page.tournamentKey s /\
                   In (k, run) (Page.t_teams t) /\ In s (Page.tr_series run)) ->
  match fold_left Page.tournamentStep todo (Some ts) with
  | Some ts' =>
      NoDup (map Page.t_name ts') /\
      (forall t k run, In t ts' -> In (k, run) (Page.t_teams t) ->
         (Page.tr_series run <> [] /\
          Page.tr_wins run = length (List.filter App.seriesWon (Page.tr_series run)) /\
          Page.tr_losses run =
            length (List.filter (fun x => negb (App.seriesWon x)) (Page.tr_series run))) /\
         forall s, In s (Page.tr_series run) ->
           In (k, s) (done ++ todo) /\ Page.tournamentKey s = Page.t_name t /\
           App.latestTime s <= Page.t_latestTime t) /\
      (forall k s, In (k, s) (done ++ todo) ->
         exists t run, In t ts' /\ Page.t_name t = Page.tournamentKey s /\
                       In (k, run) (Page.t_teams t) /\ In s (Page.tr_series run))
  | None =>
      exists k s, In (k, s) todo /\
        (Page.inherited (Page.tournamentKey s) = true \/ Page.inherited k = true)
  end.
Proof.
  induction todo as [|[key s] todo IH]; intros done ts Hnd Hsound Hcomplete; cbn [fold_left].
  - rewrite app_nil_r. now split.
  - cbn [Page.tournamentStep fst snd].
    destruct (Page.inherited (Page.tournamentKey s) || Page.inherited key) eqn:Hi.
    + rewrite tournamentStep_none. exists key, s. split; [now left|].
      now apply orb_prop in Hi.
    + set (lg := Page.tournamentKey s) in *.
      specialize (IH (done ++ [(key, s)]) (Page.updateTournament lg key s ts)).
      rewrite <- app_assoc in IH. cbn [app] in IH.
      assert (H1 : NoDup (map Page.t_name (Page.updateTournament lg key s ts))).
      { rewrite updateTournament_names.
        destruct (existsb (fun t => String.eqb (Page.t_name t) lg) ts) eqn:He; [exact Hnd|].
        apply NoDup_app. split; [exact Hnd|]. split; [|apply NoDup_singleton].
        intros x Hx Hx'. apply list_elem_of_In in Hx, Hx'. destruct Hx' as [<-|[]].
        apply in_map_iff in Hx as (t & Hn & Hin).
        assert (Ht : existsb (fun t => String.eqb (Page.t_name t) lg) ts = true).
        { apply existsb_exists. exists t. split; [exact Hin | now apply String.eqb_eq]. }
        congruence. }
      assert (H2 : forall t k run,
        In t (Page.updateTournament lg key s ts) -> In (k, run) (Page.t_teams t) ->
        (Page.tr_series run <> [] /\
         Page.tr_wins run = length (List.filter App.seriesWon (Page.tr_series run)) /\
         Page.tr_losses run =
           length (List.filter (fun x => negb (App.seriesWon x)) (Page.tr_series run))) /\
        forall x, In x (Page.tr_series run) ->
          In (k, x) (done ++ [(key, s)]) /\ Page.tournamentKey x = Page.t_name t /\
          App.latestTime x <= Page.t_latestTime t).
      { intros t' k run' Ht' Hk.
        apply updateTournament_in in Ht' as [Hold|(t & Ht & Hn & ->)].
        - destruct (Hsound t' k run' Hold Hk) as [Hc Hs]. split; [exact Hc|].
          intros x Hx. destruct (Hs x Hx) as (Hd & Hrest). split; [|exact Hrest].
          apply in_or_app. now left.
        - cbn [Page.addToTournament Page.t_teams Page.t_name Page.t_latestTime] in Hk |- *.
          assert (Hmax : Page.t_latestTime t <=
                         (if Page.t_latestTime t <? App.latestTime s
                          then App.latestTime s else Page.t_latestTime t) /\
                         App.latestTime s <=
                         (if Page.t_latestTime t <? App.latestTime s
                          then App.latestTime s else Page.t_latestTime t)).
          { destruct (Z.ltb_spec (Page.t_latestTime t) (App.latestTime s)); lia. }
          destruct Hmax as [Hm1 Hm2].
          assert (Hteams : forall k0 run0, In (k0, run0) (Page.t_teams t) ->
            (Page.tr_series run0 <> [] /\
             Page.tr_wins run0 = length (List.filter App.seriesWon (Page.tr_series run0)) /\
             Page.tr_losses run0 =
               length (List.filter (fun x => negb (App.seriesWon x)) (Page.tr_series run0))) /\
            forall x, In x (Page.tr_series run0) ->
              In (k0, x) done /\ Page.tournamentKey x = Page.t_name t /\
              App.latestTime x <= Page.t_latestTime t).
          { destruct Ht as [Ht| ->]; [intros k0 run0; now apply Hsound | intros k0 run0 []]. }
          apply updateRun_in in Hk as [Hold|(-> & run & Hrun & ->)].
          + destruct (Hteams k run' Hold) as [Hc Hs]. split; [exact Hc|].
            intros x Hx. destruct (Hs x Hx) as (Hd & Hkey & Hlt).
            split; [apply in_or_app; now left|]. split; [exact Hkey | lia].
          + assert (Hrun' :
              (Page.tr_wins run = length (List.filter App.seriesWon (Page.tr_series run)) /\
               Page.tr_losses run =
                 length (List.filter (fun x => negb (App.seriesWon x)) (Page.tr_series run))) /\
              forall x, In x (Page.tr_series run) ->
                In (key, x) done /\ Page.tournamentKey x = Page.t_name t /\
                App.latestTime x <= Page.t_latestTime t).
            { destruct Hrun as [Hrun| ->].
              - destruct (Hteams key run Hrun) as [(_ & Hw & Hl) Hs]. now split.
              - split; [split; reflexivity | intros x []]. }
            destruct Hrun' as [[Hw Hl] Hs]. split; [now apply pushRun_counts|].
            intros x Hx. cbn [Page.pushRun Page.tr_series] in Hx.
            apply in_app_or in Hx as [Hx|[<-|[]]].
            * destruct (Hs x Hx) as (Hd & Hkey & Hlt).
              split; [apply in_or_app; now left|]. split; [exact Hkey | lia].
            * split; [apply in_or_app; right; now left|]. split; [now symmetry | exact Hm2]. }
      assert (H3 : forall k x, In (k, x) (done ++ [(key, s)]) ->
        exists t run, In t (Page.updateTournament lg key s ts) /\
                      Page.t_name t = Page.tournamentKey x /\
                      In (k, run) (Page.t_teams t) /\ In x (Page.tr_series run)).
      { intros k x Hin. apply in_app_or in Hin as [Hin|[[= <- <-]|[]]].
        - destruct (Hcomplete k x Hin) as (t & run & Ht & Hn & Hk & Hx).
          destruct (updateTournament_keeps lg key s ts t Ht) as (t' & Ht' & Hn' & Hk').
          destruct (Hk' k run Hk) as (run' & Hr1 & Hr2).
          exists t', run'. split; [exact Ht'|]. split; [congruence|]. split; [exact Hr1|].
          now apply Hr2.
        - destruct (updateTournament_adds lg key s ts) as (t' & Ht' & Hn' & run' & Hr1 & Hr2).
          exists t', run'. auto. }
      specialize (IH H1 H2 H3).
      destruct (fold_left Page.tournamentStep todo _) as [ts'|]; [exact IH|].
      destruct IH as (k & x & Hin & Hinh). exists k, x. split; [now right | exact Hinh].
Qed.

Lemma recentSeries_in (now : Z) (teamsData : list (string * TeamEntry)) (k : string)
    (s : App.Series) :
  In (k, s) (Page.recentSeries now teamsData) <->
  exists team, In (k, team) teamsData /\
               In s (App.groupMatchesIntoSeries (matches (result team))) /\
               Page.recent now s = true.
Proof.
  unfold Page.recentSeries. rewrite in_flat_map. split.
  - intros ([k0 team] & Hin & Hs). cbn [fst snd] in Hs.
    apply in_map_iff in Hs as (x & [= <- <-] & Hx). apply filter_In in Hx as [Hx Hr].
    exists team. auto.
  - intros (team & Hin & Hs & Hr). exists (k, team). split; [exact Hin|].
    cbn [fst snd]. apply in_map. apply filter_In. auto.
Qed.

(** X22: [getOngoingTournaments] lists the series of the last five days.
    The tournaments have distinct names and come newest first by
    [latestTime]; a series listed for a team in a tournament is a series of
    the matches of that team, of that league (no league counting as
    [Unknown]) and with [latestTime] within five days before now, and the
    [latestTime] of the tournament is not before it; every such series of
    every team is listed; and for every team of a tournament the list is not
    empty and the wins and losses count its series won and not won.  The
    function ends in an error only when such a series has a league name, or
    its team a key, that every object inherits. *)
Theorem ongoing_tournaments (now : Z) (teamsData : list (string * TeamEntry)) :
  match Page.getOngoingTournaments now teamsData with
  | Some ts =>
      NoDup (map Page.t_name ts) /\
      StronglySorted (fun a b => Page.t_latestTime b <= Page.t_latestTime a) ts /\
      (forall t k run, In t ts -> In (k, run) (Page.t_teams t) ->
         Page.tr_series run <> [] /\
         Page.tr_wins run = length (List.filter App.seriesWon (Page.tr_series run)) /\
         Page.tr_losses run =
           length (List.filter (fun x => negb (App.seriesWon x)) (Page.tr_series run)) /\
         forall s, In s (Page.tr_series run) ->
           Page.tournamentKey s = Page.t_name t /\
           now - 5 * 86400 * 1000 < 1000 * App.latestTime s /\
           App.latestTime s <= Page.t_latestTime t /\
           exists team, In (k, team) teamsData /\
                        In s (App.groupMatchesIntoSeries (matches (result team)))) /\
      (forall k team s,
         In (k, team) teamsData ->
         In s (App.groupMatchesIntoSeries (matches (result team))) ->
         now - 5 * 86400 * 1000 < 1000 * App.latestTime s ->
         exists t run, In t ts /\ Page.t_name t = Page.tournamentKey s /\
                       In (k, run) (Page.t_teams t) /\ In s (Page.tr_series run))
  | None =>
      exists k team s,
        In (k, team) teamsData /\
        In s (App.groupMatchesIntoSeries (matches (result team))) /\
        (Page.inherited (Page.tournamentKey s) = true \/ Page.inherited k = true)
  end.
Proof.
  unfold Page.getOngoingTournaments.
  pose proof (tournamentLoop_inv (Page.recentSeries now teamsData) [] [] NoDup_nil_2) as H.
  cbn [app] in H.
  destruct (fold_left Page.tournamentStep (Page.recentSeries now teamsData) (Some []))
    as [l|]; cbn [fmap option_fmap option_map].
  - destruct H as (Hnd & Hsound & Hcomplete); [intros t k run [] | intros k s [] |].
    set (out := sortWith _ (Page.ownValues Page.t_name l)).
    assert (Hp : Permutation out l).
    { unfold out. rewrite (sortWith_perm _ _). apply ownValues_perm. }
    assert (Hin : forall t, In t out -> In t l).
    { intros t. apply Permutation_in. exact Hp. }
    split; [rewrite (Permutation_map Page.t_name Hp); exact Hnd|]. split; [|split].
    + eapply StronglySorted_weaken;
        [| apply (sortWith_sorted _ (fun a => - Page.t_latestTime a)); intros; lia].
      cbn. intros; lia.
    + intros t k run Ht Hk. destruct (Hsound t k run (Hin t Ht) Hk) as [(Hne & Hw & Hl) Hs].
      split; [exact Hne|]. split; [exact Hw|]. split; [exact Hl|].
      intros s Hx. destruct (Hs s Hx) as (Hd & Hkey & Hlt).
      apply recentSeries_in in Hd as (team & Hteam & Hser & Hrec).
      split; [exact Hkey|]. split; [now apply Z.ltb_lt in Hrec|]. split; [exact Hlt|].
      exists team. auto.
    + intros k team s Hteam Hser Hrec.
      destruct (Hcomplete k s) as (t & run & Ht & Hrest).
      { apply recentSeries_in. exists team. split; [exact Hteam|]. split; [exact Hser|].
        now apply Z.ltb_lt. }
      exists t, run. split; [|exact Hrest].
      eapply Permutation_in; [symmetry; exact Hp | exact Ht].
  - destruct H as (k & s & Hin & Hinh); [intros t k run [] | intros k s [] |].
    apply recentSeries_in in Hin as (team & Hteam & Hser & _).
    exists k, team, s. auto.
Qed.

(** The grouping at work on the sample history, 500000 s after the epoch:
    the series against team 7 is recent, the one against team 9 is not; and
    a league that is called like a method of every object. *)
Example ongoing_sample :
  let entry := {| result := {| key := "xg"; info := JNull; matches := Sample.history;
                               players := []; heroes := [] |};
                  roster := [] |} in
  let odd := {| match_id := 4; radiant := Some true; radiant_win := Some true;
                start_time := Some 100000; opposing_team_id := IdNum 7;
                opposing_team_name := None; league_name := Some "toString";
                leagueid := None |} in
  (map (fun t => (Page.t_name t,
                  map (fun e => (fst e, length (Page.tr_series (snd e)),
                                 Page.tr_wins (snd e), Page.tr_losses (snd e)))
                      (Page.t_teams t),
                  Page.t_latestTime t))
     <$> Page.getOngoingTournaments 500000000 [("xg", entry)])
  = Some [("DreamLeague", [("xg", 1%nat, 1%nat, 0%nat)], 104000)] /\
  (map (fun lg => (Page.lg_name lg, length (Page.lg_series lg), Page.lg_totalW lg,
                   Page.lg_totalL lg, Page.lg_seriesW lg, Page.lg_seriesL lg,
                   Page.lg_latestTime lg))
     <$> Page.groupSeriesByLeague (App.groupMatchesIntoSeries Sample.history))
  = Some [("DreamLeague", 2%nat, 2%nat, 1%nat, 1%nat, 1%nat, 104000)] /\
  Page.groupSeriesByLeague (App.groupMatchesIntoSeries [odd]) = None.
Proof. vm_compute. repeat split; reflexivity. Qed.
